(** * CourseCreator: course generation, enrichment, export and persistence

    A shallow embedding of the JavaScript sources:

    - [server.js] (two variants of the Express server: the plain one and the
      one that keeps search diagnostics): the JSON extraction from the
      completion text, the per-skill video enrichment loops, the [courses]
      table behind [/api/courses];
    - the browser script: difficulty banding, import validation, identifier
      generation and the Trainstation export; saving, importing and deleting
      courses in local storage or through the server, the warning after a
      generation, and the names of the downloaded files.

    JavaScript values are modelled as follows.  Numbers are IEEE-754 doubles,
    Rocq's primitive [float]; counters and array indices, which only ever
    hold small naturals, are [nat].  Strings are [string]; a text that is
    scanned character by character is a [list ascii].  Parsed JSON is
    [JValue].  Collaborators that are not part of the repository ([JSON.parse],
    [fetch], [Math.random], the clock) are parameters of the functions that
    call them. *)

From Stdlib Require Import ZArith NArith List String Ascii Bool Arith Lia.
From Stdlib Require Import Permutation Sorted DecimalString.
From Stdlib Require Import Floats Uint63.
Import ListNotations.

Set Warnings "-inexact-float,-register-all".

Open Scope string_scope.
Open Scope list_scope.

(* ================================================================== *)
(** * Part I: the program                                              *)
(* ================================================================== *)

(** ** JavaScript values *)

Module Json.

(** The result of [JSON.parse]. An object is the list of its properties;
    a property is looked up by its first occurrence. *)
Inductive JValue : Type :=
| JNull
| JBool (b : bool)
| JNumber (n : float)
| JString (s : string)
| JArray (elements : list JValue)
| JObject (properties : list (string * JValue)).

(** What reading a property gives: a value, [undefined], or a TypeError
    (reading a property of [null] or of [undefined]). *)
Inductive Access : Type :=
| Value (v : JValue)
| Undefined
| TypeError.

Fixpoint lookup (key : string) (properties : list (string * JValue)) : option JValue :=
  match properties with
  | [] => None
  | (k, v) :: rest => if String.eqb k key then Some v else lookup key rest
  end.

(** [v.key] for a member name that is not an array index nor a built-in. *)
Definition prop (v : JValue) (key : string) : Access :=
  match v with
  | JNull => TypeError
  | JObject properties =>
      match lookup key properties with
      | Some x => Value x
      | None => Undefined
      end
  | _ => Undefined
  end.

(** ToBoolean. *)
Definition truthy (v : JValue) : bool :=
  match v with
  | JNull => false
  | JBool b => b
  | JNumber n => negb (PrimFloat.is_zero n || PrimFloat.is_nan n)
  | JString s => negb (String.eqb s "")
  | JArray _ => true
  | JObject _ => true
  end.

Definition truthyAccess (a : Access) : bool :=
  match a with
  | Value v => truthy v
  | _ => false
  end.

(** [Array.isArray]. *)
Definition isArray (a : Access) : bool :=
  match a with
  | Value (JArray _) => true
  | _ => false
  end.

(** [JSON.parse(JSON.stringify(v))]: what a value is once it has been
    written as JSON text and read back, as happens to every value that is
    sent to the server, sent back by it, or kept in [localStorage]. A number
    that is not finite is written as [null], and negative zero as [0]. *)
Fixpoint throughJSON (v : JValue) : JValue :=
  match v with
  | JNumber n =>
      if PrimFloat.is_finite n
      then (if PrimFloat.is_zero n then JNumber 0 else JNumber n)
      else JNull
  | JArray elements => JArray (map throughJSON elements)
  | JObject properties =>
      JObject (map (fun kv => match kv with (k, x) => (k, throughJSON x) end) properties)
  | other => other
  end.

End Json.

Import Json.

(** The number that an array index or a length is. *)
Definition num (n : nat) : float := PrimFloat.of_uint63 (Uint63.of_Z (Z.of_nat n)).

(** ** Difficulty from position (browser script) *)

Module Levels.

(** [getDifficultyLevel(index, total)], used by [displayCourse]. *)
Definition getDifficultyLevel (index total : float) : string :=
  let position := (index / total)%float in
  if (position <? 0.33)%float then "beginner"
  else if (position <? 0.66)%float then "intermediate"
  else "advanced".

(** [getTrainstationLevel(index, total)], used by [exportToTrainstation]. *)
Definition getTrainstationLevel (index total : float) : string :=
  let position := (index / total)%float in
  if (position <? 0.33)%float then "beginner"
  else if (position <? 0.66)%float then "intermediate"
  else "advanced".

(** The same banding over exact fractions: [index/total < 33/100] and
    [< 66/100], cross-multiplied. *)
Definition exactBand (index total : nat) : string :=
  if (total =? 0)%nat then "advanced"
  else if (100 * index <? 33 * total)%nat then "beginner"
  else if (100 * index <? 66 * total)%nat then "intermediate"
  else "advanced".

(** [skill.videos.forEach((video, videoIndex) => f(videoIndex, skill.videos.length))]:
    the labels of a list of [total] videos. *)
Definition labels (f : float -> float -> string) (total : nat) : list string :=
  map (fun videoIndex => f (num videoIndex) (num total)) (seq 0 total).

End Levels.

(** ** Extraction of the JSON object from the completion text (server) *)

Module Regex.

(** The fragment of regular expressions the server uses: a literal
    character, and [[\s\S]*], the greedy repetition of any character. *)
Inductive atom : Type :=
| Lit (c : ascii)
| AnyStar.

Definition regex : Type := list atom.

(** Backtracking match of [re] at the start of [s]; the result is the
    matched prefix. [AnyStar] first tries to take one more character and
    gives it back when the rest of the expression then fails. *)
Fixpoint matchHere (re : regex) : list ascii -> option (list ascii) :=
  match re with
  | [] => fun _ => Some []
  | Lit c :: re' =>
      fun s =>
        match s with
        | d :: s' =>
            if Ascii.eqb d c then option_map (cons d) (matchHere re' s') else None
        | [] => None
        end
  | AnyStar :: re' =>
      fix star (s : list ascii) : option (list ascii) :=
        match s with
        | [] => matchHere re' []
        | d :: s' =>
            match star s' with
            | Some m => Some (d :: m)
            | None => matchHere re' s
            end
        end
  end.

(** [String.prototype.match] with a regular expression without the [g]
    flag: the match at the leftmost position that has one. *)
Fixpoint exec (re : regex) (s : list ascii) : option (list ascii) :=
  match matchHere re s with
  | Some m => Some m
  | None =>
      match s with
      | [] => None
      | _ :: s' => exec re s'
      end
  end.

End Regex.

Module StructureParser.

Import Regex.

(** [/\{[\s\S]*\}/] *)
Definition jsonPattern : regex := [Lit "{"%char; AnyStar; Lit "}"%char].

(** [responseText.match(/\{[\s\S]*\}/)], [jsonMatch[0]] when it is not null. *)
Definition jsonMatch (responseText : string) : option string :=
  option_map string_of_list_ascii (exec jsonPattern (list_ascii_of_string responseText)).

Inductive Parsed : Type :=
| CourseStructure (v : JValue)
| MalformedResponse (message : string).

Section WithJSON.

(** [JSON.parse]: [None] when it throws a SyntaxError. *)
Variable JSON_parse : string -> option JValue.

(** The inner [try] block of both generation handlers. *)
Definition parseStructure (noMatch : string) (responseText : string) : Parsed :=
  match jsonMatch responseText with
  | Some span =>
      match JSON_parse span with
      | Some v => CourseStructure v
      | None => MalformedResponse "SyntaxError"
      end
  | None => MalformedResponse noMatch
  end.

(** An HTTP reply: status and JSON body. *)
Record Reply : Type := { status : nat; body : JValue }.

(** [POST /api/generate-course], from the completion text on. *)
Definition generateCourse (responseText : string) : Reply :=
  match parseStructure "No JSON found in response" responseText with
  | CourseStructure courseStructure => {| status := 200; body := courseStructure |}
  | MalformedResponse _ =>
      {| status := 500;
         body := JObject [("error", JString "Failed to parse AI response");
                          ("raw", JString responseText)] |}
  end.

(** [POST /api/generate-full-course], from the completion text up to the
    end of the parsing step: either the reply that ends the request or the
    course structure the handler goes on with. *)
Definition generateFullCourseParse (responseText : string) : Reply + JValue :=
  match parseStructure "No JSON found" responseText with
  | CourseStructure courseStructure => inr courseStructure
  | MalformedResponse _ =>
      inl {| status := 500;
             body := JObject [("error", JString "Failed to parse course structure")] |}
  end.

End WithJSON.

(** The span the specification describes: from the first opening brace of
    the text to its last closing brace. *)
Definition IsOutermostSpan (text span : list ascii) : Prop :=
  exists pre mid post,
    text = pre ++ "{"%char :: mid ++ "}"%char :: post /\
    ~ In "{"%char pre /\
    ~ In "}"%char post /\
    span = "{"%char :: mid ++ ["}"%char].

(** The same span by positions: [text.slice(i, j + 1)] for [i] the first
    index of an opening brace and [j] the last index of a closing brace. *)
Fixpoint indexOf (c : ascii) (s : list ascii) : option nat :=
  match s with
  | [] => None
  | d :: s' => if Ascii.eqb d c then Some 0 else option_map S (indexOf c s')
  end.

Definition lastIndexOf (c : ascii) (s : list ascii) : option nat :=
  option_map (fun k => List.length s - 1 - k) (indexOf c (rev s)).

Definition slice (i j : nat) (s : list ascii) : list ascii :=
  firstn (j - i) (skipn i s).

Definition spanFirstToLast (text : list ascii) : option (list ascii) :=
  match indexOf "{"%char text, lastIndexOf "}"%char text with
  | Some i, Some j => if (i <? j)%nat then Some (slice i (j + 1) text) else None
  | _, _ => None
  end.

End StructureParser.

(** ** Course data *)

Module Skill.
Record t : Type :=
  { name : string; description : string; searchTerms : list string }.
End Skill.

Module Video.
Record t : Type :=
  { id : string; title : string; thumbnail : string; channelTitle : string;
    searchTerm : string }.
End Video.

(** [{ ...skill, videos }] *)
Module EnrichedSkill.
Record t : Type := { skill : Skill.t; videos : list Video.t }.
End EnrichedSkill.

(** ** The search collaborator's answers *)

Module Youtube.

(** One entry of [data.items] of a search for [type=video] with
    [part=snippet]: such a result carries an [id.videoId] and a [snippet]
    with [title], [thumbnails.medium.url] and [channelTitle]. *)
Record Item : Type :=
  { videoId : string; title : string; mediumThumbnailUrl : string;
    channelTitle : string }.

(** [data.error]: [errors] holds the [reason] of each entry of
    [data.error.errors] ([None] for an entry without one); an absent list is
    the empty one. *)
Record ApiError : Type :=
  { code : Z; message : string; errors : list (option string) }.

(** An entry of [data.items] as the loop body finds it. The body reads
    [item.id.videoId], [item.snippet.title],
    [item.snippet.thumbnails.medium.url] and [item.snippet.channelTitle] to
    build the video, and the variant with diagnostics then calls
    [item.snippet.title.substring]. *)
Inductive Entry : Type :=
| Complete (item : Item)
    (* every member read is there and the title is a string *)
| Unreadable (message : string)
    (* a member on the way to one of the four is missing: building the video
       throws a TypeError carrying [message] *)
| Untitled (item : Item) (message : string).
    (* the four reads go through, but the title is not a string: the video
       is built (with [title item] standing for what the member holds), and
       [substring] throws a TypeError carrying [message] *)

(** The body of an answer; either member may be absent. An [items] that is
    not an array is taken by what the loop body makes of it: no length, or
    a length of zero, as no entry. *)
Record Data : Type :=
  { error : option ApiError; items : option (list Entry) }.

(** [await fetch(searchUrl)] followed by [await response.json()]: the
    promise is rejected (with an exception carrying [message]), or it
    resolves to the parsed body. An answer whose body cannot be read as an
    object, so that [data.error] throws, is a rejection too. *)
Inductive FetchResult : Type :=
| Rejected (message : string)
| Resolved (data : Data).

(** [data.error.errors?.[0]?.reason] *)
Definition firstReason (e : ApiError) : option string :=
  match errors e with
  | r :: _ => r
  | [] => None
  end.

End Youtube.

(** ** Video enrichment (server, [POST /api/generate-full-course]) *)

Module Enrichment.

Import Youtube.

(** A search request, named by the position of its term: skill [ofSkill] of
    [courseStructure.skills], term [ofTerm] of its [searchTerms]. *)
Record Request : Type := { ofSkill : nat; ofTerm : nat; query : string }.

Inductive Code : Type :=
| Num (z : Z)
| Str (s : string).

(** An entry of [youtubeErrors]. *)
Record ErrorInfo : Type :=
  { term : string; code : Code; message : string; reason : option string }.

(** What the closures of one request share: the four variables declared
    before [Promise.all], and the traffic with the collaborator (the requests
    sent and the requests answered, each in order of occurrence). *)
Record Shared : Type :=
  { totalSearches : nat;
    successfulSearches : nat;
    failedSearches : nat;
    youtubeErrors : list ErrorInfo;
    fetched : list Request;
    answered : list Request }.

Definition initial : Shared :=
  {| totalSearches := 0; successfulSearches := 0; failedSearches := 0;
     youtubeErrors := []; fetched := []; answered := [] |}.

(** [totalSearches++] and the call of [fetch] that follows it. *)
Definition send (r : Request) (sh : Shared) : Shared :=
  {| totalSearches := S (totalSearches sh);
     successfulSearches := successfulSearches sh;
     failedSearches := failedSearches sh;
     youtubeErrors := youtubeErrors sh;
     fetched := fetched sh ++ [r];
     answered := answered sh |}.

(** The closure is resumed with the answer to [r]. *)
Definition receive (r : Request) (sh : Shared) : Shared :=
  {| totalSearches := totalSearches sh;
     successfulSearches := successfulSearches sh;
     failedSearches := failedSearches sh;
     youtubeErrors := youtubeErrors sh;
     fetched := fetched sh;
     answered := answered sh ++ [r] |}.

(** [successfulSearches++] *)
Definition succeeded (sh : Shared) : Shared :=
  {| totalSearches := totalSearches sh;
     successfulSearches := S (successfulSearches sh);
     failedSearches := failedSearches sh;
     youtubeErrors := youtubeErrors sh;
     fetched := fetched sh;
     answered := answered sh |}.

(** [failedSearches++] *)
Definition failed (sh : Shared) : Shared :=
  {| totalSearches := totalSearches sh;
     successfulSearches := successfulSearches sh;
     failedSearches := S (failedSearches sh);
     youtubeErrors := youtubeErrors sh;
     fetched := fetched sh;
     answered := answered sh |}.

(** [youtubeErrors.push(info)] *)
Definition pushError (info : ErrorInfo) (sh : Shared) : Shared :=
  {| totalSearches := totalSearches sh;
     successfulSearches := successfulSearches sh;
     failedSearches := failedSearches sh;
     youtubeErrors := youtubeErrors sh ++ [info];
     fetched := fetched sh;
     answered := answered sh |}.

(** The object pushed to [videos] for [data.items[0]]. *)
Definition toVideo (item : Item) (term : string) : Video.t :=
  {| Video.id := videoId item;
     Video.title := title item;
     Video.thumbnail := mediumThumbnailUrl item;
     Video.channelTitle := channelTitle item;
     Video.searchTerm := term |}.

(** [reason || 'unknown'] *)
Definition orUnknown (r : option string) : string :=
  match r with
  | Some s => if String.eqb s "" then "unknown" else s
  | None => "unknown"
  end.

Definition errorInfo (term : string) (e : ApiError) : ErrorInfo :=
  {| term := term;
     code := Num (Youtube.code e);
     message := Youtube.message e;
     reason := Some (orUnknown (firstReason e)) |}.

Definition fetchError (term : string) (msg : string) : ErrorInfo :=
  {| term := term; code := Str "FETCH_ERROR"; message := msg; reason := None |}.

(** [data.error.errors?.[0]?.reason === 'quotaExceeded'] *)
Definition quotaExceeded (e : ApiError) : bool :=
  match firstReason e with
  | Some r => String.eqb r "quotaExceeded"
  | None => false
  end.

(** How an iteration of the [for] loop ends. *)
Inductive Flow : Type :=
| Continue
| Break.

(** The body of the [for] loop of the variant with diagnostics, from the
    answer on: the [try] block after the two [await]s, and the [catch]. With
    a first entry the search is counted as a success before the entry is
    read; an exception thrown after that is caught by the same [catch],
    which counts a failure and records a FETCH_ERROR. *)
Definition onResponse (term : string) (r : FetchResult)
    (videos : list Video.t) (sh : Shared) : Flow * list Video.t * Shared :=
  match r with
  | Rejected msg => (Continue, videos, pushError (fetchError term msg) (failed sh))
  | Resolved data =>
      match error data with
      | Some e =>
          let sh' := pushError (errorInfo term e) (failed sh) in
          if quotaExceeded e then (Break, videos, sh') else (Continue, videos, sh')
      | None =>
          match items data with
          | Some (Complete item :: _) =>
              (Continue, videos ++ [toVideo item term], succeeded sh)
          | Some (Unreadable msg :: _) =>
              (Continue, videos, pushError (fetchError term msg) (failed (succeeded sh)))
          | Some (Untitled item msg :: _) =>
              (Continue, videos ++ [toVideo item term],
               pushError (fetchError term msg) (failed (succeeded sh)))
          | _ => (Continue, videos, failed sh)
          end
      end
  end.

(** The body of the [for] loop of the plain variant, from the answer on:
    it builds the video and logs nothing of it; its [catch] only logs. *)
Definition plainOnResponse (term : string) (r : FetchResult)
    (videos : list Video.t) : list Video.t :=
  match r with
  | Rejected _ => videos
  | Resolved data =>
      match items data with
      | Some (Complete item :: _) => videos ++ [toVideo item term]
      | Some (Untitled item _ :: _) => videos ++ [toVideo item term]
      | _ => videos
      end
  end.

(** A closure of [courseStructure.skills.map(async (skill) => ...)]: it is
    suspended at the [await] of term [j], with the terms after it still to
    come, or it has returned. *)
Inductive Phase : Type :=
| Awaiting (j : nat) (term : string) (rest : list string)
| Returned.

Record Task : Type :=
  { skillOf : Skill.t; phase : Phase; videos : list Video.t }.

(** The request in progress: the closures, in the order of the skills, and
    what they share. *)
Record Machine : Type := { tasks : list Task; shared : Shared }.

Fixpoint update {A : Type} (i : nat) (x : A) (l : list A) : list A :=
  match l, i with
  | [], _ => []
  | _ :: rest, 0 => x :: rest
  | y :: rest, S i' => y :: update i' x rest
  end.

Fixpoint mapFrom {A B : Type} (f : nat -> A -> B) (i : nat) (l : list A) : list B :=
  match l with
  | [] => []
  | x :: rest => f i x :: mapFrom f (S i) rest
  end.

(** *** Notions used to state what the enrichment does *)

(** The answer makes the variant with diagnostics leave the loop. *)
Definition breaks (r : FetchResult) : bool :=
  match r with
  | Resolved data =>
      match error data with
      | Some e => quotaExceeded e
      | None => false
      end
  | Rejected _ => false
  end.

(** The first entry of the answer is one the loop body builds a video
    from. *)
Definition builds (data : Data) : bool :=
  match items data with
  | Some (Complete _ :: _) => true
  | Some (Untitled _ _ :: _) => true
  | _ => false
  end.

(** The answer makes the variant with diagnostics push a video. *)
Definition yields (r : FetchResult) : bool :=
  match r with
  | Resolved data =>
      match error data with
      | None => builds data
      | Some _ => false
      end
  | Rejected _ => false
  end.

(** The answer makes the plain variant push a video. *)
Definition plainYields (r : FetchResult) : bool :=
  match r with
  | Resolved data => builds data
  | Rejected _ => false
  end.

(** The answer makes the variant with diagnostics count a success: it
    carries no error and has a first entry. *)
Definition counts (r : FetchResult) : bool :=
  match r with
  | Resolved data =>
      match error data, items data with
      | None, Some (_ :: _) => true
      | _, _ => false
      end
  | Rejected _ => false
  end.

(** The answer makes the variant with diagnostics count a failure: every
    answer but the one that carries no error and a complete first entry. *)
Definition fails (r : FetchResult) : bool :=
  match r with
  | Resolved data =>
      match error data, items data with
      | None, Some (Complete _ :: _) => false
      | _, _ => true
      end
  | Rejected _ => true
  end.


(** The requests of skill [i] in a log. *)
Definition ofSkillOnly (i : nat) (log : list Request) : list Request :=
  filter (fun r => Nat.eqb (ofSkill r) i) log.

Section WithCollaborator.

Variable topic : string.

(** The answer of the search collaborator to the request for term [j] of
    skill [i]. *)
Variable respond : nat -> nat -> FetchResult.

(** [`${term} ${topic} tutorial`] *)
Definition searchQuery (term : string) : string :=
  (term ++ " " ++ topic ++ " tutorial")%string.

Definition request (i j : nat) (term : string) : Request :=
  {| ofSkill := i; ofTerm := j; query := searchQuery term |}.

(** *** The variant with diagnostics *)

(** The head of the [for] loop: with no term left the closure returns;
    otherwise it counts the search, sends the request and is suspended. *)
Definition loopHead (i j : nat) (terms : list string) (sh : Shared) : Phase * Shared :=
  match terms with
  | [] => (Returned, sh)
  | term :: rest => (Awaiting j term rest, send (request i j term) sh)
  end.

(** The call of the closure by [map]: it runs up to its first [await]. *)
Definition spawn (i : nat) (skill : Skill.t) (sh : Shared) : Task * Shared :=
  let (ph, sh') := loopHead i 0 (Skill.searchTerms skill) sh in
  ({| skillOf := skill; phase := ph; videos := [] |}, sh').

Fixpoint spawnFrom (i : nat) (skills : list Skill.t) (sh : Shared) : list Task * Shared :=
  match skills with
  | [] => ([], sh)
  | skill :: rest =>
      let (t, sh1) := spawn i skill sh in
      let (ts, sh2) := spawnFrom (S i) rest sh1 in
      (t :: ts, sh2)
  end.

(** [courseStructure.skills.map(async ...)]: every closure is started, in
    order, before any of them is resumed. *)
Definition launch (skills : list Skill.t) : Machine :=
  let (ts, sh) := spawnFrom 0 skills initial in
  {| tasks := ts; shared := sh |}.

(** The closure of skill [i] is resumed with the answer it awaits, and runs
    to its next [await] or to its end. *)
Definition resume (i : nat) (t : Task) (sh : Shared) : Task * Shared :=
  match phase t with
  | Returned => (t, sh)
  | Awaiting j term rest =>
      match onResponse term (respond i j) (videos t) (receive (request i j term) sh) with
      | (Break, vs, sh1) =>
          ({| skillOf := skillOf t; phase := Returned; videos := vs |}, sh1)
      | (Continue, vs, sh1) =>
          let (ph, sh2) := loopHead i (S j) rest sh1 in
          ({| skillOf := skillOf t; phase := ph; videos := vs |}, sh2)
      end
  end.

(** One turn of the event loop: the answer for closure [i] arrives. *)
Definition step (i : nat) (m : Machine) : Machine :=
  match nth_error (tasks m) i with
  | Some t =>
      let (t', sh') := resume i t (shared m) in
      {| tasks := update i t' (tasks m); shared := sh' |}
  | None => m
  end.

(** The answers arrive in the order [schedule] names their closures. *)
Definition run (schedule : list nat) (m : Machine) : Machine :=
  fold_left (fun m i => step i m) schedule m.

Definition returned (t : Task) : bool :=
  match phase t with
  | Returned => true
  | Awaiting _ _ _ => false
  end.

(** [Promise.all] resolves: every closure has returned. *)
Definition allReturned (m : Machine) : bool := forallb returned (tasks m).

(** The value [Promise.all] resolves to. *)
Definition skillsWithVideos (m : Machine) : list EnrichedSkill.t :=
  map (fun t => {| EnrichedSkill.skill := skillOf t; EnrichedSkill.videos := videos t |})
      (tasks m).

(** The closure of skill [i] run on its own from the head of its loop, as
    one sequential function. *)
Fixpoint termLoop (i j : nat) (terms : list string) (videos : list Video.t)
    (sh : Shared) : list Video.t * Shared :=
  match terms with
  | [] => (videos, sh)
  | term :: rest =>
      match onResponse term (respond i j) videos
              (receive (request i j term) (send (request i j term) sh)) with
      | (Break, vs, sh1) => (vs, sh1)
      | (Continue, vs, sh1) => termLoop i (S j) rest vs sh1
      end
  end.

(** *** The plain variant *)

Fixpoint plainLoop (i j : nat) (terms : list string) (videos : list Video.t)
    : list Video.t :=
  match terms with
  | [] => videos
  | term :: rest => plainLoop i (S j) rest (plainOnResponse term (respond i j) videos)
  end.

(** The closures of the plain variant share no variable: each one is a
    function of its skill, and [Promise.all] keeps the order of the skills. *)
Definition plainSkillsWithVideos (skills : list Skill.t) : list EnrichedSkill.t :=
  mapFrom (fun i skill =>
             {| EnrichedSkill.skill := skill;
                EnrichedSkill.videos := plainLoop i 0 (Skill.searchTerms skill) [] |})
          0 skills.

(** *** Notions used to state what the runs do *)

(** Where the head of the loop leaves the closure, and what it sends. *)
Definition phaseAt (j : nat) (terms : list string) : Phase :=
  match terms with
  | [] => Returned
  | term :: rest => Awaiting j term rest
  end.

Definition firstRequest (i j : nat) (terms : list string) : list Request :=
  match terms with
  | [] => []
  | term :: _ => [request i j term]
  end.

(** The closure of a skill after [map] has called it. *)
Definition started (skill : Skill.t) : Task :=
  {| skillOf := skill; phase := phaseAt 0 (Skill.searchTerms skill); videos := [] |}.

(** The videos closure [i] ends with, and the requests it sends, when it
    runs from the head of its loop at term [j]: what the loop computes,
    without the shared state. *)
Fixpoint soloVideos (i j : nat) (terms : list string) (videos : list Video.t)
    : list Video.t :=
  match terms with
  | [] => videos
  | term :: rest =>
      let vs := if yields (respond i j) then plainOnResponse term (respond i j) videos
                else videos in
      if breaks (respond i j) then vs else soloVideos i (S j) rest vs
  end.

Fixpoint soloRequests (i j : nat) (terms : list string) : list Request :=
  match terms with
  | [] => []
  | term :: rest =>
      request i j term ::
      (if breaks (respond i j) then [] else soloRequests i (S j) rest)
  end.

(** The skill as its loop, run on its own, leaves it. *)
Definition soloSkill (i : nat) (skill : Skill.t) : EnrichedSkill.t :=
  {| EnrichedSkill.skill := skill;
     EnrichedSkill.videos := soloVideos i 0 (Skill.searchTerms skill) [] |}.

(** The same for a closure that is suspended or has returned. *)
Definition finalVideos (i : nat) (t : Task) : list Video.t :=
  match phase t with
  | Returned => videos t
  | Awaiting j term rest => soloVideos i j (term :: rest) (videos t)
  end.

Definition futureRequests (i : nat) (t : Task) : list Request :=
  match phase t with
  | Returned => []
  | Awaiting j term rest =>
      if breaks (respond i j) then [] else soloRequests i (S j) rest
  end.

(** The request a suspended closure waits for. *)
Definition pending (i : nat) (t : Task) : list Request :=
  match phase t with
  | Returned => []
  | Awaiting j term rest => [request i j term]
  end.

(** The request was answered with a result. *)
Definition yieldsAt (r : Request) : bool := yields (respond (ofSkill r) (ofTerm r)).

(** The answer to the request was counted as a success, as a failure, as
    both. *)
Definition countsAt (r : Request) : bool := counts (respond (ofSkill r) (ofTerm r)).

Definition failsAt (r : Request) : bool := fails (respond (ofSkill r) (ofTerm r)).


(** The number of closures that are suspended. *)
Definition inflight (ts : list Task) : nat :=
  List.length (filter (fun t => negb (returned t)) ts).

(** The number of answers a closure can still wait for. *)
Definition work (t : Task) : nat :=
  match phase t with
  | Returned => 0
  | Awaiting _ _ rest => S (List.length rest)
  end.

Definition totalWork (ts : list Task) : nat :=
  fold_right (fun t n => work t + n) 0 ts.

(** The counters agree with the traffic: every request sent is counted
    once, the successes and the failures are the answers that count as such,
    the requests not yet answered are those of the suspended closures, and
    no error is recorded without a failure. *)
Definition Counted (m : Machine) : Prop :=
  totalSearches (shared m) = List.length (fetched (shared m))
  /\ successfulSearches (shared m)
     = List.length (filter countsAt (answered (shared m)))
  /\ failedSearches (shared m)
     = List.length (filter failsAt (answered (shared m)))
  /\ List.length (fetched (shared m))
     = List.length (answered (shared m)) + inflight (tasks m)
  /\ List.length (youtubeErrors (shared m)) <= failedSearches (shared m).

(** Closure [i] is where its skill's loop, run on its own, would be: what
    it has sent and will send are the requests of that loop, it will end
    with the videos of that loop, and its requests were answered in order,
    up to the one it waits for. *)
Definition OnTrack (skills : list Skill.t) (i : nat) (t : Task) (sh : Shared) : Prop :=
  nth_error skills i = Some (skillOf t)
  /\ ofSkillOnly i (fetched sh) ++ futureRequests i t
     = soloRequests i 0 (Skill.searchTerms (skillOf t))
  /\ finalVideos i t = soloVideos i 0 (Skill.searchTerms (skillOf t)) []
  /\ ofSkillOnly i (answered sh) ++ pending i t = ofSkillOnly i (fetched sh).

Definition Consistent (skills : list Skill.t) (m : Machine) : Prop :=
  List.length (tasks m) = List.length skills
  /\ forall i t, nth_error (tasks m) i = Some t -> OnTrack skills i t (shared m).

(** The answers to the terms of a skill from term [j] on are such that the
    two variants cannot tell each other apart: no answer carries a result
    together with an error, and no answer after a quota error carries a
    result. [stopped] says that a quota error came before term [j]. *)
Fixpoint quietFrom (i j : nat) (terms : list string) (stopped : bool) : bool :=
  match terms with
  | [] => true
  | _ :: rest =>
      negb (plainYields (respond i j) && (stopped || negb (yields (respond i j))))
      && quietFrom i (S j) rest (stopped || breaks (respond i j))
  end.

Definition quiet (skills : list Skill.t) : bool :=
  forallb (fun b => b)
          (mapFrom (fun i skill => quietFrom i 0 (Skill.searchTerms skill) false) 0 skills).

End WithCollaborator.

(** The [_debug] member of the reply. *)
Record Debug : Type :=
  { debugTotalSearches : nat;
    debugSuccessfulSearches : nat;
    debugFailedSearches : nat;
    debugErrors : option (list ErrorInfo) }.

(** [youtubeErrors.length > 0 ? youtubeErrors.slice(0, 5) : undefined] *)
Definition debugOf (sh : Shared) : Debug :=
  {| debugTotalSearches := totalSearches sh;
     debugSuccessfulSearches := successfulSearches sh;
     debugFailedSearches := failedSearches sh;
     debugErrors :=
       match youtubeErrors sh with
       | [] => None
       | _ :: _ => Some (firstn 5 (youtubeErrors sh))
       end |}.

End Enrichment.

(** ** The Trainstation export (browser script) *)

(** [currentCourse], as the browser holds it: a skill may come without
    [videos] (an imported course, or a reply without enrichment). *)
Module Course.
Record skill : Type :=
  { name : string; description : string; videos : option (list Video.t) }.
Record t : Type := { topic : string; skills : list skill }.
End Course.

Module Trainstation.

Record Entity : Type :=
  { id : string;
    type : string;
    status : string;
    labels : list string;
    children : list string;
    attributes : list (string * string) }.

Record TrainstationExport : Type :=
  { root : string;
    entities : list Entity;
    exportedAt : string;
    source : string }.

(** [entity.attributes[key]] *)
Definition attribute (key : string) (e : Entity) : option string :=
  match find (fun kv => String.eqb (fst kv) key) (attributes e) with
  | Some kv => Some (snd kv)
  | None => None
  end.

Definition template : list ascii :=
  list_ascii_of_string "xxxxxxxx-xxxx-4xxx-yxxx-xxxxxxxxxxxx".

Definition hexDigits : list ascii := list_ascii_of_string "0123456789abcdef".

(** [v.toString(16)] for [v < 16], the only values it is called with. *)
Definition toString16 (v : N) : ascii := nth (N.to_nat v) hexDigits "0"%char.

(** [video.searchTerm || skill.description] *)
Definition orElse (a b : string) : string := if String.eqb a "" then b else a.

Section WithRandom.

(** The random source: the [k]-th call of [Math.random()] in the export
    returns the double [(random k mod 2^53) / 2^53], a number in [0, 1). *)
Variable random : nat -> N.

(** [Math.random() * 16 | 0] at the [k]-th call. *)
Definition r (k : nat) : N := ((random k mod 2 ^ 53) * 16 / 2 ^ 53)%N.

(** The callback of [replace]: [c === 'x' ? r : (r & 0x3 | 0x8)]. *)
Definition v (c : ascii) (k : nat) : N :=
  if Ascii.eqb c "x"%char then r k else N.lor (N.land (r k) 3) 8.

(** [template.replace(/[xy]/g, callback)] from the [k]-th call of
    [Math.random] on: the text, and the number of calls made after it. *)
Fixpoint replaceXY (s : list ascii) (k : nat) : list ascii * nat :=
  match s with
  | [] => ([], k)
  | c :: rest =>
      if (Ascii.eqb c "x"%char || Ascii.eqb c "y"%char)%bool then
        let (out, k') := replaceXY rest (S k) in
        (toString16 (v c k) :: out, k')
      else
        let (out, k') := replaceXY rest k in
        (c :: out, k')
  end.

Definition generateUUID (k : nat) : string * nat :=
  let (out, k') := replaceXY template k in
  (string_of_list_ascii out, k').

(** The inner [forEach] over [skill.videos]: the video entities pushed, the
    ids pushed to [videoIds], and the state of the random source. *)
Fixpoint exportVideos (topic : string) (skill : Course.skill) (total : nat)
    (videoIndex : nat) (videos : list Video.t) (k : nat)
    : list Entity * list string * nat :=
  match videos with
  | [] => ([], [], k)
  | video :: rest =>
      let (videoId, k1) := generateUUID k in
      let videoEntity :=
        {| id := videoId;
           type := "video";
           status := "public";
           labels := [topic; Course.name skill];
           children := [];
           attributes :=
             [("title", Video.title video);
              ("description",
                orElse (Video.searchTerm video) (Course.description skill));
              ("url", ("https://www.youtube.com/watch?v=" ++ Video.id video)%string);
              ("level", Levels.getTrainstationLevel (num videoIndex) (num total));
              ("thumbnail", Video.thumbnail video)] |} in
      let '(videoEntities, videoIds, k2) :=
        exportVideos topic skill total (S videoIndex) rest k1 in
      (videoEntity :: videoEntities, videoId :: videoIds, k2)
  end.

(** The body of the outer [forEach]: the entities it pushes (the skill's
    videos, then its section) and the id it pushes to [sectionIds]. *)
Definition exportSkill (topic : string) (skill : Course.skill) (k : nat)
    : list Entity * string * nat :=
  let (sectionId, k1) := generateUUID k in
  let '(videoEntities, videoIds, k2) :=
    match Course.videos skill with
    | Some ((_ :: _) as videos) =>
        exportVideos topic skill (List.length videos) 0 videos k1
    | _ => ([], [], k1)
    end in
  let sectionEntity :=
    {| id := sectionId;
       type := "section";
       status := "public";
       labels := [topic];
       children := videoIds;
       attributes :=
         [("title", Course.name skill); ("description", Course.description skill)] |} in
  (videoEntities ++ [sectionEntity], sectionId, k2).

Fixpoint exportSkills (topic : string) (skills : list Course.skill) (k : nat)
    : list Entity * list string * nat :=
  match skills with
  | [] => ([], [], k)
  | skill :: rest =>
      let '(pushed, sectionId, k1) := exportSkill topic skill k in
      let '(entities, sectionIds, k2) := exportSkills topic rest k1 in
      (pushed ++ entities, sectionId :: sectionIds, k2)
  end.

(** [exportToTrainstation()]: the object that is serialised and offered for
    download; nothing when there is no current course. [now] is
    [new Date().toISOString()]. *)
Definition exportToTrainstation (currentCourse : option Course.t) (now : string)
    : option TrainstationExport :=
  match currentCourse with
  | None => None
  | Some course =>
      let (rootId, k1) := generateUUID 0 in
      let '(entities, sectionIds, _) :=
        exportSkills (Course.topic course) (Course.skills course) k1 in
      let rootEntity :=
        {| id := rootId;
           type := "root";
           status := "public";
           labels := [];
           children := sectionIds;
           attributes :=
             [("title", Course.topic course);
              ("description", ("AI-genererad kurs om " ++ Course.topic course)%string)] |} in
      Some {| root := rootId;
              entities := entities ++ [rootEntity];
              exportedAt := now;
              source := "CourseCreator" |}
  end.

(** The identifier made from the [k]-th call of [Math.random] on. *)
Definition uuid (k : nat) : string := fst (generateUUID k).

(** The hexadecimal digits [replace] draws for the placeholders of [s]. *)
Fixpoint drawn (s : list ascii) (k : nat) : list N :=
  match s with
  | [] => []
  | c :: rest =>
      if (Ascii.eqb c "x"%char || Ascii.eqb c "y"%char)%bool
      then v c k :: drawn rest (S k)
      else drawn rest k
  end.

(** The identifiers of [count] consecutive calls of [generateUUID], the
    first of them starting at the [k]-th call of [Math.random]. *)
Definition block (k count : nat) : list string :=
  map (fun n => uuid (31 * n + k)) (seq 0 count).

End WithRandom.

Arguments generateUUID random k : simpl never.

(** *** Notions used to state what the export produces *)

Definition isHex (c : ascii) : bool := existsb (Ascii.eqb c) hexDigits.

Fixpoint shapeFrom (i : nat) (s : list ascii) : bool :=
  match s with
  | [] => true
  | c :: rest =>
      (if existsb (Nat.eqb i) [8; 13; 18; 23] then Ascii.eqb c "-"%char
       else if Nat.eqb i 14 then Ascii.eqb c "4"%char
       else isHex c)
      && shapeFrom (S i) rest
  end.

(** The standard textual shape: 36 characters, hyphens closing groups of
    8, 4, 4 and 4 characters, the digit 4 at the head of the third group,
    hexadecimal digits everywhere else. *)
Definition uuidShape (id : string) : bool :=
  (String.length id =? 36)%nat && shapeFrom 0 (list_ascii_of_string id).

(** The number of videos of a skill; a skill without [videos] has none. *)
Definition videoCount (skill : Course.skill) : nat :=
  match Course.videos skill with
  | Some videos => List.length videos
  | None => 0
  end.

Definition totalVideos (skills : list Course.skill) : nat :=
  fold_right (fun skill n => videoCount skill + n) 0 skills.

Definition isSection (e : Entity) : bool := String.eqb (type e) "section".

Definition isVideoEntity (e : Entity) : Prop := type e = "video" /\ children e = [].

Definition sections (es : list Entity) : list Entity := filter isSection es.

End Trainstation.

(** ** Import validation (browser script) *)

Module Importer.

(** The guard of [handleImport]:
    [!course.topic || !course.skills || !Array.isArray(course.skills)]
    throws, and so does reading [topic] of [null]; the [catch] reports
    both and nothing is stored. *)
Definition accepts (course : JValue) : bool :=
  match prop course "topic" with
  | TypeError => false
  | topic =>
      truthyAccess topic && truthyAccess (prop course "skills")
      && isArray (prop course "skills")
  end.

(** What the [catch] of [handleImport] catches; it reports the message of
    the error. *)
Inductive ImportError : Type :=
| NotJSON                   (* the SyntaxError of [JSON.parse] *)
| TopicOfNull               (* the TypeError of reading [topic] of [null] *)
| InvalidCourseStructure.   (* [new Error('Ogiltig kursstruktur')] *)

(** [error.message] where the script sets it; the messages of the other
    errors are the engine's. *)
Definition message (error : ImportError) : option string :=
  match error with
  | InvalidCourseStructure => Some "Ogiltig kursstruktur"
  | _ => None
  end.

Inductive Outcome : Type :=
| Imported (course : JValue)
| Failed (error : ImportError).

(** [handleImport], from the text of the file to the decision. *)
Definition handleImport (JSON_parse : string -> option JValue) (text : string) : Outcome :=
  match JSON_parse text with
  | None => Failed NotJSON
  | Some course =>
      match prop course "topic" with
      | TypeError => Failed TopicOfNull
      | topic =>
          if truthyAccess topic && truthyAccess (prop course "skills")
             && isArray (prop course "skills")
          then Imported course
          else Failed InvalidCourseStructure
      end
  end.

End Importer.

(** ** The [courses] table (server, [/api/courses]) *)

Module Store.

Record Row : Type :=
  { id : Z; topic : string; data : JValue; created_at : Z; updated_at : Z }.

(** The table and the sequence behind its [SERIAL] key. *)
Record Db : Type := { rows : list Row; nextId : Z }.

Definition empty : Db := {| rows := []; nextId := 1 |}.

Inductive SaveReply : Type :=
| UseLocalStorage            (* [{ success: true, useLocalStorage: true }] *)
| CourseDataRequired         (* status 400 *)
| Saved (id : Z)             (* [{ success: true, id, useLocalStorage: false }] *)
| FailedToSave.              (* status 500, from the [catch] *)

(** What [GET /api/courses] makes of a row: [{ id: row.id, ...row.data,
    savedAt: row.updated_at }], kept as its three parts. *)
Record Listed : Type := { listedId : Z; listedData : JValue; savedAt : Z }.

Inductive ListReply : Type :=
| Courses (courses : list Listed) (useLocalStorage : bool).

(** [ORDER BY updated_at DESC] *)
Fixpoint insertDesc (x : Row) (sorted : list Row) : list Row :=
  match sorted with
  | [] => [x]
  | y :: rest =>
      if (updated_at y <=? updated_at x)%Z then x :: sorted
      else y :: insertDesc x rest
  end.

Definition orderByUpdatedDesc (l : list Row) : list Row :=
  fold_right insertDesc [] l.

(** The database and its driver, where the repository relies on them. *)
Record Postgres : Type :=
  { (** how the driver writes a query parameter that is not a string *)
    pgText : JValue -> string;
    (** how the database reads the text of an [id] parameter as a value of
        the [id] column; nothing when it rejects the text *)
    pgInt : string -> option Z;
    (** whether the database refuses a statement that carries this topic
        text and this payload for a reason of its own (a text it cannot
        store, such as one with a NUL character) *)
    pgRefuses : string -> JValue -> bool;
    (** what reading the [data] column gives for a JSON text that was
        stored in it (the column is JSONB, which keeps the members of an
        object in an order of its own) *)
    jsonb : JValue -> JValue;
    (** whether the sequence of the ids has moved on when an [INSERT] is
        refused *)
    pgSkips : string -> JValue -> bool }.

(** A byte that continues a character in UTF-8. *)
Definition isContinuation (c : ascii) : bool :=
  (128 <=? nat_of_ascii c)%nat && (nat_of_ascii c <? 192)%nat.


(** The first [n] characters of a text, and what follows them. *)
Fixpoint splitCharacters (n : nat) (s : list ascii) : list ascii * list ascii :=
  match s with
  | [] => ([], [])
  | c :: rest =>
      if isContinuation c then
        let (kept, excess) := splitCharacters n rest in (c :: kept, excess)
      else
        match n with
        | 0 => ([], s)
        | S n' => let (kept, excess) := splitCharacters n' rest in (c :: kept, excess)
        end
  end.

(** What the column [topic VARCHAR(255)] holds when a text is assigned to
    it: the text when it has at most 255 characters; its first 255
    characters when the characters beyond are all spaces; and the assignment
    is an error otherwise. *)
Definition columnText (key : string) : option string :=
  let (kept, excess) := splitCharacters 255 (list_ascii_of_string key) in
  if forallb (Ascii.eqb " "%char) excess then Some (string_of_list_ascii kept)
  else None.

(** [UPDATE courses SET data = $1, updated_at = CURRENT_TIMESTAMP WHERE topic = $2] *)
Definition updateWhereTopic (key : string) (payload : JValue) (now : Z) (l : list Row)
    : list Row :=
  map (fun row =>
         if String.eqb (topic row) key then
           {| id := id row; topic := topic row; data := payload;
              created_at := created_at row; updated_at := now |}
         else row) l.

(** [SELECT id FROM courses WHERE topic = $1], and the [RETURNING id] of
    the [UPDATE]. *)
Definition selectIdWhereTopic (key : string) (l : list Row) : list Z :=
  map id (filter (fun row => String.eqb (topic row) key) l).

(** The guard of [POST /api/courses]: the course and its topic when
    [!course || !course.topic] does not hold. *)
Definition guard (body : JValue) : option (JValue * JValue) :=
  match prop body "course" with
  | Value course =>
      if truthy course then
        match prop course "topic" with
        | Value topicValue => if truthy topicValue then Some (course, topicValue) else None
        | _ => None
        end
      else None
  | _ => None
  end.

(** Whether [POST /api/courses] goes on to the table. *)
Definition accepts (body : JValue) : bool :=
  match guard body with
  | Some _ => true
  | None => false
  end.

Section WithDatabase.

Variable pg : Postgres.

Definition parameter (v : JValue) : string :=
  match v with
  | JString s => s
  | _ => pgText pg v
  end.

(** What the [data] column gives for [JSON.stringify(course)]. *)
Definition stored (course : JValue) : JValue := jsonb pg (throughJSON course).

(** The table after an [INSERT] that was refused: no row is added. *)
Definition refusedInsert (key : string) (course : JValue) (db : Db) : Db :=
  {| rows := rows db;
     nextId := if pgSkips pg key course then (nextId db + 1)%Z else nextId db |}.

(** The second statement of the [try] block, on the table as it is when
    the statement is run; [existing] is what the [SELECT] returned and [now]
    the value of [CURRENT_TIMESTAMP]. With [existing.rows.length > 0] it is
    the [UPDATE], whose reply reads [result.rows[0].id] (a TypeError when no
    row was updated); otherwise it is the [INSERT]. An error is caught and
    answered with status 500. *)
Definition write (now : Z) (course : JValue) (key : string) (existing : list Z)
    (db : Db) : SaveReply * Db :=
  match existing with
  | _ :: _ =>
      if pgRefuses pg key course then (FailedToSave, db)
      else
        match selectIdWhereTopic key (rows db) with
        | updated :: _ =>
            (Saved updated,
             {| rows := updateWhereTopic key (stored course) now (rows db);
                nextId := nextId db |})
        | [] => (FailedToSave, db)
        end
  | [] =>
      match (if pgRefuses pg key course then None else columnText key) with
      | Some text =>
          (Saved (nextId db),
           {| rows := rows db ++
                      [{| id := nextId db; topic := text; data := stored course;
                          created_at := now; updated_at := now |}];
              nextId := (nextId db + 1)%Z |})
      | None => (FailedToSave, refusedInsert key course db)
      end
  end.

(** The [try] block of [POST /api/courses] for an accepted course whose
    topic is [topicValue], when no other request touches the table between
    its two statements. *)
Definition upsert (now : Z) (course topicValue : JValue) (db : Db) : SaveReply * Db :=
  let key := parameter topicValue in
  write now course key (selectIdWhereTopic key (rows db)) db.

(** [POST /api/courses] served without another request in between;
    [available] is the result of [isDatabaseAvailable()] and [now] the value
    of [CURRENT_TIMESTAMP]. *)
Definition postCourses (available : bool) (now : Z) (body : JValue) (db : Db)
    : SaveReply * Db :=
  if negb available then (UseLocalStorage, db)
  else
    match guard body with
    | Some (course, topicValue) => upsert now course topicValue db
    | None => (CourseDataRequired, db)
    end.

(** A [POST /api/courses] request as the handler sees it. *)
Record Post : Type := { available : bool; now : Z; body : JValue }.

(** The table after a sequence of [POST /api/courses] requests, served one
    after the other. *)
Definition serve (db : Db) (requests : list Post) : Db :=
  fold_left (fun db r => snd (postCourses (available r) (now r) (body r) db))
            requests db.


(** The write of a save goes through: the database does not refuse it, and
    the topic is in the table or fits the column. *)
Definition storable (key : string) (course : JValue) (db : Db) : bool :=
  negb (pgRefuses pg key course)
  && (existsb (String.eqb key) (map topic (rows db))
      || match columnText key with
         | Some _ => true
         | None => false
         end).

End WithDatabase.

Definition listed (reply : ListReply) : list Listed :=
  match reply with
  | Courses courses _ => courses
  end.

(** [GET /api/courses] *)
Definition getCourses (available : bool) (db : Db) : ListReply :=
  if negb available then Courses [] true
  else
    Courses
      (map (fun row =>
              {| listedId := id row; listedData := data row; savedAt := updated_at row |})
           (orderByUpdatedDesc (rows db)))
      false.

End Store.

(** ** The minimal shape of the specification *)

Module Shape.

(** The shape the specification asks of imported or saved course data:
    [{topic: non-empty string, skills: sequence}]. *)
Definition minimalShape (course : JValue) : bool :=
  match prop course "topic", prop course "skills" with
  | Value (JString topic), Value (JArray _) => negb (String.eqb topic "")
  | _, _ => false
  end.

End Shape.

(** ** Sample data *)

Module Samples.

(** The double quote character, as a string. *)
Definition q : string := String (ascii_of_nat 34) EmptyString.

(** A completion with prose around the object. *)
Definition sureThanks : string :=
  ("Sure! {" ++ q ++ "topic" ++ q ++ ":" ++ q ++ "x" ++ q ++ ","
   ++ q ++ "skills" ++ q ++ ":[]} thanks")%string.

Definition sureThanksObject : string :=
  ("{" ++ q ++ "topic" ++ q ++ ":" ++ q ++ "x" ++ q ++ ","
   ++ q ++ "skills" ++ q ++ ":[]}")%string.

(** A completion that holds two objects. *)
Definition twoObjects : string := "one {a} and two {b} done".

(** [{topic: "", skills: []}] *)
Definition emptyTopic : JValue :=
  JObject [("topic", JString ""); ("skills", JArray [])].

(** [{skills: []}] *)
Definition missingTopic : JValue := JObject [("skills", JArray [])].

(** [{topic: "X", skills: [{name: "A"}]}] *)
Definition courseX : JValue :=
  JObject [("topic", JString "X");
           ("skills", JArray [JObject [("name", JString "A")]])].

(** [{topic: 5, skills: []}] *)
Definition numericTopic : JValue :=
  JObject [("topic", JNumber 5); ("skills", JArray [])].

(** [{topic: "X"}] *)
Definition noSkills : JValue := JObject [("topic", JString "X")].

(** A course of one skill with one video. *)
Definition oneVideo : Course.t :=
  {| Course.topic := "T";
     Course.skills :=
       [{| Course.name := "A"; Course.description := "first";
           Course.videos :=
             Some [{| Video.id := "v1"; Video.title := "one"; Video.thumbnail := "t1";
                      Video.channelTitle := "c"; Video.searchTerm := "s" |}] |}] |}.

Definition video (n : string) : Video.t :=
  {| Video.id := n; Video.title := n; Video.thumbnail := n;
     Video.channelTitle := n; Video.searchTerm := n |}.

(** A course of two skills: A with three videos, B with none. *)
Definition threeAndNone : Course.t :=
  {| Course.topic := "T";
     Course.skills :=
       [{| Course.name := "A"; Course.description := "first";
           Course.videos := Some [video "a1"; video "a2"; video "a3"] |};
        {| Course.name := "B"; Course.description := "second";
           Course.videos := Some [] |}] |}.

(** The identifier a random source that always returns 0 produces. *)
Definition zeros : string := "00000000-0000-4000-8000-000000000000".

(** A random source that always returns 0. *)
Definition stuck : nat -> N := fun _ => 0%N.

(** A random source whose [k]-th call returns [(k mod 16) / 16], so that
    the hexadecimal digits drawn count up: 0, 1, 2, ... *)
Definition counting : nat -> N := fun k => (N.of_nat k * 2 ^ 49)%N.

(** Answers of the search collaborator. *)
Definition found : Youtube.FetchResult :=
  Youtube.Resolved
    {| Youtube.error := None;
       Youtube.items :=
         Some [Youtube.Complete
                 {| Youtube.videoId := "id"; Youtube.title := "title";
                    Youtube.mediumThumbnailUrl := "thumb";
                    Youtube.channelTitle := "channel" |}] |}.




Definition noResult : Youtube.FetchResult :=
  Youtube.Resolved {| Youtube.error := None; Youtube.items := Some [] |}.

Definition quotaError : Youtube.FetchResult :=
  Youtube.Resolved
    {| Youtube.error :=
         Some {| Youtube.code := 403; Youtube.message := "quota";
                 Youtube.errors := [Some "quotaExceeded"] |};
       Youtube.items := None |}.

Definition unreachable : Youtube.FetchResult := Youtube.Rejected "fetch failed".

Definition skillA : Skill.t :=
  {| Skill.name := "A"; Skill.description := "first";
     Skill.searchTerms := ["t1"; "t2"; "t3"] |}.

Definition skillB : Skill.t :=
  {| Skill.name := "B"; Skill.description := "second";
     Skill.searchTerms := ["u1"; "u2"] |}.

(** The second term of the first skill meets the quota error; every other
    request finds a video. *)
Definition quotaOnSecond (i j : nat) : Youtube.FetchResult :=
  match i, j with
  | 0, 1 => quotaError
  | _, _ => found
  end.

(** From its second term on the first skill meets the quota error; the
    second skill finds a video, then nothing, then the network fails. *)
Definition quotaFromSecond (i j : nat) : Youtube.FetchResult :=
  match i, j with
  | 0, 0 => found
  | 0, _ => quotaError
  | _, 0 => found
  | _, 1 => noResult
  | _, _ => unreachable
  end.

(** An order in which the answers for the two skills may arrive. *)
Definition interleaved : list nat := [1; 0; 0; 1].

(** The body of a [POST /api/courses] request for [course]. *)
Definition saveBody (course : JValue) : JValue := JObject [("course", course)].

(** [{topic: "X", skills: [{name: "B"}, {name: "C"}]}] *)
Definition courseX' : JValue :=
  JObject [("topic", JString "X");
           ("skills", JArray [JObject [("name", JString "B")];
                              JObject [("name", JString "C")]])].

(** [{topic: "Y", skills: []}] *)
Definition courseY : JValue :=
  JObject [("topic", JString "Y"); ("skills", JArray [])].

(** Saving [course] at time [t] with the database available. *)
Definition save (t : Z) (course : JValue) : Store.Post :=
  {| Store.available := true; Store.now := t; Store.body := saveBody course |}.

End Samples.

(** ** Deleting a course, and a session of requests (server, [/api/courses]) *)

Module Courses.

Import Store.

Inductive DeleteReply : Type :=
| DeleteLocally              (* [{ success: true, useLocalStorage: true }] *)
| Deleted                    (* [{ success: true }] *)
| DeleteFailed.              (* status 500 *)

(** [DELETE FROM courses WHERE id = $1] *)
Definition deleteWhereId (n : Z) (l : list Row) : list Row :=
  filter (fun row => negb (id row =? n)%Z) l.

Section WithDatabase.

Variable pg : Postgres.

(** [DELETE /api/courses/:id]; [idParam] is [req.params.id]. When the
    database rejects the text of the id the query fails. *)
Definition deleteCourses (available : bool) (idParam : string) (db : Db)
    : DeleteReply * Db :=
  if negb available then (DeleteLocally, db)
  else
    match pgInt pg idParam with
    | Some n => (Deleted, {| rows := deleteWhereId n (rows db); nextId := nextId db |})
    | None => (DeleteFailed, db)
    end.

(** A request to [/api/courses] that may change the table. *)
Inductive Request : Type :=
| PostCourses (available : bool) (now : Z) (body : JValue)
| DeleteCourses (available : bool) (idParam : string).

Definition handle (db : Db) (request : Request) : Db :=
  match request with
  | PostCourses available now body => snd (postCourses pg available now body db)
  | DeleteCourses available idParam => snd (deleteCourses available idParam db)
  end.

(** The table after a sequence of requests, served one after the other. *)
Definition session (db : Db) (requests : list Request) : Db :=
  fold_left handle requests db.

(** *** Requests that overlap *)

(** The handlers are [async]: between the [SELECT] of a save and the
    statement that follows it the server may serve other requests. A request
    has not touched the table yet, or it is a save whose [SELECT] has
    returned [existing], or it is done. *)
Inductive Stage : Type :=
| Waiting (request : Request)
| Selected (now : Z) (course : JValue) (key : string) (existing : list Z)
| Done.

(** The next statement of a request, on the table as it is by then. *)
Definition advance (stage : Stage) (db : Db) : Stage * Db :=
  match stage with
  | Waiting (PostCourses available now body) =>
      if negb available then (Done, db)
      else
        match guard body with
        | Some (course, topicValue) =>
            (Selected now course (parameter pg topicValue)
               (selectIdWhereTopic (parameter pg topicValue) (rows db)),
             db)
        | None => (Done, db)
        end
  | Waiting (DeleteCourses available idParam) =>
      (Done, snd (deleteCourses available idParam db))
  | Selected now course key existing => (Done, snd (write pg now course key existing db))
  | Done => (Done, db)
  end.

(** The requests in progress and the table. *)
Record Server : Type := { stages : list Stage; database : Db }.

Definition arrive (db : Db) (requests : list Request) : Server :=
  {| stages := map Waiting requests; database := db |}.

(** The database runs the next statement of request [i]. *)
Definition tick (i : nat) (s : Server) : Server :=
  match nth_error (stages s) i with
  | Some stage =>
      let (stage', db') := advance stage (database s) in
      {| stages := Enrichment.update i stage' (stages s); database := db' |}
  | None => s
  end.

(** The statements are run in the order [schedule] names their requests. *)
Definition interleave (schedule : list nat) (s : Server) : Server :=
  fold_left (fun s i => tick i s) schedule s.



End WithDatabase.

(** *** Notions used to state what the requests keep *)

(** Each row has its own id, below the next value of the sequence. *)
Definition Numbered (db : Db) : Prop :=
  NoDup (map id (rows db))
  /\ (forall row, In row (rows db) -> (id row < nextId db)%Z).

(** Each row has its own id, below the next value of the sequence, and its
    own topic. *)
Definition WellKeyed (db : Db) : Prop :=
  NoDup (map id (rows db))
  /\ (forall row, In row (rows db) -> (id row < nextId db)%Z)
  /\ NoDup (map topic (rows db)).

(** Most recently updated first. *)
Definition newerRowFirst (a b : Row) : Prop := (updated_at b <= updated_at a)%Z.

Definition newerFirst (a b : Listed) : Prop := (savedAt b <= savedAt a)%Z.

End Courses.

(** ** Saved courses in the browser (browser script) *)

Module Client.

Import Store Courses.

(** [{ ...course, savedAt: now }] and [course.savedAt = now], on the members
    of an object: the member keeps its place when the course has one, and
    comes last otherwise. *)
Fixpoint setMember (key : string) (v : JValue) (properties : list (string * JValue))
    : list (string * JValue) :=
  match properties with
  | [] => [(key, v)]
  | (k, x) :: rest =>
      if String.eqb k key then (k, v) :: rest else (k, x) :: setMember key v rest
  end.

(** [course.savedAt = now] *)
Definition withSavedAt (now : string) (course : JValue) : JValue :=
  match course with
  | JObject properties => JObject (setMember "savedAt" (JString now) properties)
  | other => other
  end.

(** [a === b] for two values held in different objects: two arrays or two
    objects are then never the same object. *)
Definition strictEquals (a b : Access) : bool :=
  match a, b with
  | Undefined, Undefined => true
  | Value JNull, Value JNull => true
  | Value (JBool x), Value (JBool y) => Bool.eqb x y
  | Value (JNumber x), Value (JNumber y) => PrimFloat.eqb x y
  | Value (JString x), Value (JString y) => String.eqb x y
  | _, _ => false
  end.

(** What [courses.findIndex(c => c.topic === topic)] comes to: an index,
    -1, or the TypeError of reading [topic] of [null]. *)
Inductive Index : Type :=
| Throws
| Found (i : nat)
| NotFound.

Fixpoint findIndexFrom (i : nat) (topic : Access) (courses : list JValue) : Index :=
  match courses with
  | [] => NotFound
  | c :: rest =>
      match prop c "topic" with
      | TypeError => Throws
      | t => if strictEquals t topic then Found i else findIndexFrom (S i) topic rest
      end
  end.

Definition findIndex (topic : Access) (courses : list JValue) : Index :=
  findIndexFrom 0 topic courses.

(** [courses.splice(index, 1)] *)
Fixpoint splice1 (index : nat) (courses : list JValue) : list JValue :=
  match courses, index with
  | [], _ => []
  | _ :: rest, 0 => rest
  | c :: rest, S index' => c :: splice1 index' rest
  end.

(** The browser and the server it talks to: the variable [useLocalStorage],
    the array that [getLocalCourses()] reads from [localStorage], and the
    server's table. *)
Record World : Type :=
  { useLocalStorage : bool;
    savedCourses : list JValue;
    table : Db }.

(** [setLocalCourses(courses)]: the array is written as JSON text, so that
    what [getLocalCourses()] reads afterwards is the array gone through
    JSON. *)
Definition setLocalCourses (courses : list JValue) (w : World) : World :=
  {| useLocalStorage := useLocalStorage w;
     savedCourses := map throughJSON courses;
     table := table w |}.

Definition setTable (db : Db) (w : World) : World :=
  {| useLocalStorage := useLocalStorage w; savedCourses := savedCourses w; table := db |}.

Definition setUseLocalStorage (b : bool) (w : World) : World :=
  {| useLocalStorage := b; savedCourses := savedCourses w; table := table w |}.

(** The body of the request [JSON.stringify({ course })] as the server
    reads it. *)
Definition courseRequest (course : JValue) : JValue :=
  JObject [("course", throughJSON course)].

(** The message boxes of [saveCourse] and [handleImport]. *)
Inductive Alert : Type :=
| SavedLocally                        (* Kursen ... har sparats lokalt! *)
| SavedInDatabase                     (* Kursen ... har sparats i databasen! *)
| CouldNotSave                        (* Kunde inte spara kursen *)
| CourseImported                      (* Kursen ... har importerats! *)
| CouldNotImport (error : Importer.ImportError).
                                      (* Kunde inte importera filen: ... *)

(** The [localStorage] branch of [saveCourse]; [confirm] is the user's
    answer in case the topic is found, [now] is [new Date().toISOString()]. *)
Definition saveLocally (confirm : bool) (now : string)
    (currentCourse : list (string * JValue)) (w : World) : World * option Alert :=
  let saved := JObject (setMember "savedAt" (JString now) currentCourse) in
  match findIndex (prop (JObject currentCourse) "topic") (savedCourses w) with
  | Throws => (w, Some CouldNotSave)
  | Found existingIndex =>
      if confirm
      then (setLocalCourses (Enrichment.update existingIndex saved (savedCourses w)) w,
            Some SavedLocally)
      else (w, None)
  | NotFound => (setLocalCourses (savedCourses w ++ [saved]) w, Some SavedLocally)
  end.


Section WithServer.

Variable pg : Postgres.

(** [saveCourse()]. [currentCourse] is [null] or an object (the reply of
    the server to a generation, or a course of the list); [available] and
    [serverNow] are the state of the database and its clock when the request
    is served. The reply is only looked at for [useLocalStorage]; the
    refresh of the list that follows the message box is [loadSavedCourses],
    below. *)
Definition saveCourse (confirm : bool) (now : string) (available : bool) (serverNow : Z)
    (currentCourse : option (list (string * JValue))) (w : World)
    : World * option Alert :=
  match currentCourse with
  | None => (w, None)
  | Some course =>
      if useLocalStorage w then saveLocally confirm now course w
      else
        match postCourses pg available serverNow (courseRequest (JObject course))
                (table w) with
        | (UseLocalStorage, _) =>
            saveLocally confirm now course (setUseLocalStorage true w)
        | (_, db') => (setTable db' w, Some SavedInDatabase)
        end
  end.

(** The [onload] handler of [handleImport], from the text of the file to
    the message box. The reply of the server is not looked at; the refresh
    of the list that follows the request is [loadSavedCourses], below. *)
Definition handleImport (JSON_parse : string -> option JValue) (text now : string)
    (available : bool) (serverNow : Z) (w : World) : World * Alert :=
  match Importer.handleImport JSON_parse text with
  | Importer.Failed error => (w, CouldNotImport error)
  | Importer.Imported course =>
      let course' := withSavedAt now course in
      if useLocalStorage w
      then (setLocalCourses (savedCourses w ++ [course']) w, CourseImported)
      else
        (setTable (snd (postCourses pg available serverNow (courseRequest course')
                          (table w))) w,
         CourseImported)
  end.


(** [deleteCourse(id, index)] up to the refresh of the list; [confirm] is
    the user's answer. The reply of the server is not looked at. *)
Definition deleteCourse (confirm : bool) (id : string) (index : nat) (available : bool)
    (w : World) : World :=
  if negb confirm then w
  else if useLocalStorage w
  then setLocalCourses (splice1 index (savedCourses w)) w
  else setTable (snd (deleteCourses pg available id (table w))) w.

End WithServer.

(** The array in [localStorage] is one that [setLocalCourses] wrote: reading
    it and writing it back leaves it as it is. *)
Definition Written (w : World) : Prop :=
  map throughJSON (savedCourses w) = savedCourses w.

(** The number an id of the table is in the browser. *)
Definition idNumber (n : Z) : float := PrimFloat.of_uint63 (Uint63.of_Z n).

(** [course.id] for a course [{ id: row.id, ...row.data, savedAt }] of the
    list of the server: the spread comes after [id], so that a member [id]
    of the stored payload takes the place of the row's. *)
Definition idMember (l : Listed) : JValue :=
  match prop (listedData l) "id" with
  | Value v => v
  | _ => JNumber (idNumber (listedId l))
  end.

Section WithText.

(** The text that reaches [req.params.id] for a [courseId] that is written
    into the card with [`deleteCourse('${courseId}', ${index})`]. *)
Variable idText : JValue -> string.

(** The first argument of [deleteCourse] on the card that
    [displaySavedCourses] makes for course [l] at position [index]:
    [course.id || index]. *)
Definition cardId (l : Listed) (index : nat) : string :=
  idText (if truthy (idMember l) then idMember l else JNumber (num index)).

End WithText.

(** [skillCount] and [videoCount] on a card of [displaySavedCourses]. *)
Definition skillCount (course : Course.t) : nat := List.length (Course.skills course).

Definition videoCount (course : Course.t) : nat :=
  fold_left (fun sum skill =>
               sum + match Course.videos skill with
                     | Some videos => List.length videos
                     | None => 0
                     end)
            (Course.skills course) 0.

End Client.

(** ** Further notions for the enrichment *)

(** [l] is [l'] with some of its elements left out. *)
Inductive Subsequence {A : Type} : list A -> list A -> Prop :=
| Subsequence_nil : Subsequence [] []
| Subsequence_skip (x : A) (l l' : list A) : Subsequence l l' -> Subsequence l (x :: l')
| Subsequence_keep (x : A) (l l' : list A) :
    Subsequence l l' -> Subsequence (x :: l) (x :: l').

Module Diagnostics.

Import Youtube Enrichment.

(** The entry that the answer [r] to a search for [term] adds to
    [youtubeErrors] in the variant with diagnostics, if any. *)
Definition errorOf (term : string) (r : FetchResult) : list ErrorInfo :=
  match r with
  | Rejected msg => [fetchError term msg]
  | Resolved data =>
      match error data with
      | Some e => [errorInfo term e]
      | None =>
          match items data with
          | Some (Unreadable msg :: _) => [fetchError term msg]
          | Some (Untitled _ msg :: _) => [fetchError term msg]
          | _ => []
          end
      end
  end.

(** The term a request was made for. *)
Definition termAt (skills : list Skill.t) (r : Request) : string :=
  match nth_error skills (ofSkill r) with
  | Some skill => nth (ofTerm r) (Skill.searchTerms skill) ""
  | None => ""
  end.

(** The number of videos the closures hold. *)
Definition collected (ts : list Task) : nat :=
  fold_right (fun t n => List.length (videos t) + n) 0 ts.

(** The number of videos of a reply. *)
Definition videosOf (reply : list EnrichedSkill.t) : nat :=
  fold_right (fun e n => List.length (EnrichedSkill.videos e) + n) 0 reply.

(** A suspended closure waits for the term at the position it records, and
    the terms it keeps are those that follow. *)
Definition Positioned (t : Task) : Prop :=
  match phase t with
  | Returned => True
  | Awaiting j term rest => skipn j (Skill.searchTerms (skillOf t)) = term :: rest
  end.

(** Every request of the logs is a request of one of the closures. *)
Definition Bounded (m : Machine) : Prop :=
  (forall r, In r (fetched (shared m)) -> ofSkill r < List.length (tasks m))
  /\ (forall r, In r (answered (shared m)) -> ofSkill r < List.length (tasks m)).

Section WithCollaborator.

Variable respond : nat -> nat -> FetchResult.

(** The entry that the answer to request [r] adds to [youtubeErrors]. *)
Definition errorAt (skills : list Skill.t) (r : Request) : list ErrorInfo :=
  errorOf (termAt skills r) (respond (ofSkill r) (ofTerm r)).

(** The answer to request [r] was counted as a success and pushed no
    video: it carries no error and its first entry could not be read. *)
Definition lostAt (r : Request) : bool :=
  counts (respond (ofSkill r) (ofTerm r)) && negb (yields (respond (ofSkill r) (ofTerm r))).

(** The closures and the logs fit the skills: each closure waits where it
    says and belongs to the skill of its position, the errors recorded are
    those of the answers received, in their order, every success has pushed
    one video unless its entry could not be read, and the logs name closures
    that exist. *)
Definition Tracked (skills : list Skill.t) (m : Machine) : Prop :=
  (forall i t, nth_error (tasks m) i = Some t ->
               Positioned t /\ nth_error skills i = Some (skillOf t))
  /\ youtubeErrors (shared m) = flat_map (errorAt skills) (answered (shared m))
  /\ successfulSearches (shared m)
     = collected (tasks m) + List.length (filter lostAt (answered (shared m)))
  /\ Bounded m.

End WithCollaborator.

End Diagnostics.

(** ** The warning after a generation (browser script) *)

Module Warning.

Import Enrichment.





End Warning.

(** ** Further notions for the export *)

Module Graph.

Import Trainstation.

Definition isVideo (e : Entity) : bool := String.eqb (type e) "video".

(** The videos of a skill; a skill without [videos] has none. *)
Definition videosOf (skill : Course.skill) : list Video.t :=
  match Course.videos skill with
  | Some videos => videos
  | None => []
  end.

(** [`https://www.youtube.com/watch?v=${video.id}`] *)
Definition watchUrl (video : Video.t) : string :=
  ("https://www.youtube.com/watch?v=" ++ Video.id video)%string.

(** What an entity says of its video: title, address, thumbnail,
    description and labels. *)
Definition shown (e : Entity)
    : option string * option string * option string * option string * list string :=
  (attribute "title" e, attribute "url" e, attribute "thumbnail" e,
   attribute "description" e, labels e).

(** The same, from the video and its skill. *)
Definition expected (topic : string) (skill : Course.skill) (video : Video.t)
    : option string * option string * option string * option string * list string :=
  (Some (Video.title video), Some (watchUrl video), Some (Video.thumbnail video),
   Some (orElse (Video.searchTerm video) (Course.description skill)),
   [topic; Course.name skill]).

Definition expectedOfSkills (topic : string) (skills : list Course.skill)
    : list (option string * option string * option string * option string * list string) :=
  flat_map (fun skill => map (expected topic skill) (videosOf skill)) skills.

End Graph.

(** ** Names of the downloaded files (browser script) *)

Module FileName.

(** A text is taken here as the sequence of its UTF-16 code units, which is
    what the regular expression sees. *)
Definition text : Type := list N.

Definition codeUnits (s : string) : text := map N_of_ascii (list_ascii_of_string s).

(** The code units that [\s] matches: the white space and line terminator
    characters. *)
Definition isWhiteSpace (c : N) : bool :=
  ((9 <=? c) && (c <=? 13)                 (* tab, line feed, vertical tab, form feed, return *)
   || (c =? 32)                            (* space *)
   || (c =? 160)                           (* no-break space *)
   || (c =? 5760)                          (* U+1680 *)
   || ((8192 <=? c) && (c <=? 8202))       (* U+2000 to U+200A *)
   || (c =? 8232) || (c =? 8233)           (* line and paragraph separators *)
   || (c =? 8239) || (c =? 8287)           (* U+202F, U+205F *)
   || (c =? 12288)                         (* U+3000 *)
   || (c =? 65279))%N.                     (* U+FEFF *)

(** The low line. *)
Definition lowLine : N := 95.

(** [s.replace(/\s+/g, '_')]: every maximal run of white space becomes one
    low line. [inRun] says that the code unit before was white space. *)
Fixpoint replaceFrom (inRun : bool) (s : text) : text :=
  match s with
  | [] => []
  | c :: rest =>
      if isWhiteSpace c
      then (if inRun then replaceFrom true rest else lowLine :: replaceFrom true rest)
      else c :: replaceFrom false rest
  end.

Definition replaceWhiteSpace (s : text) : text := replaceFrom false s.

(** [`${currentCourse.topic.replace(/\s+/g, '_')}_course.json`], the name
    [exportToJson] gives the file. *)
Definition courseFileName (topic : text) : text :=
  replaceWhiteSpace topic ++ codeUnits "_course.json".

(** [`${currentCourse.topic.replace(/\s+/g, '_')}_trainstation.json`], the
    name [exportToTrainstation] gives the file. *)
Definition trainstationFileName (topic : text) : text :=
  replaceWhiteSpace topic ++ codeUnits "_trainstation.json".

End FileName.

(** ** The progression of the difficulty labels *)

Module Bands.

(** The place of a label in the progression from beginner to advanced. *)
Definition rank (label : string) : nat :=
  if String.eqb label "beginner" then 0
  else if String.eqb label "intermediate" then 1
  else 2.

End Bands.

(** ** The reply to a generation (server, [POST /api/generate-full-course]) *)

Module FullCourse.

(** A member [key: a] of an object literal as [JSON.stringify] writes it:
    a member whose value is [undefined] is left out. *)
Definition member (key : string) (a : Access) : list (string * JValue) :=
  match a with
  | Value v => [(key, v)]
  | _ => []
  end.

(** The members of the object that [res.json] sends once [Promise.all] has
    resolved, as the browser reads them from the JSON text of the reply:
    [{ topic: courseStructure.topic, skills: skillsWithVideos, generatedAt,
    _debug }]. [skillsWithVideos] is the array of the enriched skills;
    [debug] is the [_debug] member of the variant with diagnostics, absent
    in the plain variant. *)
Definition reply (courseStructure : JValue) (skillsWithVideos : list JValue)
    (generatedAt : string) (debug : option JValue) : list (string * JValue) :=
  map (fun kv => match kv with (k, x) => (k, throughJSON x) end)
      (member "topic" (prop courseStructure "topic")
       ++ [("skills", JArray skillsWithVideos); ("generatedAt", JString generatedAt)]
       ++ match debug with
          | Some d => [("_debug", d)]
          | None => []
          end).

End FullCourse.

(** ** Scenarios *)

Module Scenarios.

Import Samples.

(** A database that reads decimal numerals, refuses nothing of its own,
    returns a payload with its members in the order of the text, and moves
    its sequence on when it refuses a row; its driver writes every
    parameter that is not a string as the empty text. *)
Definition readId (s : string) : option Z :=
  option_map Z.of_int (NilZero.int_of_string s).

Definition plain : Store.Postgres :=
  {| Store.pgText := fun _ => "";
     Store.pgInt := readId;
     Store.pgRefuses := fun _ _ => false;
     Store.jsonb := fun v => v;
     Store.pgSkips := fun _ _ => true |}.

(** The text of a [courseId] that is a string; the empty text otherwise. *)
Definition stringId (v : JValue) : string :=
  match v with
  | JString s => s
  | _ => ""
  end.

(** The table after "X" was saved at time 1 and "Y" at time 2. *)
Definition twoRows : Store.Db :=
  Courses.session plain Store.empty
    [Courses.PostCourses true 1 (saveBody courseX);
     Courses.PostCourses true 2 (saveBody courseY)].

(** A file whose text is the course "X"; any other text is not JSON. *)
Definition fileX : string := "the text of course X".

Definition parseFileX (text : string) : option JValue :=
  if String.eqb text fileX then Some courseX else None.


(** A browser in local mode with nothing stored, and one in database mode
    in front of the table of two rows. *)
Definition localWorld : Client.World :=
  {| Client.useLocalStorage := true; Client.savedCourses := [];
     Client.table := Store.empty |}.

Definition databaseWorld : Client.World :=
  {| Client.useLocalStorage := false; Client.savedCourses := [];
     Client.table := twoRows |}.

(** [{topic: "Z", skills: [], id: "7"}]: a course that carries an [id] of
    its own. *)
Definition courseWithId : JValue :=
  JObject [("topic", JString "Z"); ("skills", JArray []); ("id", JString "7")].

(** The table of two rows after that course was saved at time 3. *)
Definition threeRows : Store.Db :=
  Courses.session plain twoRows
    [Courses.PostCourses true 3 (saveBody courseWithId)].

Definition rowWithId : Store.Row :=
  {| Store.id := 3; Store.topic := "Z"; Store.data := courseWithId;
     Store.created_at := 3; Store.updated_at := 3 |}.

(** Two orders in which the answers for the two skills may arrive until
    both closures have returned, when the answers are [quotaFromSecond]. *)
Definition firstSkillFirst : list nat := [0; 0; 1; 1].

Definition secondSkillFirst : list nat := [1; 1; 0; 0].

(** A topic of 256 characters. *)
Definition longTopic : string :=
  string_of_list_ascii (repeat "a"%char 256).

(** [{topic: <256 characters>, skills: []}] *)
Definition longCourse : JValue :=
  JObject [("topic", JString longTopic); ("skills", JArray [])].

(** A topic of 255 characters followed by a space, and its first 255
    characters. *)
Definition keptTopic : string :=
  string_of_list_ascii (repeat "a"%char 255).

Definition paddedTopic : string :=
  string_of_list_ascii (repeat "a"%char 255 ++ [" "%char]).

Definition paddedCourse : JValue :=
  JObject [("topic", JString paddedTopic); ("skills", JArray [])].

(** A topic that is a number beyond the doubles, such as the [1e400] of a
    JSON text: the browser and the server read it as [Infinity]. *)
Definition infiniteTopic : JValue :=
  JObject [("topic", JNumber infinity); ("skills", JArray [])].

(** Two saves of "X" that overlap: both [SELECT]s are run before either
    [INSERT]. *)
Definition twoSavesOfX : list Courses.Request :=
  [Courses.PostCourses true 1 (saveBody courseX);
   Courses.PostCourses true 2 (saveBody courseX')].

Definition overlapping : list nat := [0; 1; 0; 1].

(** Six searches that all fail, each with its own message, and two orders
    of arrival. *)
Definition sixSkills : list Skill.t :=
  map (fun n => {| Skill.name := n; Skill.description := n; Skill.searchTerms := [n] |})
      ["a"; "b"; "c"; "d"; "e"; "f"].

Definition allUnreachable (i j : nat) : Youtube.FetchResult := unreachable.

Definition inOrder : list nat := [0; 1; 2; 3; 4; 5].

Definition inReverse : list nat := [5; 4; 3; 2; 1; 0].

End Scenarios.

(* ================================================================== *)
(** * Part II: properties                                              *)
(* ================================================================== *)

(** ** Difficulty banding *)

Section LevelFacts.

Import Levels.

(** Comparison of doubles is antisymmetric, NaN included. *)
Lemma SFcompare_antisym (a b : spec_float) :
  SFcompare b a = option_map CompOpp (SFcompare a b).
Proof.
  destruct a as [sa|sa| |sa ma ea], b as [sb|sb| |sb mb eb]; simpl; try reflexivity;
    try (destruct sa; reflexivity); try (destruct sb; reflexivity);
    try (destruct sa, sb; reflexivity).
  rewrite (Z.compare_antisym ea eb).
  change (PosDef.Pos.compare_cont Eq mb ma) with (Pos.compare mb ma).
  change (PosDef.Pos.compare_cont Eq ma mb) with (Pos.compare ma mb).
  rewrite (Pos.compare_antisym ma mb).
  destruct sa, sb; simpl; try reflexivity;
    destruct (ea ?= eb)%Z; simpl; try reflexivity;
    destruct (ma ?= mb)%positive; reflexivity.
Qed.

(** A double that compares with anything is not NaN. *)
Lemma SFcompare_some_refl (x y : spec_float) (c : comparison) :
  SFcompare x y = Some c -> SFcompare x x = Some Eq /\ SFcompare y y = Some Eq.
Proof.
  assert (R : forall s m e, SFcompare (S754_finite s m e) (S754_finite s m e) = Some Eq).
  { intros s m e. simpl. rewrite Z.compare_refl.
    change (PosDef.Pos.compare_cont Eq m m) with (Pos.compare m m).
    rewrite Pos.compare_refl. destruct s; reflexivity. }
  destruct x as [sx|sx| |sx mx ex], y as [sy|sy| |sy my ey]; intros H;
    try discriminate H; split;
    try apply R; try reflexivity;
    try (destruct sx; reflexivity); try (destruct sy; reflexivity).
Qed.

Lemma ltb_true_ordered (p b : float) :
  (p <? b)%float = true -> (p =? p)%float = true.
Proof.
  rewrite FloatAxioms.ltb_spec, FloatAxioms.eqb_spec. unfold SFltb, SFeqb.
  destruct (SFcompare (Prim2SF p) (Prim2SF b)) as [c|] eqn:E; [|discriminate].
  intros _. destruct (SFcompare_some_refl _ _ _ E) as [-> _]. reflexivity.
Qed.

Lemma leb_true_ordered (a p : float) :
  (a <=? p)%float = true -> (p =? p)%float = true.
Proof.
  rewrite FloatAxioms.leb_spec, FloatAxioms.eqb_spec. unfold SFleb, SFeqb.
  destruct (SFcompare (Prim2SF a) (Prim2SF p)) as [c|] eqn:E; [|discriminate].
  intros _. destruct (SFcompare_some_refl _ _ _ E) as [_ ->]. reflexivity.
Qed.

(** For numbers that are not NaN, [p < a] fails exactly when [a <= p]. *)
Lemma ltb_false_leb (a p : float) :
  (p =? p)%float = true -> (a =? a)%float = true ->
  ((p <? a)%float = false <-> (a <=? p)%float = true).
Proof.
  rewrite !FloatAxioms.eqb_spec, FloatAxioms.ltb_spec, FloatAxioms.leb_spec.
  unfold SFeqb, SFltb, SFleb.
  rewrite (SFcompare_antisym (Prim2SF p) (Prim2SF a)).
  generalize (Prim2SF p) (Prim2SF a). intros x y Hx Hy.
  destruct (SFcompare x y) as [[| |]|] eqn:E; simpl; try (split; congruence).
  destruct x, y; simpl in *; discriminate.
Qed.

(** The two banding functions are the same function. *)
Lemma getTrainstationLevel_eq (index total : float) :
  getTrainstationLevel index total = getDifficultyLevel index total.
Proof. reflexivity. Qed.

(** On every list of up to 120 videos the bands computed with doubles are
    the bands of the exact fractions [index/total] against 33/100 and 66/100. *)
Lemma bands_exact_up_to_120 :
  forallb (fun total =>
    forallb (fun index =>
      String.eqb (getDifficultyLevel (num index) (num total)) (exactBand index total))
      (seq 0 total))
    (seq 0 121) = true.
Proof. vm_compute. reflexivity. Qed.

End LevelFacts.

Section LevelClaims.

Import Levels Trainstation.

(** The [level] attributes of the video entities exported for a skill, in
    order, are the banding function applied to the positions. *)
Lemma exportVideos_levels (random : nat -> N) (topic : string) (skill : Course.skill)
    (total : nat) (videos : list Video.t) :
  forall videoIndex k,
    map (attribute "level")
        (fst (fst (exportVideos random topic skill total videoIndex videos k)))
    = map (fun i => Some (getTrainstationLevel (num i) (num total)))
          (seq videoIndex (List.length videos)).
Proof.
  induction videos as [|video rest IH]; intros videoIndex k; cbn [exportVideos].
  - reflexivity.
  - destruct (generateUUID random k) as [videoId k1].
    specialize (IH (S videoIndex) k1).
    destruct (exportVideos random topic skill total (S videoIndex) rest k1)
      as [[videoEntities videoIds] k2].
    cbn [fst map List.length seq] in *. rewrite IH. reflexivity.
Qed.

(** C4. A video at position [index] of [total] is labelled "beginner"
    exactly when [index/total < 0.33], "intermediate" exactly when
    [0.33 <= index/total < 0.66], and "advanced" in every other case, the
    comparisons being those of doubles; of 10 videos the one at index 3 is
    "beginner" and those at indices 4 and 6 are "intermediate"; for every
    list of up to 120 videos the label is the one the exact fraction
    [index/total] gets against 33/100 and 66/100; the export uses the same
    bands as the display, function for function and on the [level]
    attribute of the entities of every skill. *)
Theorem difficulty_bands (index total : float) :
  let position := (index / total)%float in
  (getDifficultyLevel index total = "beginner" <-> (position <? 0.33)%float = true)
  /\ (getDifficultyLevel index total = "intermediate"
      <-> (0.33 <=? position)%float = true /\ (position <? 0.66)%float = true)
  /\ (getDifficultyLevel index total = "advanced"
      <-> (position <? 0.33)%float = false
          /\ ~ ((0.33 <=? position)%float = true /\ (position <? 0.66)%float = true))
  /\ getDifficultyLevel (num 3) (num 10) = "beginner"
  /\ getDifficultyLevel (num 4) (num 10) = "intermediate"
  /\ getDifficultyLevel (num 6) (num 10) = "intermediate"
  /\ getTrainstationLevel index total = getDifficultyLevel index total
  /\ forallb (fun n =>
       forallb (fun i =>
         String.eqb (getDifficultyLevel (num i) (num n)) (exactBand i n)) (seq 0 n))
       (seq 0 121) = true
  /\ (forall random topic skill videos k,
        map (attribute "level")
            (fst (fst (exportVideos random topic skill (List.length videos) 0 videos k)))
        = map Some (Levels.labels getDifficultyLevel (List.length videos))).
Proof.
  intros position.
  assert (B : (getDifficultyLevel index total = "beginner"
               <-> (position <? 0.33)%float = true)).
  { unfold getDifficultyLevel. fold position.
    destruct (position <? 0.33)%float; [tauto|].
    destruct (position <? 0.66)%float; split; discriminate. }
  assert (M : (getDifficultyLevel index total = "intermediate"
               <-> (0.33 <=? position)%float = true /\ (position <? 0.66)%float = true)).
  { unfold getDifficultyLevel. fold position.
    destruct (position <? 0.33)%float eqn:E1.
    - split; [discriminate|]. intros [L _].
      pose proof (leb_true_ordered _ _ L) as Hp.
      apply (ltb_false_leb 0.33 position Hp eq_refl) in L. congruence.
    - destruct (position <? 0.66)%float eqn:E2.
      + split; [|reflexivity]. intros _. split; [|reflexivity].
        apply ltb_false_leb; [exact (ltb_true_ordered _ _ E2)|reflexivity|exact E1].
      + split; [discriminate|]. intros [_ H]. discriminate H. }
  split; [exact B|]. split; [exact M|].
  split.
  { unfold getDifficultyLevel in *. fold position in B, M |- *.
    destruct (position <? 0.33)%float eqn:E1.
    - split; [discriminate|]. intros [H _]. discriminate H.
    - destruct (position <? 0.66)%float eqn:E2.
      + split; [discriminate|]. intros [_ N]. exfalso. apply N, M. reflexivity.
      + split; [|reflexivity]. intros _. split; [reflexivity|].
        intros [_ H]. discriminate H. }
  do 4 (split; [reflexivity|]).
  split; [exact bands_exact_up_to_120|].
  intros random topic skill videos k.
  rewrite exportVideos_levels. unfold Levels.labels. rewrite map_map. reflexivity.
Qed.

End LevelClaims.

(** ** Extraction of the JSON object *)

Section ParserFacts.

Import Regex StructureParser.

Local Notation "'lbrace'" := ("{"%char).
Local Notation "'rbrace'" := ("}"%char).

Lemma ascii_eqb_refl (c : ascii) : Ascii.eqb c c = true.
Proof. apply Ascii.eqb_eq. reflexivity. Qed.

(** A text that holds [c] splits at its last occurrence. *)
Lemma split_at_last (c : ascii) (s : list ascii) :
  In c s -> exists mid post, s = mid ++ c :: post /\ ~ In c post.
Proof.
  induction s as [|d s IH]; intros H; [destruct H|].
  destruct (in_dec ascii_dec c s) as [I|N].
  - destruct (IH I) as (mid & post & -> & Hp).
    exists (d :: mid), post. split; [reflexivity|exact Hp].
  - destruct H as [->|H]; [|contradiction].
    exists [], s. split; [reflexivity|exact N].
Qed.

(** A text that holds [c] splits at its first occurrence. *)
Lemma split_at_first (c : ascii) (s : list ascii) :
  In c s -> exists pre rest, s = pre ++ c :: rest /\ ~ In c pre.
Proof.
  induction s as [|d s IH]; intros H; [destruct H|].
  destruct (ascii_dec d c) as [->|N].
  - exists [], s. split; [reflexivity|intros []].
  - destruct H as [E|H]; [contradiction|].
    destruct (IH H) as (pre & rest & -> & Hp).
    exists (d :: pre), rest. split; [reflexivity|].
    intros [E|I]; [apply N; exact E|exact (Hp I)].
Qed.

(** [[\s\S]*\}] at the start of [s]: one equation per shape of [s]. *)
Lemma closing_nil : matchHere [AnyStar; Lit rbrace] [] = None.
Proof. reflexivity. Qed.

Lemma closing_cons (d : ascii) (s : list ascii) :
  matchHere [AnyStar; Lit rbrace] (d :: s) =
  match matchHere [AnyStar; Lit rbrace] s with
  | Some m => Some (d :: m)
  | None => if Ascii.eqb d rbrace then Some [d] else None
  end.
Proof.
  change (matchHere [AnyStar; Lit rbrace] (d :: s)) with
    (match matchHere [AnyStar; Lit rbrace] s with
     | Some m => Some (d :: m)
     | None => matchHere [Lit rbrace] (d :: s)
     end).
  destruct (matchHere [AnyStar; Lit rbrace] s); [reflexivity|].
  simpl. destruct (Ascii.eqb d rbrace); reflexivity.
Qed.

Lemma closing_none (s : list ascii) :
  ~ In rbrace s -> matchHere [AnyStar; Lit rbrace] s = None.
Proof.
  induction s as [|d s IH]; intros N; [reflexivity|].
  rewrite closing_cons, IH by (intros I; apply N; right; exact I).
  destruct (Ascii.eqb d rbrace) eqn:E; [|reflexivity].
  apply Ascii.eqb_eq in E. exfalso. apply N. left. exact E.
Qed.

(** The repetition is greedy: it runs up to the last closing brace. *)
Lemma closing_last (mid post : list ascii) :
  ~ In rbrace post ->
  matchHere [AnyStar; Lit rbrace] (mid ++ rbrace :: post) = Some (mid ++ [rbrace]).
Proof.
  intros N. induction mid as [|d mid IH].
  - simpl app. rewrite closing_cons, (closing_none post N), ascii_eqb_refl. reflexivity.
  - change ((d :: mid) ++ rbrace :: post) with (d :: (mid ++ rbrace :: post)).
    rewrite closing_cons, IH. reflexivity.
Qed.

Lemma closing_some (s m : list ascii) :
  matchHere [AnyStar; Lit rbrace] s = Some m ->
  exists mid post, s = mid ++ rbrace :: post /\ ~ In rbrace post /\ m = mid ++ [rbrace].
Proof.
  intros H. destruct (in_dec ascii_dec rbrace s) as [I|N].
  - destruct (split_at_last _ _ I) as (mid & post & -> & Hp).
    rewrite (closing_last mid post Hp) in H. injection H as <-.
    exists mid, post. repeat split; assumption.
  - rewrite (closing_none s N) in H. discriminate H.
Qed.

(** The whole pattern at the start of [s]. *)
Lemma pattern_here (d : ascii) (s : list ascii) :
  matchHere jsonPattern (d :: s) =
  if Ascii.eqb d lbrace
  then option_map (cons d) (matchHere [AnyStar; Lit rbrace] s)
  else None.
Proof. reflexivity. Qed.

Lemma exec_no_closing (s : list ascii) :
  ~ In rbrace s -> exec jsonPattern s = None.
Proof.
  induction s as [|d s IH]; intros N; [reflexivity|].
  assert (Ns : ~ In rbrace s) by (intros I; apply N; right; exact I).
  cbn [exec]. rewrite pattern_here, (closing_none s Ns), (IH Ns).
  destruct (Ascii.eqb d lbrace); reflexivity.
Qed.

(** The match starts at the first opening brace, whatever comes before. *)
Lemma exec_first_opening (pre rest : list ascii) :
  ~ In lbrace pre ->
  exec jsonPattern (pre ++ lbrace :: rest) =
  option_map (cons lbrace) (matchHere [AnyStar; Lit rbrace] rest).
Proof.
  intros N. induction pre as [|d pre IH].
  - cbn [app exec]. rewrite pattern_here, ascii_eqb_refl.
    destruct (matchHere [AnyStar; Lit rbrace] rest) as [m|] eqn:E; [reflexivity|].
    cbn [option_map]. apply exec_no_closing.
    intros I. destruct (split_at_last _ _ I) as (mid & post & -> & Hp).
    rewrite (closing_last mid post Hp) in E. discriminate E.
  - change ((d :: pre) ++ lbrace :: rest) with (d :: (pre ++ lbrace :: rest)).
    cbn [exec]. rewrite pattern_here.
    destruct (Ascii.eqb d lbrace) eqn:E.
    + apply Ascii.eqb_eq in E. exfalso. apply N. left. exact E.
    + apply IH. intros I. apply N. right. exact I.
Qed.

Lemma exec_no_opening (s : list ascii) :
  ~ In lbrace s -> exec jsonPattern s = None.
Proof.
  induction s as [|d s IH]; intros N; [reflexivity|].
  cbn [exec]. rewrite pattern_here.
  destruct (Ascii.eqb d lbrace) eqn:E.
  - apply Ascii.eqb_eq in E. exfalso. apply N. left. exact E.
  - apply IH. intros I. apply N. right. exact I.
Qed.

(** The regular expression finds exactly the span from the first opening
    brace to the last closing brace. *)
Lemma exec_outermost (text span : list ascii) :
  exec jsonPattern text = Some span <-> IsOutermostSpan text span.
Proof.
  split.
  - intros H. destruct (in_dec ascii_dec lbrace text) as [I|N].
    + destruct (split_at_first _ _ I) as (pre & rest & -> & Hp).
      rewrite (exec_first_opening pre rest Hp) in H.
      destruct (matchHere [AnyStar; Lit rbrace] rest) as [m|] eqn:E; [|discriminate H].
      injection H as <-.
      destruct (closing_some _ _ E) as (mid & post & -> & Hq & ->).
      exists pre, mid, post. repeat split; assumption.
    + rewrite (exec_no_opening text N) in H. discriminate H.
  - intros (pre & mid & post & -> & Hp & Hq & ->).
    rewrite (exec_first_opening pre _ Hp), (closing_last mid post Hq). reflexivity.
Qed.

Lemma exec_none (text : list ascii) :
  exec jsonPattern text = None <-> ~ exists span, IsOutermostSpan text span.
Proof.
  split.
  - intros H [span S]. apply exec_outermost in S. congruence.
  - intros N. destruct (exec jsonPattern text) as [span|] eqn:E; [|reflexivity].
    exfalso. apply N. exists span. apply exec_outermost. exact E.
Qed.

(** The same span, by positions. *)
Lemma indexOf_none (c : ascii) (s : list ascii) : ~ In c s -> indexOf c s = None.
Proof.
  induction s as [|d s IH]; intros N; [reflexivity|].
  cbn [indexOf]. destruct (Ascii.eqb d c) eqn:E.
  - apply Ascii.eqb_eq in E. exfalso. apply N. left. exact E.
  - rewrite IH; [reflexivity|]. intros I. apply N. right. exact I.
Qed.

Lemma indexOf_first (c : ascii) (pre rest : list ascii) :
  ~ In c pre -> indexOf c (pre ++ c :: rest) = Some (List.length pre).
Proof.
  induction pre as [|d pre IH]; intros N.
  - cbn. rewrite ascii_eqb_refl. reflexivity.
  - cbn [app indexOf List.length]. destruct (Ascii.eqb d c) eqn:E.
    + apply Ascii.eqb_eq in E. exfalso. apply N. left. exact E.
    + rewrite IH; [reflexivity|]. intros I. apply N. right. exact I.
Qed.

Lemma lastIndexOf_none (c : ascii) (s : list ascii) :
  ~ In c s -> lastIndexOf c s = None.
Proof.
  intros N. unfold lastIndexOf. rewrite indexOf_none; [reflexivity|].
  intros I. apply N. apply in_rev. exact I.
Qed.

Lemma lastIndexOf_last (c : ascii) (mid post : list ascii) :
  ~ In c post -> lastIndexOf c (mid ++ c :: post) = Some (List.length mid).
Proof.
  intros N. unfold lastIndexOf.
  rewrite rev_app_distr. cbn [rev]. rewrite <- app_assoc. cbn [app].
  rewrite indexOf_first.
  - cbn [option_map]. f_equal.
    rewrite length_app, length_rev. cbn [List.length]. lia.
  - intros I. apply N. apply in_rev. exact I.
Qed.

Lemma exec_by_positions (text : list ascii) :
  exec jsonPattern text = spanFirstToLast text.
Proof.
  unfold spanFirstToLast.
  destruct (in_dec ascii_dec lbrace text) as [I|N].
  2:{ rewrite (exec_no_opening text N), (indexOf_none _ _ N). reflexivity. }
  destruct (split_at_first _ _ I) as (pre & rest & -> & Hp).
  rewrite (exec_first_opening pre rest Hp), (indexOf_first _ pre rest Hp).
  destruct (in_dec ascii_dec rbrace rest) as [J|M].
  - destruct (split_at_last _ _ J) as (mid & post & -> & Hq).
    rewrite (closing_last mid post Hq). cbn [option_map].
    replace (pre ++ lbrace :: mid ++ rbrace :: post)
      with ((pre ++ lbrace :: mid) ++ rbrace :: post)
      by (rewrite <- app_assoc; reflexivity).
    rewrite (lastIndexOf_last _ (pre ++ lbrace :: mid) post Hq).
    rewrite length_app. cbn [List.length].
    replace (List.length pre <? List.length pre + S (List.length mid))%nat with true
      by (symmetry; apply Nat.ltb_lt; lia).
    f_equal. unfold slice.
    rewrite <- app_assoc.
    rewrite skipn_app, Nat.sub_diag, skipn_all. cbn [app skipn].
    replace (List.length pre + S (List.length mid) + 1 - List.length pre)
      with (S (List.length mid + 1)) by lia.
    cbn [firstn]. f_equal.
    change (mid ++ rbrace :: post) with (mid ++ [rbrace] ++ post).
    rewrite app_assoc, firstn_app.
    rewrite length_app. cbn [List.length].
    rewrite Nat.sub_diag, firstn_O, app_nil_r.
    symmetry. apply firstn_all2. rewrite length_app. cbn [List.length]. lia.
  - rewrite (closing_none rest M). cbn [option_map].
    destruct (in_dec ascii_dec rbrace pre) as [K|L].
    + destruct (split_at_last _ _ K) as (a & b & -> & Hb).
      rewrite <- app_assoc. cbn [app].
      rewrite lastIndexOf_last.
      * rewrite length_app. cbn [List.length].
        replace (List.length a + S (List.length b) <? List.length a)%nat with false
          by (symmetry; apply Nat.ltb_ge; lia).
        reflexivity.
      * intros X. apply in_app_or in X. destruct X as [X|[X|X]];
          [exact (Hb X)|discriminate X|exact (M X)].
    + rewrite lastIndexOf_none; [reflexivity|].
      intros X. apply in_app_or in X. destruct X as [X|[X|X]];
        [exact (L X)|discriminate X|exact (M X)].
Qed.

End ParserFacts.

Section ParserClaims.

Import Regex StructureParser Samples.

Variable JSON_parse : string -> option JValue.

Lemma jsonMatch_outermost (responseText span : string) :
  jsonMatch responseText = Some span
  <-> IsOutermostSpan (list_ascii_of_string responseText) (list_ascii_of_string span).
Proof.
  unfold jsonMatch. split.
  - destruct (exec jsonPattern (list_ascii_of_string responseText)) as [m|] eqn:E;
      [|discriminate].
    cbn [option_map]. intros H. injection H as <-.
    rewrite list_ascii_of_string_of_list_ascii. apply exec_outermost. exact E.
  - intros H. apply exec_outermost in H. rewrite H. cbn [option_map].
    rewrite string_of_list_ascii_of_string. reflexivity.
Qed.

Lemma jsonMatch_none (responseText : string) :
  jsonMatch responseText = None
  <-> ~ exists span, IsOutermostSpan (list_ascii_of_string responseText) span.
Proof.
  unfold jsonMatch. rewrite <- exec_none.
  destruct (exec jsonPattern (list_ascii_of_string responseText)); cbn [option_map];
    split; congruence.
Qed.

(** C1. The parser takes the span from the first opening brace of the text
    to its last closing brace (the greedy, outermost span), hands it to
    [JSON.parse] and returns what that returns; it fails with
    MalformedResponse when the text has no such span (no brace at all, an
    opening brace that is never closed) and when the span does not parse. *)
Theorem structure_parser_outermost_span (responseText : string) :
  let text := list_ascii_of_string responseText in
  (forall span, jsonMatch responseText = Some span
                <-> IsOutermostSpan text (list_ascii_of_string span))
  /\ exec jsonPattern text = spanFirstToLast text
  /\ (forall noMatch v,
        parseStructure JSON_parse noMatch responseText = CourseStructure v
        <-> exists span, IsOutermostSpan text (list_ascii_of_string span)
                         /\ JSON_parse span = Some v)
  /\ (forall noMatch,
        (~ exists span, IsOutermostSpan text span) ->
        parseStructure JSON_parse noMatch responseText = MalformedResponse noMatch)
  /\ (forall noMatch span,
        IsOutermostSpan text (list_ascii_of_string span) ->
        JSON_parse span = None ->
        parseStructure JSON_parse noMatch responseText = MalformedResponse "SyntaxError")
  /\ (forall v,
        parseStructure JSON_parse "No JSON found in response" responseText
        = CourseStructure v ->
        generateCourse JSON_parse responseText = {| status := 200; body := v |})
  /\ (forall v,
        parseStructure JSON_parse "No JSON found" responseText = CourseStructure v ->
        generateFullCourseParse JSON_parse responseText = inr v)
  /\ (forall message,
        parseStructure JSON_parse "No JSON found in response" responseText
        = MalformedResponse message ->
        status (generateCourse JSON_parse responseText) = 500)
  /\ (forall message,
        parseStructure JSON_parse "No JSON found" responseText
        = MalformedResponse message ->
        exists reply, generateFullCourseParse JSON_parse responseText = inl reply
                      /\ status reply = 500)
  /\ jsonMatch sureThanks = Some sureThanksObject
  /\ jsonMatch twoObjects = Some "{a} and two {b}"
  /\ jsonMatch "no braces at all" = None
  /\ jsonMatch "{a:1" = None.
Proof.
  intros text.
  split; [intros span; apply jsonMatch_outermost|].
  split; [apply exec_by_positions|].
  split.
  { intros noMatch v. unfold parseStructure. split.
    - destruct (jsonMatch responseText) as [span|] eqn:E; [|discriminate].
      destruct (JSON_parse span) as [w|] eqn:P; [|discriminate].
      intros H. injection H as <-. exists span. split; [|exact P].
      apply jsonMatch_outermost. exact E.
    - intros (span & S & P). apply jsonMatch_outermost in S.
      rewrite S, P. reflexivity. }
  split.
  { intros noMatch N. unfold parseStructure.
    apply jsonMatch_none in N. rewrite N. reflexivity. }
  split.
  { intros noMatch span S P. unfold parseStructure.
    apply jsonMatch_outermost in S. rewrite S, P. reflexivity. }
  split.
  { intros v H. unfold generateCourse. rewrite H. reflexivity. }
  split.
  { intros v H. unfold generateFullCourseParse. rewrite H. reflexivity. }
  split.
  { intros message H. unfold generateCourse. rewrite H. reflexivity. }
  split.
  { intros message H. unfold generateFullCourseParse. rewrite H.
    eexists. split; reflexivity. }
  repeat split; reflexivity.
Qed.

(** C7, the structure-only path: a parse failure is answered with the
    completion text under [raw]. *)
Lemma generateCourse_failure_keeps_raw (responseText message : string) :
  parseStructure JSON_parse "No JSON found in response" responseText
  = MalformedResponse message ->
  prop (body (generateCourse JSON_parse responseText)) "raw"
  = Value (JString responseText).
Proof. intros H. unfold generateCourse. rewrite H. reflexivity. Qed.

(** C7, the full path: a parse failure is answered with an error message
    only; the completion text is not in the reply. *)
Lemma generateFullCourse_failure_drops_raw (responseText message : string) :
  parseStructure JSON_parse "No JSON found" responseText = MalformedResponse message ->
  generateFullCourseParse JSON_parse responseText
  = inl {| status := 500;
           body := JObject [("error", JString "Failed to parse course structure")] |}.
Proof. intros H. unfold generateFullCourseParse. rewrite H. reflexivity. Qed.

(** C7 at a completion without any JSON: the structure-only handler returns
    the text under [raw], the full handler returns a body without it. *)
Theorem full_generation_drops_raw_text :
  prop (body (generateCourse JSON_parse "I cannot help with that")) "raw"
  = Value (JString "I cannot help with that")
  /\ generateFullCourseParse JSON_parse "I cannot help with that"
     = inl {| status := 500;
              body := JObject [("error", JString "Failed to parse course structure")] |}
  /\ prop (JObject [("error", JString "Failed to parse course structure")]) "raw"
     = Undefined.
Proof. repeat split; reflexivity. Qed.

End ParserClaims.

(** The claim C1 at a text with an opening brace that is never closed: it
    has no span, and the parser fails. *)
Lemma structure_parser_outermost_span_witness :
  StructureParser.parseStructure (fun _ => None) "No JSON found" "{a:1"
  = StructureParser.MalformedResponse "No JSON found".
Proof.
  exact (proj1 (proj2 (proj2 (proj2
           (structure_parser_outermost_span (fun _ => None) "{a:1"))))
           "No JSON found" (proj1 (jsonMatch_none "{a:1") eq_refl)).
Defined.

(** ** Validation of course data *)

Section ValidationClaims.

Import Samples Shape.

(** What the import guard lets through. *)
Lemma import_accepts_iff (course : JValue) :
  Importer.accepts course = true
  <-> exists topic skills,
        prop course "topic" = Value topic /\ truthy topic = true
        /\ prop course "skills" = Value (JArray skills).
Proof.
  unfold Importer.accepts. split.
  - destruct (prop course "topic") as [topic| |] eqn:T; cbn [truthyAccess];
      try discriminate.
    intros H. apply andb_true_iff in H. destruct H as [H A].
    apply andb_true_iff in H. destruct H as [Tr _].
    destruct (prop course "skills") as [[|b|n|s|skills|props]| |] eqn:S;
      try discriminate A.
    exists topic, skills. repeat split; assumption.
  - intros (topic & skills & -> & Tr & ->). cbn [truthyAccess isArray truthy].
    rewrite Tr. reflexivity.
Qed.

(** What the guard of [POST /api/courses] lets through. *)
Lemma guard_iff (body course topic : JValue) :
  Store.guard body = Some (course, topic)
  <-> prop body "course" = Value course /\ truthy course = true
      /\ prop course "topic" = Value topic /\ truthy topic = true.
Proof.
  unfold Store.guard. split.
  - destruct (prop body "course") as [c| |]; try discriminate.
    destruct (truthy c) eqn:C; [|discriminate].
    destruct (prop c "topic") as [t| |] eqn:T; try discriminate.
    destruct (truthy t) eqn:Tr; [|discriminate].
    intros H. injection H as <- <-. repeat split; assumption.
  - intros (-> & C & T & Tr). rewrite C, T, Tr. reflexivity.
Qed.

Lemma save_accepts_iff (body : JValue) :
  Store.accepts body = true
  <-> exists course topic,
        prop body "course" = Value course /\ truthy course = true
        /\ prop course "topic" = Value topic /\ truthy topic = true.
Proof.
  unfold Store.accepts. split.
  - destruct (Store.guard body) as [[course topic]|] eqn:G; [|discriminate].
    intros _. exists course, topic. apply guard_iff. exact G.
  - intros (course & topic & H). apply guard_iff in H. rewrite H. reflexivity.
Qed.

(** The statement that follows the [SELECT] answers with an id or with
    status 500. *)
Lemma write_reply (pg : Store.Postgres) (now : Z) (course : JValue) (key : string)
    (existing : list Z) (db : Store.Db) :
  (exists n, fst (Store.write pg now course key existing db) = Store.Saved n)
  \/ fst (Store.write pg now course key existing db) = Store.FailedToSave.
Proof.
  unfold Store.write. destruct existing as [|e existing].
  - destruct (if Store.pgRefuses pg key course then None else Store.columnText key);
      [left; eexists; reflexivity|right; reflexivity].
  - destruct (Store.pgRefuses pg key course); [right; reflexivity|].
    destruct (Store.selectIdWhereTopic key (Store.rows db));
      [right; reflexivity|left; eexists; reflexivity].
Qed.

Lemma minimalShape_inv (course : JValue) :
  minimalShape course = true ->
  exists topic skills,
    prop course "topic" = Value (JString topic) /\ String.eqb topic "" = false
    /\ prop course "skills" = Value (JArray skills).
Proof.
  unfold minimalShape.
  destruct (prop course "topic") as [[|b|n|topic|l|props]| |]; try discriminate.
  destruct (prop course "skills") as [[|b'|n'|s'|skills|props']| |]; try discriminate.
  intros H. exists topic, skills. repeat split.
  destruct (String.eqb topic ""); [discriminate H|reflexivity].
Qed.

Lemma minimalShape_truthy (course : JValue) :
  minimalShape course = true -> truthy course = true.
Proof.
  destruct course; try reflexivity; discriminate.
Qed.

Lemma prop_saveBody (course : JValue) : prop (saveBody course) "course" = Value course.
Proof. reflexivity. Qed.

(** C6, refuted as stated: the import accepts a course whose topic is the
    number 5, and the save accepts a course without skills; neither has the
    minimal shape. *)
Lemma acceptance_is_wider_than_minimal_shape :
  Importer.accepts numericTopic = true /\ minimalShape numericTopic = false
  /\ Store.accepts (saveBody noSkills) = true /\ minimalShape noSkills = false.
Proof. repeat split; reflexivity. Qed.

(** C6, amended. The import accepts exactly the values whose [topic] is
    truthy and whose [skills] is an array; the save accepts exactly the
    requests whose course is truthy and has a truthy [topic], whatever its
    skills. So at both acceptance points data of the minimal shape is
    accepted and data whose topic is missing or the empty string is
    rejected: [{topic:"", skills:[]}] and [{skills:[]}] are rejected and
    [{topic:"X", skills:[...]}] is accepted. The import reports a rejection
    as 'Ogiltig kursstruktur', except for a file that holds [null], where
    the error is the TypeError of reading [topic] of [null], and for a file
    that is not JSON; the save answers a rejection, and nothing else, with
    status 400, and leaves the table as it is. *)
Theorem course_data_validation (course : JValue) :
  (Importer.accepts course = true
   <-> exists topic skills,
         prop course "topic" = Value topic /\ truthy topic = true
         /\ prop course "skills" = Value (JArray skills))
  /\ (Store.accepts (saveBody course) = true
      <-> truthy course = true
          /\ exists topic, prop course "topic" = Value topic /\ truthy topic = true)
  /\ (minimalShape course = true ->
      Importer.accepts course = true /\ Store.accepts (saveBody course) = true)
  /\ (prop course "topic" = Undefined \/ prop course "topic" = Value (JString "") ->
      Importer.accepts course = false /\ Store.accepts (saveBody course) = false)
  /\ (forall JSON_parse text,
        JSON_parse text = Some course ->
        Importer.handleImport JSON_parse text =
        match course with
        | JNull => Importer.Failed Importer.TopicOfNull
        | _ =>
            if Importer.accepts course then Importer.Imported course
            else Importer.Failed Importer.InvalidCourseStructure
        end)
  /\ (forall JSON_parse text,
        JSON_parse text = None ->
        Importer.handleImport JSON_parse text = Importer.Failed Importer.NotJSON)
  /\ Importer.message Importer.InvalidCourseStructure = Some "Ogiltig kursstruktur"
  /\ (forall pg now db,
        fst (Store.postCourses pg true now (saveBody course) db)
        = Store.CourseDataRequired
        <-> Store.accepts (saveBody course) = false)
  /\ (forall pg now db,
        Store.accepts (saveBody course) = false ->
        Store.postCourses pg true now (saveBody course) db
        = (Store.CourseDataRequired, db))
  /\ Importer.accepts emptyTopic = false /\ Store.accepts (saveBody emptyTopic) = false
  /\ Importer.accepts missingTopic = false /\ Store.accepts (saveBody missingTopic) = false
  /\ Importer.accepts courseX = true /\ Store.accepts (saveBody courseX) = true.
Proof.
  assert (Store.accepts (saveBody course) = true
          <-> truthy course = true
              /\ exists topic, prop course "topic" = Value topic /\ truthy topic = true)
    as Server.
  { rewrite save_accepts_iff. split.
    - intros (c & topic & C & Tc & T & Tt). rewrite prop_saveBody in C.
      injection C as <-. split; [exact Tc|]. exists topic. split; assumption.
    - intros (Tc & topic & T & Tt). exists course, topic.
      repeat split; try assumption. }
  split; [apply import_accepts_iff|].
  split; [exact Server|].
  split.
  { intros M. pose proof (minimalShape_truthy course M) as C.
    destruct (minimalShape_inv course M) as (topic & skills & T & NE & S).
    split.
    - apply import_accepts_iff. exists (JString topic), skills.
      repeat split; try assumption. cbn [truthy]. rewrite NE. reflexivity.
    - apply Server. split; [exact C|]. exists (JString topic).
      split; [exact T|]. cbn [truthy]. rewrite NE. reflexivity. }
  split.
  { intros H.
    assert (Store.accepts (saveBody course) = false) as S.
    { apply not_true_is_false. intros A.
      apply Server in A. destruct A as (_ & topic & T & Tt).
      destruct H as [H|H]; rewrite H in T; [discriminate|].
      injection T as <-. discriminate Tt. }
    split; [|exact S].
    unfold Importer.accepts. destruct H as [->| ->]; reflexivity. }
  split.
  { intros JSON_parse text P. unfold Importer.handleImport, Importer.accepts.
    rewrite P. destruct course as [|b|n|s|elements|properties]; try reflexivity.
    cbn [prop]. destruct (lookup "topic" properties); reflexivity. }
  split.
  { intros JSON_parse text P. unfold Importer.handleImport. rewrite P. reflexivity. }
  split; [reflexivity|].
  assert (forall pg now db,
            Store.accepts (saveBody course) = false ->
            Store.postCourses pg true now (saveBody course) db
            = (Store.CourseDataRequired, db)) as Refused.
  { intros pg now db. unfold Store.accepts, Store.postCourses. cbn [negb].
    destruct (Store.guard (saveBody course)) as [[c t]|]; [discriminate|reflexivity]. }
  split.
  { intros pg now db. split.
    - unfold Store.accepts, Store.postCourses. cbn [negb].
      destruct (Store.guard (saveBody course)) as [[c t]|]; [|reflexivity].
      unfold Store.upsert. intros H.
      destruct (write_reply pg now c (Store.parameter pg t)
                  (Store.selectIdWhereTopic (Store.parameter pg t) (Store.rows db)) db)
        as [(n & E)|E]; rewrite E in H; discriminate.
    - intros A. rewrite (Refused pg now db A). reflexivity. }
  split; [exact Refused|].
  repeat split; reflexivity.
Qed.

(** The amended claim at [{topic:"X", skills:[...]}], which has the minimal
    shape. *)
Lemma course_data_validation_witness :
  Importer.accepts courseX = true /\ Store.accepts (saveBody courseX) = true.
Proof.
  exact (proj1 (proj2 (proj2 (course_data_validation courseX))) eq_refl).
Defined.

End ValidationClaims.

(** ** The courses table *)

Section StoreFacts.

Import Store.

Variable pg : Postgres.

Lemma length_insertDesc (x : Row) (l : list Row) :
  List.length (insertDesc x l) = S (List.length l).
Proof.
  induction l as [|y l IH]; [reflexivity|].
  cbn [insertDesc]. destruct (updated_at y <=? updated_at x)%Z; cbn [List.length];
    [reflexivity|]. rewrite IH. reflexivity.
Qed.

Lemma insertDesc_perm (x : Row) (l : list Row) :
  Permutation (x :: l) (insertDesc x l).
Proof.
  induction l as [|y l IH]; [apply Permutation_refl|].
  cbn [insertDesc]. destruct (updated_at y <=? updated_at x)%Z;
    [apply Permutation_refl|].
  eapply perm_trans; [apply perm_swap|]. apply perm_skip. exact IH.
Qed.

(** Ordering the rows for the listing neither drops nor repeats a row. *)
Lemma orderByUpdatedDesc_perm (l : list Row) :
  Permutation l (orderByUpdatedDesc l).
Proof.
  induction l as [|x l IH]; [apply perm_nil|].
  cbn [orderByUpdatedDesc fold_right].
  eapply perm_trans; [apply perm_skip; exact IH|]. apply insertDesc_perm.
Qed.


Lemma updateWhereTopic_ids (key : string) (payload : JValue) (t : Z) (l : list Row) :
  map id (updateWhereTopic key payload t l) = map id l.
Proof.
  unfold updateWhereTopic. rewrite map_map. apply map_ext.
  intros row. destruct (String.eqb (topic row) key); reflexivity.
Qed.

(** The [SELECT] finds a row exactly when the topic is in the table. *)
Lemma select_nil_iff (key : string) (l : list Row) :
  selectIdWhereTopic key l = [] <-> ~ In key (map topic l).
Proof.
  unfold selectIdWhereTopic. induction l as [|row l IH]; cbn [filter map].
  - split; [intros _ []|reflexivity].
  - destruct (String.eqb (topic row) key) eqn:E.
    + apply String.eqb_eq in E. split; [discriminate|].
      intros N. exfalso. apply N. left. exact E.
    + apply String.eqb_neq in E. rewrite IH. split.
      * intros N [H|H]; [exact (E H)|exact (N H)].
      * intros N H. apply N. right. exact H.
Qed.

Lemma topic_in_table (key : string) (l : list Row) :
  existsb (String.eqb key) (map topic l) = true <-> In key (map topic l).
Proof.
  rewrite existsb_exists. split.
  - intros (x & I & E). apply String.eqb_eq in E. subst x. exact I.
  - intros I. exists key. split; [exact I|apply String.eqb_refl].
Qed.

(** *** The width of the topic column *)



(** *** One save *)

Lemma upsert_existing (t : Z) (course topicValue : JValue) (db : Db) :
  In (parameter pg topicValue) (map topic (rows db)) ->
  pgRefuses pg (parameter pg topicValue) course = false ->
  exists n,
    In n (selectIdWhereTopic (parameter pg topicValue) (rows db))
    /\ upsert pg t course topicValue db
       = (Saved n,
          {| rows := updateWhereTopic (parameter pg topicValue) (stored pg course) t
                       (rows db);
             nextId := nextId db |}).
Proof.
  intros H R. unfold upsert, write.
  destruct (selectIdWhereTopic (parameter pg topicValue) (rows db)) as [|n ns] eqn:E.
  - apply select_nil_iff in E. contradiction.
  - rewrite R. exists n. split; [left|]; reflexivity.
Qed.

Lemma upsert_existing_refused (t : Z) (course topicValue : JValue) (db : Db) :
  In (parameter pg topicValue) (map topic (rows db)) ->
  pgRefuses pg (parameter pg topicValue) course = true ->
  upsert pg t course topicValue db = (FailedToSave, db).
Proof.
  intros H R. unfold upsert, write.
  destruct (selectIdWhereTopic (parameter pg topicValue) (rows db)) as [|n ns] eqn:E.
  - apply select_nil_iff in E. contradiction.
  - rewrite R. reflexivity.
Qed.

Lemma upsert_fresh (t : Z) (course topicValue : JValue) (db : Db) (text : string) :
  ~ In (parameter pg topicValue) (map topic (rows db)) ->
  pgRefuses pg (parameter pg topicValue) course = false ->
  columnText (parameter pg topicValue) = Some text ->
  upsert pg t course topicValue db
  = (Saved (nextId db),
     {| rows := rows db ++ [{| id := nextId db; topic := text;
                               data := stored pg course;
                               created_at := t; updated_at := t |}];
        nextId := (nextId db + 1)%Z |}).
Proof.
  intros H R C. unfold upsert, write. apply select_nil_iff in H. rewrite H, R, C.
  reflexivity.
Qed.

Lemma upsert_fresh_refused (t : Z) (course topicValue : JValue) (db : Db) :
  ~ In (parameter pg topicValue) (map topic (rows db)) ->
  pgRefuses pg (parameter pg topicValue) course = true
  \/ columnText (parameter pg topicValue) = None ->
  upsert pg t course topicValue db
  = (FailedToSave, refusedInsert pg (parameter pg topicValue) course db).
Proof.
  intros H R. unfold upsert, write. apply select_nil_iff in H. rewrite H.
  destruct R as [R|R]; rewrite R; [reflexivity|].
  destruct (pgRefuses pg (parameter pg topicValue) course); reflexivity.
Qed.

(** What a save does to the table, case by case. *)
Lemma upsert_cases (t : Z) (course topicValue : JValue) (db : Db) :
  let key := parameter pg topicValue in
  (fst (upsert pg t course topicValue db) = FailedToSave
   /\ rows (snd (upsert pg t course topicValue db)) = rows db
   /\ (nextId db <= nextId (snd (upsert pg t course topicValue db)))%Z
   /\ storable pg key course db = false)
  \/ (exists n,
        In key (map topic (rows db))
        /\ In n (selectIdWhereTopic key (rows db))
        /\ upsert pg t course topicValue db
           = (Saved n,
              {| rows := updateWhereTopic key (stored pg course) t (rows db);
                 nextId := nextId db |})
        /\ storable pg key course db = true)
  \/ (exists text,
        ~ In key (map topic (rows db))
        /\ columnText key = Some text
        /\ upsert pg t course topicValue db
           = (Saved (nextId db),
              {| rows := rows db ++ [{| id := nextId db; topic := text;
                                        data := stored pg course;
                                        created_at := t; updated_at := t |}];
                 nextId := (nextId db + 1)%Z |})
        /\ storable pg key course db = true).
Proof.
  intros key. subst key. unfold storable.
  destruct (in_dec string_dec (parameter pg topicValue) (map topic (rows db))) as [I|N].
  - pose proof (proj2 (topic_in_table _ _) I) as X. rewrite X.
    destruct (pgRefuses pg (parameter pg topicValue) course) eqn:R.
    + left. rewrite (upsert_existing_refused t course topicValue db I R).
      cbn [fst snd negb andb]. repeat split; reflexivity || lia.
    + right. left. destruct (upsert_existing t course topicValue db I R) as (n & S & E).
      exists n. repeat split; assumption.
  - assert (existsb (String.eqb (parameter pg topicValue)) (map topic (rows db)) = false)
      as X.
    { apply not_true_is_false. intros X. apply topic_in_table in X. contradiction. }
    rewrite X.
    destruct (pgRefuses pg (parameter pg topicValue) course) eqn:R.
    + left. rewrite (upsert_fresh_refused t course topicValue db N (or_introl R)).
      unfold refusedInsert. cbn [fst snd rows nextId negb andb].
      repeat split; try reflexivity.
      destruct (pgSkips pg (parameter pg topicValue) course); lia.
    + destruct (columnText (parameter pg topicValue)) as [text|] eqn:C.
      * right. right. exists text.
        rewrite (upsert_fresh t course topicValue db text N R C).
        repeat split; try assumption; reflexivity.
      * left. rewrite (upsert_fresh_refused t course topicValue db N (or_intror C)).
        unfold refusedInsert. cbn [fst snd rows nextId negb andb orb].
        repeat split; try reflexivity.
        destruct (pgSkips pg (parameter pg topicValue) course); lia.
Qed.



Lemma upsert_nextId (t : Z) (course topicValue : JValue) (db : Db) :
  (nextId db <= nextId (snd (upsert pg t course topicValue db)))%Z.
Proof.
  destruct (upsert_cases t course topicValue db)
    as [(_ & _ & L & _)|[(n & _ & _ & E & _)|(text & _ & _ & E & _)]].
  - exact L.
  - rewrite E. cbn [snd nextId]. lia.
  - rewrite E. cbn [snd nextId]. lia.
Qed.






(** *** The handler *)

(** The handler either leaves the table alone or performs the save. *)
Lemma postCourses_table (up : bool) (t : Z) (request : JValue) (db : Db) :
  (snd (postCourses pg up t request db) = db
   /\ (up = false \/ guard request = None))
  \/ exists course topicValue,
       up = true
       /\ guard request = Some (course, topicValue)
       /\ postCourses pg up t request db = upsert pg t course topicValue db.
Proof.
  unfold postCourses. destruct up; cbn [negb]; [|left; split; [reflexivity|left; reflexivity]].
  destruct (guard request) as [[course topicValue]|];
    [|left; split; [reflexivity|right; reflexivity]].
  right. exists course, topicValue. repeat split.
Qed.





(** X1. [GET /api/courses] with the database available returns exactly
    the payloads of the stored rows, each once: ordering by [updated_at]
    neither drops nor repeats a row. *)
Lemma listed_data (db : Db) :
  Permutation (map listedData (listed (getCourses true db))) (map data (rows db)).
Proof.
  cbn [getCourses negb listed]. rewrite map_map. cbn [listedData].
  apply Permutation_sym. apply Permutation_map. apply orderByUpdatedDesc_perm.
Qed.

End StoreFacts.

Section StoreClaims.

Import Store Samples.

Variable pg : Postgres.


End StoreClaims.


(** The save is not an upsert keyed by topic in three cases. A course whose
    topic has 256 characters is answered with the failure and leaves no row.
    Two saves of topic "X" whose statements overlap, each reading the table
    before the other writes, leave two rows of topic "X". And two saves, one
    after the other, of a topic of 255 characters and a space leave two rows
    with the same topic, the first 255 characters. *)
Lemma saves_that_are_no_upsert :
  fst (Store.postCourses Scenarios.plain true 1 (Samples.saveBody Scenarios.longCourse)
         Store.empty)
  = Store.FailedToSave
  /\ Store.rows
       (snd (Store.postCourses Scenarios.plain true 1
               (Samples.saveBody Scenarios.longCourse) Store.empty))
     = []
  /\ map Store.topic
         (Store.rows
            (Courses.database
               (Courses.interleave Scenarios.plain Scenarios.overlapping
                  (Courses.arrive Store.empty Scenarios.twoSavesOfX))))
     = ["X"; "X"]
  /\ map Store.topic
         (Store.rows
            (Store.serve Scenarios.plain Store.empty
               [Samples.save 1 Scenarios.paddedCourse;
                Samples.save 2 Scenarios.paddedCourse]))
     = [Scenarios.keptTopic; Scenarios.keptTopic].
Proof.
  repeat split; vm_compute; reflexivity.
Qed.

(** ** Identifiers *)

Section UuidFacts.

Import Trainstation.

Variable random : nat -> N.

Lemma r_lt_16 (k : nat) : (r random k < 16)%N.
Proof.
  unfold r. apply N.Div0.div_lt_upper_bound.
  assert (random k mod 2 ^ 53 < 2 ^ 53)%N by (apply N.mod_lt; discriminate).
  lia.
Qed.

Lemma variant_lt_16 (n : N) : (N.lor (N.land n 3) 8 < 16)%N.
Proof.
  change 3%N with (N.ones 2). rewrite N.land_ones.
  assert (H : (n mod 2 ^ 2 < 4)%N) by (apply N.mod_lt; discriminate).
  destruct (n mod 2 ^ 2)%N as [|[[q|q|]|[q|q|]|]]; try reflexivity; exfalso; lia.
Qed.

Lemma v_lt_16 (c : ascii) (k : nat) : (v random c k < 16)%N.
Proof.
  unfold v. destruct (Ascii.eqb c "x"%char); [apply r_lt_16|apply variant_lt_16].
Qed.

Lemma toString16_hex (n : N) : isHex (toString16 n) = true.
Proof.
  unfold toString16. generalize (N.to_nat n). intros m.
  do 16 (destruct m as [|m]; [reflexivity|]). destruct m; reflexivity.
Qed.

Lemma hexDigits_NoDup : NoDup hexDigits.
Proof.
  unfold hexDigits. cbn [list_ascii_of_string].
  repeat (constructor; [cbn [In]; intuition discriminate|]). constructor.
Qed.

Lemma toString16_inj (a b : N) :
  (a < 16)%N -> (b < 16)%N -> toString16 a = toString16 b -> a = b.
Proof.
  intros A B H. unfold toString16 in H.
  apply N2Nat.inj.
  apply (proj1 (NoDup_nth hexDigits "0"%char) hexDigits_NoDup);
    [cbn; lia|cbn; lia|exact H].
Qed.

Lemma replaceXY_length (s : list ascii) :
  forall k, List.length (fst (replaceXY random s k)) = List.length s.
Proof.
  induction s as [|c s IH]; intros k; [reflexivity|].
  cbn [replaceXY]. destruct (Ascii.eqb c "x"%char || Ascii.eqb c "y"%char)%bool.
  - specialize (IH (S k)). destruct (replaceXY random s (S k)). cbn in *. now f_equal.
  - specialize (IH k). destruct (replaceXY random s k). cbn in *. now f_equal.
Qed.

(** Two renderings of a template are the same text exactly when the same
    digits were drawn for its placeholders. *)
Lemma replaceXY_eq_iff (s : list ascii) :
  forall k k',
    fst (replaceXY random s k) = fst (replaceXY random s k')
    <-> drawn random s k = drawn random s k'.
Proof.
  induction s as [|c s IH]; intros k k'; [split; reflexivity|].
  cbn [replaceXY drawn].
  destruct (Ascii.eqb c "x"%char || Ascii.eqb c "y"%char)%bool.
  - specialize (IH (S k) (S k')).
    destruct (replaceXY random s (S k)) as [out k1],
             (replaceXY random s (S k')) as [out' k1'].
    cbn [fst] in *. split; intros H; injection H as H1 H2.
    + apply toString16_inj in H1; try apply v_lt_16.
      f_equal; [exact H1|]. apply IH. exact H2.
    + f_equal; [now rewrite H1|]. apply IH. exact H2.
  - specialize (IH k k').
    destruct (replaceXY random s k) as [out k1], (replaceXY random s k') as [out' k1'].
    cbn [fst] in *. split; intros H.
    + injection H as H. apply IH. exact H.
    + f_equal. apply IH. exact H.
Qed.

Lemma string_of_list_ascii_inj (a b : list ascii) :
  string_of_list_ascii a = string_of_list_ascii b -> a = b.
Proof.
  intros H. apply (f_equal list_ascii_of_string) in H.
  now rewrite !list_ascii_of_string_of_list_ascii in H.
Qed.

(** Two identifiers are equal exactly when their 31 digits are. *)
Lemma uuid_eq_iff (k k' : nat) :
  uuid random k = uuid random k' <-> drawn random template k = drawn random template k'.
Proof.
  rewrite <- replaceXY_eq_iff. unfold uuid, generateUUID.
  destruct (replaceXY random template k) as [out k1],
           (replaceXY random template k') as [out' k1'].
  cbn [fst]. split; intros H; [apply string_of_list_ascii_inj; exact H|now rewrite H].
Qed.

(** An identifier takes 31 calls of the random source. *)
Lemma generateUUID_eq (k : nat) : generateUUID random k = (uuid random k, 31 + k).
Proof.
  unfold uuid, generateUUID.
  assert (H : forall s k, snd (replaceXY random s k)
                          = List.length (drawn random s k) + k).
  { clear k. induction s as [|c s IH]; intros k; [reflexivity|].
    cbn [replaceXY drawn].
    destruct (Ascii.eqb c "x"%char || Ascii.eqb c "y"%char)%bool.
    - specialize (IH (S k)). destruct (replaceXY random s (S k)).
      cbn [snd List.length] in *. lia.
    - specialize (IH k). destruct (replaceXY random s k). cbn [snd] in *. exact IH. }
  specialize (H template k).
  destruct (replaceXY random template k) as [out k1]. cbn [fst snd] in *.
  f_equal. exact H.
Qed.

Lemma string_length_of_list (l : list ascii) :
  String.length (string_of_list_ascii l) = List.length l.
Proof. induction l as [|c l IH]; [reflexivity|]. cbn. now rewrite IH. Qed.

(** Every identifier has the standard shape, whatever the random source
    returns. *)
Lemma uuid_shape (k : nat) : uuidShape (uuid random k) = true.
Proof.
  unfold uuidShape. apply andb_true_intro. split.
  - unfold uuid, generateUUID.
    pose proof (replaceXY_length template k) as L.
    destruct (replaceXY random template k) as [out k1]. cbn [fst] in *.
    rewrite string_length_of_list, L. reflexivity.
  - unfold uuid, generateUUID.
    assert (H : forall s i k,
               forallb (fun p =>
                          if (Ascii.eqb (snd p) "x"%char || Ascii.eqb (snd p) "y"%char)%bool
                          then (* a placeholder stands where a digit may *)
                            negb (existsb (Nat.eqb (fst p)) [8; 13; 18; 23])
                            && negb (Nat.eqb (fst p) 14)
                          else if existsb (Nat.eqb (fst p)) [8; 13; 18; 23]
                               then Ascii.eqb (snd p) "-"%char
                               else if Nat.eqb (fst p) 14
                                    then Ascii.eqb (snd p) "4"%char
                                    else isHex (snd p))
                       (combine (seq i (List.length s)) s) = true ->
               shapeFrom i (fst (replaceXY random s k)) = true).
    { clear k. induction s as [|c s IH]; intros i k; [reflexivity|].
      cbn [List.length seq combine forallb fst snd replaceXY].
      intros H. apply andb_true_iff in H. destruct H as [H T].
      destruct (Ascii.eqb c "x"%char || Ascii.eqb c "y"%char)%bool eqn:XY.
      - specialize (IH (S i) (S k) T). destruct (replaceXY random s (S k)).
        cbn [fst shapeFrom] in *. rewrite IH, andb_true_r.
        apply andb_true_iff in H. destruct H as [H1 H2].
        apply negb_true_iff in H1, H2. rewrite H1, H2. apply toString16_hex.
      - specialize (IH (S i) k T). destruct (replaceXY random s k).
        cbn [fst shapeFrom] in *. rewrite IH, andb_true_r. exact H. }
    specialize (H template 0 k).
    destruct (replaceXY random template k) as [out k1]. cbn [fst] in *.
    rewrite list_ascii_of_string_of_list_ascii. apply H. reflexivity.
Qed.

End UuidFacts.

(** ** The exported graph *)

Section ExportFacts.

Import Trainstation.

Variable random : nat -> N.

Lemma block_S (k count : nat) :
  block random k (S count) = uuid random k :: block random (31 + k) count.
Proof.
  unfold block. cbn [seq map]. f_equal. rewrite <- seq_shift, map_map.
  apply map_ext. intros n. f_equal. lia.
Qed.

Lemma block_app (a b k : nat) :
  block random k (a + b) = block random k a ++ block random (31 * a + k) b.
Proof.
  revert k. induction a as [|a IH]; intros k.
  - reflexivity.
  - cbn [Nat.add]. rewrite !block_S, IH. cbn [app]. do 2 f_equal.
    f_equal. lia.
Qed.

Lemma length_block (k count : nat) : List.length (block random k count) = count.
Proof. unfold block. now rewrite length_map, length_seq. Qed.

(** The inner loop: one entity and one identifier per video, in order. *)
Lemma exportVideos_spec (topic : string) (skill : Course.skill) (total : nat)
    (videos : list Video.t) :
  forall videoIndex k,
    match exportVideos random topic skill total videoIndex videos k with
    | (videoEntities, videoIds, k') =>
        map id videoEntities = videoIds
        /\ videoIds = block random k (List.length videos)
        /\ k' = 31 * List.length videos + k
        /\ Forall isVideoEntity videoEntities
    end.
Proof.
  induction videos as [|video rest IH]; intros videoIndex k; cbn [exportVideos].
  - repeat split. constructor.
  - rewrite generateUUID_eq.
    specialize (IH (S videoIndex) (31 + k)).
    destruct (exportVideos random topic skill total (S videoIndex) rest (31 + k))
      as [[videoEntities videoIds] k2].
    destruct IH as (I1 & I2 & I3 & I4).
    cbn [map id List.length]. rewrite block_S.
    repeat split.
    + f_equal. exact I1.
    + f_equal. exact I2.
    + lia.
    + constructor; [split; reflexivity|exact I4].
Qed.

(** The body of the outer loop: the video entities of the skill, then its
    section, whose children are the identifiers of those videos. *)
Lemma exportSkill_spec (topic : string) (skill : Course.skill) (k : nat) :
  match exportSkill random topic skill k with
  | (pushed, sectionId, k') =>
      sectionId = uuid random k
      /\ k' = 31 * (1 + videoCount skill) + k
      /\ exists videoEntities sectionEntity,
           pushed = videoEntities ++ [sectionEntity]
           /\ Forall isVideoEntity videoEntities
           /\ map id videoEntities = block random (31 + k) (videoCount skill)
           /\ id sectionEntity = sectionId
           /\ type sectionEntity = "section"
           /\ children sectionEntity = map id videoEntities
           /\ attribute "title" sectionEntity = Some (Course.name skill)
  end.
Proof.
  unfold exportSkill, videoCount. rewrite generateUUID_eq.
  destruct (Course.videos skill) as [[|video rest]|].
  - split; [reflexivity|]. split; [cbn; lia|].
    exists [], {| id := uuid random k; type := "section"; status := "public";
                  labels := [topic]; children := [];
                  attributes := [("title", Course.name skill);
                                 ("description", Course.description skill)] |}.
    repeat split. constructor.
  - pose proof (exportVideos_spec topic skill (List.length (video :: rest))
                  (video :: rest) 0 (31 + k)) as S.
    destruct (exportVideos random topic skill (List.length (video :: rest)) 0
                (video :: rest) (31 + k)) as [[videoEntities videoIds] k2].
    destruct S as (S1 & S2 & S3 & S4).
    split; [reflexivity|]. split; [lia|].
    eexists videoEntities, _. split; [reflexivity|].
    repeat split; try assumption; try reflexivity.
    + rewrite S1. exact S2.
    + cbn [children]. symmetry. exact S1.
  - split; [reflexivity|]. split; [cbn; lia|].
    exists [], {| id := uuid random k; type := "section"; status := "public";
                  labels := [topic]; children := [];
                  attributes := [("title", Course.name skill);
                                 ("description", Course.description skill)] |}.
    repeat split. constructor.
Qed.

Lemma sections_of_videos (es : list Entity) :
  Forall isVideoEntity es -> sections es = [].
Proof.
  induction 1 as [|e es [T _] _ IH]; [reflexivity|].
  unfold sections in *. cbn [filter]. unfold isSection at 1. rewrite T. exact IH.
Qed.

(** What the outer loop leaves in [entities] and [sectionIds]. *)
Lemma exportSkills_spec (topic : string) (skills : list Course.skill) :
  forall k,
    match exportSkills random topic skills k with
    | (es, sectionIds, k') =>
        List.length es = List.length skills + totalVideos skills
        /\ k' = 31 * (List.length skills + totalVideos skills) + k
        /\ map id (sections es) = sectionIds
        /\ map (attribute "title") (sections es)
           = map (fun skill => Some (Course.name skill)) skills
        /\ map (fun e => List.length (children e)) (sections es)
           = map videoCount skills
        /\ (forall e c, In e es -> In c (children e) -> In c (map id es))
        /\ Permutation (map id es)
                       (block random k (List.length skills + totalVideos skills))
        /\ Forall (fun e => type e <> "root") es
    end.
Proof.
  induction skills as [|skill rest IH]; intros k; cbn [exportSkills].
  - repeat split; try constructor. intros e c [].
  - pose proof (exportSkill_spec topic skill k) as S.
    destruct (exportSkill random topic skill k) as [[pushed sectionId] k1].
    destruct S as (S1 & S2 & ves & sec & -> & V & Vid & Sid & Sty & Sch & Stitle).
    specialize (IH k1).
    destruct (exportSkills random topic rest k1) as [[es sectionIds] k2].
    destruct IH as (I1 & I2 & I3 & I4 & I5 & I6 & I7 & I8).
    assert (SecV : sections ves = []) by (apply sections_of_videos; exact V).
    assert (SecS : sections ((ves ++ [sec]) ++ es) = sec :: sections es).
    { unfold sections in *. rewrite !filter_app, SecV. cbn [filter app].
      unfold isSection at 1. rewrite Sty. reflexivity. }
    assert (LenV : List.length ves = videoCount skill).
    { rewrite <- (length_map id), Vid. apply length_block. }
    cbn [List.length totalVideos fold_right map].
    fold (totalVideos rest).
    split. { rewrite !length_app, I1. cbn [List.length]. lia. }
    split. { subst k1. lia. }
    split. { rewrite SecS. cbn [map]. now rewrite Sid, I3. }
    split. { rewrite SecS. cbn [map]. now rewrite Stitle, I4. }
    split. { rewrite SecS. cbn [map]. now rewrite Sch, length_map, LenV, I5. }
    split.
    { intros e c He Hc. rewrite map_app. apply in_or_app.
      apply in_app_or in He. destruct He as [He|He].
      - left. rewrite map_app. apply in_or_app. left.
        apply in_app_or in He. destruct He as [He|[<-|[]]].
        + rewrite Forall_forall in V. destruct (V e He) as [_ C].
          rewrite C in Hc. destruct Hc.
        + rewrite Sch in Hc. exact Hc.
      - right. exact (I6 e c He Hc). }
    split.
    { replace (S (List.length rest) + (videoCount skill + totalVideos rest))
        with ((1 + videoCount skill) + (List.length rest + totalVideos rest)) by lia.
      rewrite block_app, !map_app. apply Permutation_app.
      - cbn [Nat.add]. rewrite block_S, Vid. cbn [map].
        rewrite Sid, S1. apply Permutation_sym, Permutation_cons_append.
      - subst k1. exact I7. }
    apply Forall_app. split; [|exact I8].
    apply Forall_app. split.
    + eapply Forall_impl; [|exact V]. intros e [T _]. rewrite T. discriminate.
    + constructor; [|constructor]. rewrite Sty. discriminate.
Qed.

End ExportFacts.

Section ExportClaims.

Import Trainstation.

Variable random : nat -> N.

Lemma NoDup_map_equiv {A B C : Type} (f : A -> B) (g : A -> C) (l : list A) :
  (forall a b, f a = f b <-> g a = g b) ->
  NoDup (map f l) <-> NoDup (map g l).
Proof.
  intros E. induction l as [|a l IH]; cbn [map].
  - split; constructor.
  - rewrite !NoDup_cons_iff, IH.
    assert (M : In (f a) (map f l) <-> In (g a) (map g l)).
    { rewrite !in_map_iff. split; intros (b & H & I); exists b; split;
        try exact I; apply E; exact H. }
    rewrite M. reflexivity.
Qed.

(** The structure of the graph exported for a course. *)
Lemma export_structure (course : Course.t) (now : string) :
  exists export rootEntity es,
    exportToTrainstation random (Some course) now = Some export
    /\ entities export = es ++ [rootEntity]
    /\ id rootEntity = root export
    /\ root export = uuid random 0
    /\ type rootEntity = "root"
    /\ children rootEntity = map id (sections (entities export))
    /\ List.length (entities export)
       = 1 + List.length (Course.skills course) + totalVideos (Course.skills course)
    /\ map (attribute "title") (sections (entities export))
       = map (fun skill => Some (Course.name skill)) (Course.skills course)
    /\ map (fun e => List.length (children e)) (sections (entities export))
       = map videoCount (Course.skills course)
    /\ (forall e c, In e (entities export) -> In c (children e) ->
                    In c (map id (entities export)))
    /\ Permutation (map id (entities export))
                   (block random 0 (List.length (entities export))).
Proof.
  cbn [exportToTrainstation]. rewrite generateUUID_eq.
  pose proof (exportSkills_spec random (Course.topic course) (Course.skills course)
                (31 + 0)) as S.
  destruct (exportSkills random (Course.topic course) (Course.skills course) (31 + 0))
    as [[es sectionIds] k2].
  destruct S as (S1 & S2 & S3 & S4 & S5 & S6 & S7 & S8).
  assert (Sec : sections (es ++ [{| id := uuid random 0; type := "root";
                                    status := "public"; labels := [];
                                    children := sectionIds;
                                    attributes :=
                                      [("title", Course.topic course);
                                       ("description",
                                         ("AI-genererad kurs om " ++ Course.topic course)%string)] |}])
                = sections es).
  { unfold sections. rewrite filter_app. cbn [filter]. apply app_nil_r. }
  eexists _, _, es. split; [reflexivity|]. cbn [entities root id type children].
  split; [reflexivity|]. split; [reflexivity|]. split; [reflexivity|].
  split; [reflexivity|].
  rewrite Sec.
  split; [symmetry; exact S3|].
  split; [rewrite length_app, S1; cbn [List.length]; lia|].
  split; [exact S4|]. split; [exact S5|].
  split.
  { intros e c He Hc. rewrite map_app. apply in_or_app.
    apply in_app_or in He. destruct He as [He|[<-|[]]].
    - left. exact (S6 e c He Hc).
    - left. cbn [children] in Hc. rewrite <- S3 in Hc.
      apply in_map_iff in Hc. destruct Hc as (sec & <- & I).
      apply in_map. unfold sections in I. apply filter_In in I. exact (proj1 I). }
  rewrite length_app, S1. cbn [List.length].
  replace (List.length (Course.skills course) + totalVideos (Course.skills course) + 1)
    with (S (List.length (Course.skills course) + totalVideos (Course.skills course)))
    by lia.
  rewrite block_S, map_app. cbn [map id].
  eapply perm_trans; [apply Permutation_sym, Permutation_cons_append|].
  apply perm_skip. exact S7.
Qed.

(** C3, amended. The graph of a course with n skills, skill i with v_i
    videos, has exactly 1 + n + (v_1 + ... + v_n) entities (6 for two skills
    with 3 and 0 videos); the children of the root are the identifiers of the
    n sections, in the order of the skills; the section of skill i has v_i
    children, none for a skill without videos; every identifier in a
    children list is the identifier of an entity of the graph, and of
    exactly one when the generated identifiers are pairwise different. *)
Theorem export_entity_graph (course : Course.t) (now : string) :
  exists export rootEntity es,
    exportToTrainstation random (Some course) now = Some export
    /\ entities export = es ++ [rootEntity]
    /\ id rootEntity = root export
    /\ type rootEntity = "root"
    /\ List.length (entities export)
       = 1 + List.length (Course.skills course) + totalVideos (Course.skills course)
    /\ children rootEntity = map id (sections (entities export))
    /\ List.length (children rootEntity) = List.length (Course.skills course)
    /\ map (attribute "title") (sections (entities export))
       = map (fun skill => Some (Course.name skill)) (Course.skills course)
    /\ map (fun e => List.length (children e)) (sections (entities export))
       = map videoCount (Course.skills course)
    /\ (forall i skill,
          nth_error (Course.skills course) i = Some skill -> videoCount skill = 0 ->
          exists e, nth_error (sections (entities export)) i = Some e
                    /\ children e = []
                    /\ attribute "title" e = Some (Course.name skill))
    /\ (forall e c, In e (entities export) -> In c (children e) ->
                    In c (map id (entities export)))
    /\ (NoDup (map id (entities export)) ->
        forall e c, In e (entities export) -> In c (children e) ->
                    count_occ string_dec (map id (entities export)) c = 1)
    /\ (course = Samples.threeAndNone -> List.length (entities export) = 6).
Proof.
  destruct (export_structure course now)
    as (export & rootEntity & es & E & Es & Rid & _ & Rty & Rch & Len & Titles
        & Counts & Closed & _).
  exists export, rootEntity, es.
  split; [exact E|]. split; [exact Es|]. split; [exact Rid|]. split; [exact Rty|].
  split; [exact Len|]. split; [exact Rch|].
  split.
  { rewrite Rch, length_map.
    rewrite <- (length_map (fun e => List.length (children e))), Counts.
    apply length_map. }
  split; [exact Titles|]. split; [exact Counts|].
  split.
  { intros i skill Hi Z.
    pose proof (f_equal (fun l => nth_error l i) Counts) as C.
    pose proof (f_equal (fun l => nth_error l i) Titles) as T.
    cbn beta in C, T. rewrite !nth_error_map, Hi in C, T. cbn [option_map] in C, T.
    destruct (nth_error (sections (entities export)) i) as [e|]; [|discriminate C].
    cbn [option_map] in C, T. exists e. split; [reflexivity|].
    injection C as C. injection T as T. split; [|exact T].
    rewrite Z in C. destruct (children e); [reflexivity|discriminate C]. }
  split; [exact Closed|].
  split.
  { intros ND e c He Hc. pose proof (Closed e c He Hc) as I.
    apply (count_occ_In string_dec) in I.
    pose proof (proj1 (NoDup_count_occ string_dec _) ND c). lia. }
  intros ->. rewrite Len. reflexivity.
Qed.

(** C9, amended. Every identifier is a 36-character hyphenated string of
    the standard shape, whatever the random source returns; two identifiers
    are equal exactly when the 31 hexadecimal digits drawn for them are
    equal, so the identifiers of one export are pairwise different exactly
    when their digit sequences are. *)
Theorem export_identifiers (course : Course.t) (now : string) :
  (forall k, uuidShape (uuid random k) = true)
  /\ (forall k k', uuid random k = uuid random k'
                   <-> drawn random template k = drawn random template k')
  /\ exists export,
       exportToTrainstation random (Some course) now = Some export
       /\ uuidShape (root export) = true
       /\ (forall e, In e (entities export) -> uuidShape (id e) = true)
       /\ Permutation (map id (entities export))
                      (block random 0 (List.length (entities export)))
       /\ (NoDup (map id (entities export))
           <-> NoDup (map (fun n => drawn random template (31 * n))
                          (seq 0 (List.length (entities export))))).
Proof.
  split; [apply uuid_shape|]. split; [apply uuid_eq_iff|].
  destruct (export_structure course now)
    as (export & rootEntity & es & E & _ & _ & R & _ & _ & _ & _ & _ & _ & P).
  exists export. split; [exact E|].
  split; [rewrite R; apply uuid_shape|].
  split.
  { intros e He.
    assert (I : In (id e) (block random 0 (List.length (entities export)))).
    { eapply Permutation_in; [exact P|]. apply in_map. exact He. }
    unfold block in I. apply in_map_iff in I. destruct I as (n & <- & _).
    apply uuid_shape. }
  split; [exact P|].
  transitivity (NoDup (block random 0 (List.length (entities export)))).
  - split; apply Permutation_NoDup; [exact P|apply Permutation_sym; exact P].
  - unfold block. apply NoDup_map_equiv. intros a b.
    rewrite !Nat.add_0_r. apply uuid_eq_iff.
Qed.

End ExportClaims.

(** C3, refuted as stated: with a random source that always returns 0 the
    course of one skill with one video is exported as three entities with
    the same identifier, and each identifier in a children list (the video
    under its section, the section under the root) matches three entities. *)
Lemma export_child_matches_three_entities :
  option_map
    (fun export =>
       map (fun c => count_occ string_dec
                       (map Trainstation.id (Trainstation.entities export)) c)
           (flat_map Trainstation.children (Trainstation.entities export)))
    (Trainstation.exportToTrainstation Samples.stuck (Some Samples.oneVideo) "now")
  = Some [3; 3].
Proof. vm_compute. reflexivity. Qed.

(** The amended claim at a random source whose digits count up: the six
    identifiers of the export of the course with 3 and 0 videos are pairwise
    different, so each child identifier matches exactly one entity. *)
Lemma export_entity_graph_witness :
  exists export,
    Trainstation.exportToTrainstation Samples.counting (Some Samples.threeAndNone) "now"
    = Some export
    /\ NoDup (map Trainstation.id (Trainstation.entities export))
    /\ List.length (Trainstation.entities export) = 6
    /\ forall e c,
         In e (Trainstation.entities export) -> In c (Trainstation.children e) ->
         count_occ string_dec (map Trainstation.id (Trainstation.entities export)) c = 1.
Proof.
  destruct (export_entity_graph Samples.counting Samples.threeAndNone "now")
    as (export & rootEntity & es & E & _ & _ & _ & _ & _ & _ & _ & _ & _ & _ & U & L).
  exists export. split; [exact E|].
  assert (ND : NoDup (map Trainstation.id (Trainstation.entities export))).
  { vm_compute in E. injection E as <-. cbn [map Trainstation.id Trainstation.entities].
    repeat (constructor; [cbn [In]; intuition discriminate|]). constructor. }
  split; [exact ND|]. split; [exact (L eq_refl)|]. exact (U ND).
Defined.

(** C9, refuted as stated: with a random source that always returns 0 the
    three identifiers generated in one export are the same. *)
Lemma export_identifiers_collide :
  option_map (fun export => map Trainstation.id (Trainstation.entities export))
    (Trainstation.exportToTrainstation Samples.stuck (Some Samples.oneVideo) "now")
  = Some [Samples.zeros; Samples.zeros; Samples.zeros].
Proof. vm_compute. reflexivity. Qed.

(** ** Video enrichment *)

Section EnrichmentFacts.

Import Youtube Enrichment.

Variable topic : string.
Variable respond : nat -> nat -> FetchResult.

(** *** One answer *)

Lemma onResponse_flow (term : string) (r : FetchResult) (vs : list Video.t)
    (sh : Shared) :
  fst (fst (onResponse term r vs sh)) = if breaks r then Break else Continue.
Proof.
  destruct r as [msg|[[e|] its]]; cbn [onResponse breaks error items].
  - reflexivity.
  - destruct (quotaExceeded e); reflexivity.
  - destruct its as [[|[item|msg|item msg] its]|]; reflexivity.
Qed.

Lemma onResponse_videos (term : string) (r : FetchResult) (vs : list Video.t)
    (sh : Shared) :
  snd (fst (onResponse term r vs sh))
  = if yields r then plainOnResponse term r vs else vs.
Proof.
  destruct r as [msg|[[e|] its]];
    cbn [onResponse yields builds plainOnResponse error items].
  - reflexivity.
  - destruct (quotaExceeded e); reflexivity.
  - destruct its as [[|[item|msg|item msg] its]|]; reflexivity.
Qed.

(** What an answer does to the shared state: the counter of the successes
    goes up when the answer counts as one, the counter of the failures when
    it counts as one, at most one error is recorded, and none without a
    failure; the rest stays. *)
Lemma onResponse_shared (term : string) (r : FetchResult) (vs : list Video.t)
    (sh : Shared) :
  let sh' := snd (onResponse term r vs sh) in
  totalSearches sh' = totalSearches sh
  /\ fetched sh' = fetched sh
  /\ answered sh' = answered sh
  /\ successfulSearches sh' = successfulSearches sh + (if counts r then 1 else 0)
  /\ failedSearches sh' = failedSearches sh + (if fails r then 1 else 0)
  /\ exists recorded,
       youtubeErrors sh' = youtubeErrors sh ++ recorded
       /\ (fails r = false -> recorded = [])
       /\ List.length recorded <= 1.
Proof.
  destruct r as [msg|[[e|] its]]; cbn [onResponse counts fails error items].
  - cbn. repeat split; try lia. exists [fetchError term msg].
    split; [reflexivity|]. split; [discriminate|cbn; lia].
  - destruct (quotaExceeded e); cbn; repeat split; try lia;
      exists [errorInfo term e]; (split; [reflexivity|]);
      (split; [discriminate|cbn; lia]).
  - destruct its as [[|[item|msg|item msg] its]|]; cbn; repeat split; try lia;
      try (exists []; rewrite app_nil_r; (split; [reflexivity|]);
           (split; [reflexivity|cbn; lia]));
      exists [fetchError term msg]; (split; [reflexivity|]);
      (split; [discriminate|cbn; lia]).
Qed.

(** *** Lists of closures *)

Lemma nth_error_update {A : Type} (l : list A) (i k : nat) (x : A) :
  nth_error (update i x l) k
  = if Nat.eqb k i then option_map (fun _ => x) (nth_error l k) else nth_error l k.
Proof.
  revert i k. induction l as [|y l IH]; intros [|i] [|k]; cbn; try reflexivity.
  - destruct (Nat.eqb k i); reflexivity.
  - apply IH.
Qed.

Lemma length_update {A : Type} (l : list A) (i : nat) (x : A) :
  List.length (update i x l) = List.length l.
Proof.
  revert i. induction l as [|y l IH]; intros [|i]; cbn; try reflexivity.
  now rewrite IH.
Qed.

(** Replacing one closure changes a sum over the closures by the
    difference of the two summands. *)
Lemma sum_update {A : Type} (f : A -> nat) (l : list A) (i : nat) (x y : A) :
  nth_error l i = Some x ->
  fold_right (fun t n => f t + n) 0 (update i y l) + f x
  = fold_right (fun t n => f t + n) 0 l + f y.
Proof.
  revert i. induction l as [|z l IH]; intros [|i] H; cbn in *; try discriminate.
  - injection H as ->. lia.
  - specialize (IH i H). lia.
Qed.

Lemma inflight_as_sum (ts : list Task) :
  inflight ts = fold_right (fun t n => (if returned t then 0 else 1) + n) 0 ts.
Proof.
  unfold inflight. induction ts as [|t ts IH]; [reflexivity|].
  cbn [filter fold_right]. destruct (returned t); cbn [negb List.length]; lia.
Qed.


(** *** One turn of the event loop *)

Lemma loopHead_eq (i j : nat) (terms : list string) (sh : Shared) :
  loopHead topic i j terms sh
  = (phaseAt j terms,
     {| totalSearches := List.length (firstRequest topic i j terms) + totalSearches sh;
        successfulSearches := successfulSearches sh;
        failedSearches := failedSearches sh;
        youtubeErrors := youtubeErrors sh;
        fetched := fetched sh ++ firstRequest topic i j terms;
        answered := answered sh |}).
Proof.
  destruct terms as [|term rest]; cbn [loopHead phaseAt firstRequest List.length].
  - rewrite app_nil_r. destruct sh; reflexivity.
  - reflexivity.
Qed.

(** The requests a resumed closure sends next. *)
Lemma resume_awaiting (i : nat) (t : Task) (sh : Shared) (j : nat) (term : string)
    (rest : list string) :
  phase t = Awaiting j term rest ->
  let r := respond i j in
  let sent := if breaks r then [] else firstRequest topic i (S j) rest in
  let t' := fst (resume topic respond i t sh) in
  let sh' := snd (resume topic respond i t sh) in
  skillOf t' = skillOf t
  /\ videos t' = (if yields r then plainOnResponse term r (videos t) else videos t)
  /\ phase t' = (if breaks r then Returned else phaseAt (S j) rest)
  /\ fetched sh' = fetched sh ++ sent
  /\ answered sh' = answered sh ++ [request topic i j term]
  /\ totalSearches sh' = totalSearches sh + List.length sent
  /\ successfulSearches sh' = successfulSearches sh + (if counts r then 1 else 0)
  /\ failedSearches sh' = failedSearches sh + (if fails r then 1 else 0)
  /\ exists recorded,
       youtubeErrors sh' = youtubeErrors sh ++ recorded
       /\ (fails r = false -> recorded = [])
       /\ List.length recorded <= 1.
Proof.
  intros P r sent t' sh'. subst t' sh'. unfold resume. rewrite P. fold r.
  pose proof (onResponse_flow term r (videos t)
                (receive (request topic i j term) sh)) as F.
  pose proof (onResponse_videos term r (videos t)
                (receive (request topic i j term) sh)) as V.
  pose proof (onResponse_shared term r (videos t)
                (receive (request topic i j term) sh)) as S.
  destruct (onResponse term r (videos t) (receive (request topic i j term) sh))
    as [[flow vs] sh1].
  cbn [fst snd] in F, V, S. cbn zeta in S.
  destruct S as (S1 & S2 & S3 & S4 & S5 & recorded & S6 & S7 & S8).
  cbn [receive totalSearches fetched answered successfulSearches failedSearches
       youtubeErrors] in S1, S2, S3, S4, S5, S6.
  subst sent. destruct (breaks r).
  - subst flow. cbn [fst snd skillOf videos phase].
    rewrite app_nil_r. cbn [List.length]. rewrite Nat.add_0_r.
    repeat split; try assumption. exists recorded. repeat split; assumption.
  - subst flow. rewrite loopHead_eq. cbn [fst snd skillOf videos phase fetched answered
      totalSearches successfulSearches failedSearches youtubeErrors].
    rewrite S1, S2.
    repeat split; try assumption; try lia.
    exists recorded. repeat split; assumption.
Qed.

Lemma update_same {A : Type} (l : list A) (i : nat) (x : A) :
  nth_error l i = Some x -> update i x l = l.
Proof.
  revert i. induction l as [|y l IH]; intros [|i] H; cbn in *; try discriminate.
  - injection H as ->. reflexivity.
  - now rewrite IH.
Qed.

(** A turn either changes nothing (no such closure, or it has returned) or
    resumes a suspended closure. *)
Lemma step_cases (i : nat) (m : Machine) :
  step topic respond i m = m
  \/ exists t j term rest,
       nth_error (tasks m) i = Some t
       /\ phase t = Awaiting j term rest
       /\ step topic respond i m
          = {| tasks := update i (fst (resume topic respond i t (shared m))) (tasks m);
               shared := snd (resume topic respond i t (shared m)) |}.
Proof.
  unfold step. destruct (nth_error (tasks m) i) as [t|] eqn:N; [|left; reflexivity].
  destruct (phase t) as [j term rest|] eqn:P.
  - right. exists t, j, term, rest. split; [reflexivity|]. split; [exact P|].
    destruct (resume topic respond i t (shared m)). reflexivity.
  - left. unfold resume. rewrite P. rewrite (update_same _ _ _ N).
    destruct m; reflexivity.
Qed.

Lemma run_snoc (schedule : list nat) (i : nat) (m : Machine) :
  run topic respond (schedule ++ [i]) m
  = step topic respond i (run topic respond schedule m).
Proof. unfold run. rewrite fold_left_app. reflexivity. Qed.

(** *** The counters *)

Lemma yieldsAt_request (i j : nat) (term : string) :
  yieldsAt respond (request topic i j term) = yields (respond i j).
Proof. reflexivity. Qed.

Lemma countsAt_request (i j : nat) (term : string) :
  countsAt respond (request topic i j term) = counts (respond i j).
Proof. reflexivity. Qed.

Lemma failsAt_request (i j : nat) (term : string) :
  failsAt respond (request topic i j term) = fails (respond i j).
Proof. reflexivity. Qed.

Lemma inflight_update (ts : list Task) (i : nat) (t t' : Task) :
  nth_error ts i = Some t ->
  inflight (update i t' ts) + (if returned t then 0 else 1)
  = inflight ts + (if returned t' then 0 else 1).
Proof.
  intros H. rewrite !inflight_as_sum.
  exact (sum_update (fun t => if returned t then 0 else 1) ts i t t' H).
Qed.

Lemma Counted_step (i : nat) (m : Machine) :
  Counted respond m -> Counted respond (step topic respond i m).
Proof.
  intros C. destruct (step_cases i m) as [->|(t & j & term & rest & N & P & ->)];
    [exact C|].
  destruct C as (C1 & C2 & C3 & C4 & C5).
  destruct (resume_awaiting i t (shared m) j term rest P)
    as (R1 & R2 & R3 & R4 & R5 & R6 & R7 & R8 & recorded & R9 & R10 & R11).
  pose proof (inflight_update (tasks m) i t
                (fst (resume topic respond i t (shared m))) N) as I.
  unfold returned in I. rewrite P, R3 in I.
  unfold Counted. cbn [tasks shared].
  rewrite R4, R5, R6, R7, R8, R9, !length_app, !filter_app, !length_app.
  cbn [filter]. rewrite countsAt_request, failsAt_request.
  assert (Sent : List.length (if breaks (respond i j) then []
                              else firstRequest topic i (S j) rest)
                 = if breaks (respond i j) then 0
                   else match phaseAt (S j) rest with Returned => 0 | _ => 1 end).
  { destruct (breaks (respond i j)); [reflexivity|]. destruct rest; reflexivity. }
  rewrite Sent.
  assert (I' : inflight (update i (fst (resume topic respond i t (shared m))) (tasks m)) + 1
               = inflight (tasks m)
                 + (if breaks (respond i j) then 0
                    else match phaseAt (S j) rest with Returned => 0 | _ => 1 end)).
  { rewrite I. destruct (breaks (respond i j)); [reflexivity|].
    destruct (phaseAt (S j) rest); reflexivity. }
  destruct (counts (respond i j)), (fails (respond i j)) eqn:Y; cbn [List.length];
    try (rewrite (R10 eq_refl); cbn [List.length]); repeat split; lia.
Qed.

(** What [map] leaves behind: the started closures, and one request for each
    skill that has a search term. *)
Lemma spawnFrom_eq (skills : list Skill.t) :
  forall i sh,
    spawnFrom topic i skills sh
    = (map started skills,
       {| totalSearches :=
            List.length (List.concat (mapFrom (fun i skill =>
                           firstRequest topic i 0 (Skill.searchTerms skill)) i skills))
            + totalSearches sh;
          successfulSearches := successfulSearches sh;
          failedSearches := failedSearches sh;
          youtubeErrors := youtubeErrors sh;
          fetched :=
            fetched sh
            ++ List.concat (mapFrom (fun i skill =>
                         firstRequest topic i 0 (Skill.searchTerms skill)) i skills);
          answered := answered sh |}).
Proof.
  induction skills as [|skill rest IH]; intros i sh; cbn [spawnFrom mapFrom List.concat map].
  - rewrite app_nil_r. destruct sh; reflexivity.
  - unfold spawn. rewrite loopHead_eq, IH.
    cbn [totalSearches successfulSearches failedSearches youtubeErrors fetched answered].
    unfold started at 1. f_equal. rewrite length_app, <- app_assoc. f_equal. lia.
Qed.

Lemma launch_eq (skills : list Skill.t) :
  launch topic skills
  = {| tasks := map started skills;
       shared :=
         {| totalSearches :=
              List.length (List.concat (mapFrom (fun i skill =>
                             firstRequest topic i 0 (Skill.searchTerms skill)) 0 skills));
            successfulSearches := 0;
            failedSearches := 0;
            youtubeErrors := [];
            fetched :=
              List.concat (mapFrom (fun i skill =>
                        firstRequest topic i 0 (Skill.searchTerms skill)) 0 skills);
            answered := [] |} |}.
Proof.
  unfold launch. rewrite spawnFrom_eq. cbn. rewrite Nat.add_0_r. reflexivity.
Qed.

Lemma first_requests_inflight (skills : list Skill.t) :
  forall i,
    List.length (List.concat (mapFrom (fun i skill =>
                   firstRequest topic i 0 (Skill.searchTerms skill)) i skills))
    = inflight (map started skills).
Proof.
  induction skills as [|skill rest IH]; intros i; [reflexivity|].
  cbn [mapFrom List.concat map]. rewrite length_app, IH.
  unfold inflight. cbn [filter]. unfold returned at 2, started at 2. cbn [phase].
  destruct (Skill.searchTerms skill); reflexivity.
Qed.

Lemma Counted_launch (skills : list Skill.t) : Counted respond (launch topic skills).
Proof.
  rewrite launch_eq. unfold Counted. cbn [tasks shared totalSearches successfulSearches
    failedSearches youtubeErrors fetched answered filter List.length].
  repeat split; try lia.
  cbn [Nat.add]. apply first_requests_inflight.
Qed.

Lemma Counted_run (skills : list Skill.t) (schedule : list nat) :
  Counted respond (run topic respond schedule (launch topic skills)).
Proof.
  induction schedule as [|i schedule IH] using rev_ind.
  - apply Counted_launch.
  - rewrite run_snoc. apply Counted_step. exact IH.
Qed.

(** *** Every closure follows its own loop *)

Lemma ofSkillOnly_firstRequest (i i' j : nat) (terms : list string) :
  ofSkillOnly i' (firstRequest topic i j terms)
  = if Nat.eqb i i' then firstRequest topic i j terms else [].
Proof.
  destruct terms as [|term rest]; cbn; destruct (Nat.eqb i i'); reflexivity.
Qed.

Lemma ofSkillOnly_app (i : nat) (l l' : list Request) :
  ofSkillOnly i (l ++ l') = ofSkillOnly i l ++ ofSkillOnly i l'.
Proof. apply filter_app. Qed.

Lemma first_requests_before (skills : list Skill.t) :
  forall i0 i,
    i < i0 ->
    ofSkillOnly i (List.concat (mapFrom (fun i skill =>
                     firstRequest topic i 0 (Skill.searchTerms skill)) i0 skills))
    = [].
Proof.
  induction skills as [|skill rest IH]; intros i0 i L; [reflexivity|].
  cbn [mapFrom List.concat]. rewrite ofSkillOnly_app, ofSkillOnly_firstRequest.
  replace (Nat.eqb i0 i) with false by (symmetry; apply Nat.eqb_neq; lia).
  apply IH. lia.
Qed.

Lemma first_requests_at (skills : list Skill.t) :
  forall i0 k skill,
    nth_error skills k = Some skill ->
    ofSkillOnly (i0 + k) (List.concat (mapFrom (fun i skill =>
                            firstRequest topic i 0 (Skill.searchTerms skill)) i0 skills))
    = firstRequest topic (i0 + k) 0 (Skill.searchTerms skill).
Proof.
  induction skills as [|first rest IH]; intros i0 [|k] skill H; cbn in H; try discriminate.
  - injection H as ->. cbn [mapFrom List.concat].
    rewrite ofSkillOnly_app, ofSkillOnly_firstRequest, Nat.add_0_r, Nat.eqb_refl.
    rewrite first_requests_before by lia. apply app_nil_r.
  - cbn [mapFrom List.concat]. rewrite ofSkillOnly_app, ofSkillOnly_firstRequest.
    replace (Nat.eqb i0 (i0 + S k)) with false by (symmetry; apply Nat.eqb_neq; lia).
    replace (i0 + S k) with (S i0 + k) by lia. apply IH. exact H.
Qed.

Lemma Consistent_launch (skills : list Skill.t) :
  Consistent topic respond skills (launch topic skills).
Proof.
  rewrite launch_eq. split; cbn [tasks shared]; [apply length_map|].
  intros i t H. rewrite nth_error_map in H.
  destruct (nth_error skills i) as [skill|] eqn:N; [|discriminate H].
  injection H as <-. unfold OnTrack. cbn [fetched answered skillOf started].
  pose proof (first_requests_at skills 0 i skill N) as F. cbn [Nat.add] in F.
  rewrite F. unfold futureRequests, finalVideos, pending, started.
  cbn [phase videos skillOf ofSkillOnly filter].
  split; [exact N|].
  destruct (Skill.searchTerms skill) as [|term rest]; cbn [phaseAt firstRequest];
    repeat split; reflexivity.
Qed.

Lemma Consistent_step (skills : list Skill.t) (i : nat) (m : Machine) :
  Consistent topic respond skills m ->
  Consistent topic respond skills (step topic respond i m).
Proof.
  intros [L C]. destruct (step_cases i m) as [->|(t & j & term & rest & N & P & ->)];
    [split; assumption|].
  destruct (resume_awaiting i t (shared m) j term rest P)
    as (R1 & R2 & R3 & R4 & R5 & _).
  split; cbn [tasks shared]; [rewrite length_update; exact L|].
  intros k u H. rewrite nth_error_update in H.
  destruct (Nat.eqb k i) eqn:E.
  - apply Nat.eqb_eq in E. subst k. rewrite N in H. cbn [option_map] in H.
    injection H as <-.
    destruct (C i t N) as (T1 & T2 & T3 & T4).
    unfold OnTrack. rewrite R1, R4, R5, !ofSkillOnly_app.
    unfold futureRequests, finalVideos, pending in *. rewrite R2, R3. rewrite P in T2, T3, T4.
    cbn [soloVideos] in T3.
    assert (Own : forall l, (forall r, In r l -> ofSkill r = i) -> ofSkillOnly i l = l).
    { intros l. induction l as [|r l IH]; intros A; [reflexivity|].
      cbn [ofSkillOnly filter]. rewrite (proj2 (Nat.eqb_eq _ _) (A r (or_introl eq_refl))).
      f_equal. apply IH. intros r' I. apply A. right. exact I. }
    rewrite (Own [request topic i j term]) by (intros r [<-|[]]; reflexivity).
    split; [exact T1|].
    destruct (breaks (respond i j)).
    + cbn [ofSkillOnly filter]. rewrite !app_nil_r in *.
      repeat split; [exact T2|exact T3|]. rewrite <- T4. reflexivity.
    + rewrite ofSkillOnly_firstRequest, Nat.eqb_refl.
      destruct rest as [|term' rest']; cbn [phaseAt firstRequest soloRequests soloVideos] in *.
      * rewrite !app_nil_r in *. repeat split; [exact T2|exact T3|].
        rewrite <- T4. reflexivity.
      * repeat split.
        -- rewrite <- T2, <- app_assoc. reflexivity.
        -- exact T3.
        -- rewrite <- T4, <- app_assoc. reflexivity.
  - destruct (C k u H) as (T1 & T2 & T3 & T4).
    apply Nat.eqb_neq in E.
    assert (Other : forall l, (forall r, In r l -> ofSkill r = i) -> ofSkillOnly k l = []).
    { intros l. induction l as [|r l IH]; intros A; [reflexivity|].
      cbn [ofSkillOnly filter]. rewrite (A r (or_introl eq_refl)).
      replace (Nat.eqb i k) with false by (symmetry; apply Nat.eqb_neq; lia).
      apply IH. intros r' I. apply A. right. exact I. }
    unfold OnTrack. rewrite R4, R5, !ofSkillOnly_app.
    rewrite (Other [request topic i j term]) by (intros r [<-|[]]; reflexivity).
    rewrite (Other (if breaks (respond i j) then [] else firstRequest topic i (S j) rest)).
    + rewrite !app_nil_r. repeat split; assumption.
    + intros r I. destruct (breaks (respond i j)); [destruct I|].
      destruct rest; [destruct I|]. destruct I as [<-|[]]. reflexivity.
Qed.

Lemma Consistent_run (skills : list Skill.t) (schedule : list nat) :
  Consistent topic respond skills (run topic respond schedule (launch topic skills)).
Proof.
  induction schedule as [|i schedule IH] using rev_ind.
  - apply Consistent_launch.
  - rewrite run_snoc. apply Consistent_step. exact IH.
Qed.

(** *** Every run can be completed *)

Lemma totalWork_zero (ts : list Task) :
  totalWork ts = 0 -> forallb returned ts = true.
Proof.
  induction ts as [|t ts IH]; [reflexivity|].
  cbn [totalWork fold_right forallb]. fold (totalWork ts). intros H.
  rewrite IH by lia. unfold work in H. unfold returned.
  destruct (phase t); [lia|reflexivity].
Qed.




(** *** The loop of one skill *)

Lemma breaks_not_yields (r : FetchResult) : breaks r = true -> yields r = false.
Proof.
  destruct r as [msg|[[e|] its]]; cbn; try discriminate. reflexivity.
Qed.

(** Once a term is answered with the quota error no later term is requested. *)
Lemma soloRequests_stop (i k : nat) (terms : list string) :
  breaks (respond i k) = true ->
  forall j r, j <= k -> In r (soloRequests topic respond i j terms) -> ofTerm r <= k.
Proof.
  intros B. induction terms as [|term rest IH]; intros j r L I; [destruct I|].
  cbn [soloRequests] in I. destruct I as [<-|I]; [exact L|].
  destruct (breaks (respond i j)) eqn:E; [destruct I|].
  apply (IH (S j)); [|exact I].
  assert (j <> k) by (intros ->; congruence). lia.
Qed.

(** When term [k] is the first one answered with the quota error, the
    requests are those for the terms up to it. *)
Lemma soloRequests_first_quota (i k : nat) (terms : list string) :
  breaks (respond i k) = true ->
  (forall j', j' < k -> breaks (respond i j') = false) ->
  forall j, j <= k -> k - j < List.length terms ->
    soloRequests topic respond i j terms
    = mapFrom (request topic i) j (firstn (S (k - j)) terms).
Proof.
  intros B F. induction terms as [|term rest IH]; intros j L Len; cbn in Len; [lia|].
  cbn [soloRequests firstn mapFrom]. f_equal.
  destruct (Nat.eq_dec j k) as [->|N].
  - rewrite B, Nat.sub_diag. reflexivity.
  - rewrite (F j) by lia. rewrite (IH (S j)) by lia.
    replace (k - j) with (S (k - S j)) by lia. reflexivity.
Qed.

Lemma length_mapFrom {A B : Type} (f : nat -> A -> B) (l : list A) :
  forall i, List.length (mapFrom f i l) = List.length l.
Proof. induction l as [|x l IH]; intros i; cbn; [reflexivity|now rewrite IH]. Qed.

Lemma nth_error_mapFrom {A B : Type} (f : nat -> A -> B) (l : list A) :
  forall i k, nth_error (mapFrom f i l) k = option_map (f (i + k)) (nth_error l k).
Proof.
  induction l as [|x l IH]; intros i [|k]; cbn; try reflexivity.
  - now rewrite Nat.add_0_r.
  - rewrite IH. now replace (S i + k) with (i + S k) by lia.
Qed.

(** The videos are those the terms before the quota error gave. *)
Lemma soloVideos_cut (i k : nat) (terms : list string) :
  breaks (respond i k) = true ->
  forall j vs, j <= k ->
    soloVideos respond i j terms vs
    = soloVideos respond i j (firstn (k - j) terms) vs.
Proof.
  intros B. induction terms as [|term rest IH]; intros j vs L.
  - now rewrite firstn_nil.
  - destruct (Nat.eq_dec j k) as [->|N].
    + rewrite Nat.sub_diag. cbn [firstn soloVideos].
      rewrite B, (breaks_not_yields _ B). reflexivity.
    + replace (k - j) with (S (k - S j)) by lia. cbn [firstn soloVideos].
      destruct (breaks (respond i j)); [reflexivity|]. apply IH. lia.
Qed.

Lemma soloVideos_length (i : nat) (terms : list string) :
  forall j vs,
    List.length (soloVideos respond i j terms vs)
    <= List.length vs + List.length terms.
Proof.
  induction terms as [|term rest IH]; intros j vs; cbn [soloVideos List.length]; [lia|].
  assert (V : List.length (if yields (respond i j)
                           then plainOnResponse term (respond i j) vs else vs)
              <= S (List.length vs)).
  { destruct (yields (respond i j)); [|lia].
    destruct (respond i j) as [msg|[e [[|[item|what|item what] its]|]]]; cbn [plainOnResponse items];
      rewrite ?length_app; cbn [List.length]; lia. }
  destruct (breaks (respond i j)); [lia|].
  specialize (IH (S j) (if yields (respond i j)
                        then plainOnResponse term (respond i j) vs else vs)). lia.
Qed.

(** Every video carries the term that found it. *)
Lemma soloVideos_terms (i : nat) (terms : list string) :
  forall j vs v,
    In v (soloVideos respond i j terms vs) ->
    In v vs \/ In (Video.searchTerm v) terms.
Proof.
  induction terms as [|term rest IH]; intros j vs v I; cbn [soloVideos] in I;
    [left; exact I|].
  assert (V : forall v, In v (if yields (respond i j)
                              then plainOnResponse term (respond i j) vs else vs) ->
                        In v vs \/ Video.searchTerm v = term).
  { intros u. destruct (yields (respond i j)); [|intros H; left; exact H].
    destruct (respond i j) as [msg|[e [[|[item|what|item what] its]|]]];
      cbn [plainOnResponse items]; try (intros H; left; exact H);
      intros H; apply in_app_or in H; destruct H as [H|[<-|[]]];
      [left; exact H|right; reflexivity|left; exact H|right; reflexivity]. }
  destruct (breaks (respond i j)).
  - destruct (V v I) as [H|H]; [left; exact H|right; left; symmetry; exact H].
  - destruct (IH _ _ _ I) as [H|H]; [|right; right; exact H].
    destruct (V v H) as [H'|H']; [left; exact H'|right; left; symmetry; exact H'].
Qed.

(** The sequential reading of a closure: the loop run on its own sends
    the requests and ends with the videos named above. *)
Lemma termLoop_solo (i : nat) (terms : list string) :
  forall j vs sh,
    fst (termLoop topic respond i j terms vs sh) = soloVideos respond i j terms vs
    /\ fetched (snd (termLoop topic respond i j terms vs sh))
       = fetched sh ++ soloRequests topic respond i j terms
    /\ totalSearches (snd (termLoop topic respond i j terms vs sh))
       = totalSearches sh + List.length (soloRequests topic respond i j terms).
Proof.
  induction terms as [|term rest IH]; intros j vs sh; cbn [termLoop soloVideos soloRequests].
  - cbn [fst snd List.length]. rewrite app_nil_r. repeat split; lia.
  - pose proof (onResponse_flow term (respond i j) vs
                  (receive (request topic i j term) (send (request topic i j term) sh))) as F.
    pose proof (onResponse_videos term (respond i j) vs
                  (receive (request topic i j term) (send (request topic i j term) sh))) as V.
    pose proof (onResponse_shared term (respond i j) vs
                  (receive (request topic i j term) (send (request topic i j term) sh))) as S.
    destruct (onResponse term (respond i j) vs
                (receive (request topic i j term) (send (request topic i j term) sh)))
      as [[flow vs'] sh1].
    cbn [fst snd] in F, V, S. cbn zeta in S. destruct S as (S1 & S2 & _).
    cbn [receive send totalSearches fetched] in S1, S2.
    subst flow vs'. destruct (breaks (respond i j)).
    + cbn [fst snd List.length]. rewrite S1, S2. repeat split; lia.
    + destruct (IH (S j) (if yields (respond i j)
                          then plainOnResponse term (respond i j) vs else vs) sh1)
        as (I1 & I2 & I3).
      rewrite I1, I2, I3, S1, S2, <- app_assoc. cbn [List.length app].
      repeat split; lia.
Qed.

(** *** The value [Promise.all] resolves to *)

Lemma returned_phase (t : Task) : returned t = true -> phase t = Returned.
Proof. unfold returned. destruct (phase t); [discriminate|reflexivity]. Qed.

Lemma allReturned_nth (m : Machine) (i : nat) (t : Task) :
  allReturned m = true -> nth_error (tasks m) i = Some t -> phase t = Returned.
Proof.
  intros A N. apply returned_phase.
  unfold allReturned in A. rewrite forallb_forall in A.
  apply A. eapply nth_error_In. exact N.
Qed.

(** Whatever the order of the answers, the skills come out as their loops,
    run one by one, leave them. *)
Lemma completed_skills (skills : list Skill.t) (m : Machine) :
  Consistent topic respond skills m -> allReturned m = true ->
  skillsWithVideos m = mapFrom (soloSkill respond) 0 skills.
Proof.
  intros [L C] A. apply nth_error_ext. intros k.
  unfold skillsWithVideos. rewrite nth_error_map, nth_error_mapFrom. cbn [Nat.add].
  destruct (nth_error (tasks m) k) as [t|] eqn:N.
  - destruct (C k t N) as (T1 & _ & T3 & _).
    rewrite T1. cbn [option_map]. f_equal. unfold soloSkill. f_equal.
    rewrite <- T3. unfold finalVideos. rewrite (allReturned_nth m k t A N). reflexivity.
  - apply nth_error_None in N. rewrite L in N. apply nth_error_None in N.
    rewrite N. reflexivity.
Qed.

(** *** The two variants *)

Lemma plainOnResponse_idle (term : string) (r : FetchResult) (vs : list Video.t) :
  plainYields r = false -> plainOnResponse term r vs = vs.
Proof.
  destruct r as [msg|[e [[|[item|what|item what] its]|]]]; cbn; try reflexivity;
    discriminate.
Qed.

Lemma yields_plainYields (r : FetchResult) : yields r = true -> plainYields r = true.
Proof.
  destruct r as [msg|[[e|] [[|[item|what|item what] its]|]]]; cbn; try discriminate; reflexivity.
Qed.

Lemma plainLoop_stopped (i : nat) (terms : list string) :
  forall j vs, quietFrom respond i j terms true = true ->
               plainLoop respond i j terms vs = vs.
Proof.
  induction terms as [|term rest IH]; intros j vs Q; [reflexivity|].
  cbn [quietFrom orb] in Q. rewrite andb_true_r in Q.
  apply andb_true_iff in Q. destruct Q as [Q1 Q2]. apply negb_true_iff in Q1.
  cbn [plainLoop]. rewrite (plainOnResponse_idle term _ vs Q1). apply IH. exact Q2.
Qed.

Lemma plainLoop_quiet (i : nat) (terms : list string) :
  forall j vs, quietFrom respond i j terms false = true ->
               plainLoop respond i j terms vs = soloVideos respond i j terms vs.
Proof.
  induction terms as [|term rest IH]; intros j vs Q; [reflexivity|].
  cbn [quietFrom orb] in Q. apply andb_true_iff in Q. destruct Q as [Q1 Q2].
  apply negb_true_iff in Q1. cbn [plainLoop soloVideos].
  assert (V : plainOnResponse term (respond i j) vs
              = if yields (respond i j)
                then plainOnResponse term (respond i j) vs else vs).
  { destruct (yields (respond i j)) eqn:Y; [reflexivity|].
    apply plainOnResponse_idle. cbn [negb] in Q1. rewrite andb_true_r in Q1. exact Q1. }
  rewrite <- V. destruct (breaks (respond i j)).
  - apply plainLoop_stopped. exact Q2.
  - apply IH. exact Q2.
Qed.

Lemma plain_quiet_from (skills : list Skill.t) :
  forall i,
    forallb (fun b => b)
            (mapFrom (fun i skill => quietFrom respond i 0 (Skill.searchTerms skill) false)
                     i skills) = true ->
    mapFrom (fun i skill =>
               {| EnrichedSkill.skill := skill;
                  EnrichedSkill.videos :=
                    plainLoop respond i 0 (Skill.searchTerms skill) [] |})
            i skills
    = mapFrom (soloSkill respond) i skills.
Proof.
  induction skills as [|skill rest IH]; intros i Q; [reflexivity|].
  cbn [mapFrom forallb] in *. apply andb_true_iff in Q. destruct Q as [Q1 Q2].
  rewrite (IH (S i) Q2). unfold soloSkill at 1. now rewrite (plainLoop_quiet _ _ _ _ Q1).
Qed.

Lemma plain_quiet (skills : list Skill.t) :
  quiet respond skills = true ->
  plainSkillsWithVideos respond skills = mapFrom (soloSkill respond) 0 skills.
Proof. apply plain_quiet_from. Qed.

(** Both loops only ever append to the list of videos. *)
Lemma plainLoop_app (i : nat) (terms : list string) :
  forall j vs, plainLoop respond i j terms vs = vs ++ plainLoop respond i j terms [].
Proof.
  induction terms as [|term rest IH]; intros j vs; cbn [plainLoop].
  - now rewrite app_nil_r.
  - rewrite (IH (S j) (plainOnResponse term (respond i j) vs)),
            (IH (S j) (plainOnResponse term (respond i j) [])), app_assoc.
    f_equal. destruct (respond i j) as [msg|[e [[|[item|what|item what] its]|]]];
      cbn [plainOnResponse items app]; rewrite ?app_nil_r; reflexivity.
Qed.

Lemma soloVideos_app (i : nat) (terms : list string) :
  forall j vs, soloVideos respond i j terms vs = vs ++ soloVideos respond i j terms [].
Proof.
  induction terms as [|term rest IH]; intros j vs; cbn [soloVideos].
  - now rewrite app_nil_r.
  - assert (V : (if yields (respond i j)
                 then plainOnResponse term (respond i j) vs else vs)
                = vs ++ (if yields (respond i j)
                         then plainOnResponse term (respond i j) [] else [])).
    { destruct (yields (respond i j)); [|now rewrite app_nil_r].
      destruct (respond i j) as [msg|[e [[|[item|what|item what] its]|]]];
        cbn [plainOnResponse items app]; rewrite ?app_nil_r; reflexivity. }
    rewrite V. destruct (breaks (respond i j)); [reflexivity|].
    rewrite (IH (S j) (vs ++ _)), (IH (S j) (if yields (respond i j) then _ else _)).
    now rewrite app_assoc.
Qed.

Lemma length_plainOnResponse (term : string) (r : FetchResult) :
  List.length (plainOnResponse term r []) = if plainYields r then 1 else 0.
Proof. destruct r as [msg|[e [[|[item|what|item what] its]|]]]; reflexivity. Qed.

(** The plain variant finds at least the videos the other one finds. *)
Lemma solo_le_plain (i : nat) (terms : list string) :
  forall j, List.length (soloVideos respond i j terms [])
            <= List.length (plainLoop respond i j terms []).
Proof.
  induction terms as [|term rest IH]; intros j; cbn [soloVideos plainLoop]; [lia|].
  rewrite plainLoop_app, length_app, length_plainOnResponse.
  specialize (IH (S j)).
  destruct (yields (respond i j)) eqn:Y.
  - rewrite (yields_plainYields _ Y).
    destruct (breaks (respond i j));
      [rewrite length_plainOnResponse, (yields_plainYields _ Y); lia|].
    rewrite soloVideos_app, length_app, length_plainOnResponse, (yields_plainYields _ Y).
    lia.
  - destruct (breaks (respond i j)); [cbn [List.length]; lia|].
    destruct (plainYields (respond i j)); lia.
Qed.

Lemma stopped_loud (i : nat) (terms : list string) :
  forall j, quietFrom respond i j terms true = false ->
            0 < List.length (plainLoop respond i j terms []).
Proof.
  induction terms as [|term rest IH]; intros j Q; [discriminate Q|].
  cbn [quietFrom orb] in Q. rewrite andb_true_r in Q.
  cbn [plainLoop]. rewrite plainLoop_app, length_app, length_plainOnResponse.
  destruct (plainYields (respond i j)); [lia|].
  cbn [negb andb] in Q. specialize (IH (S j) Q). lia.
Qed.

(** Answers that are not quiet give the plain variant more videos. *)
Lemma loud (i : nat) (terms : list string) :
  forall j, quietFrom respond i j terms false = false ->
            List.length (soloVideos respond i j terms [])
            < List.length (plainLoop respond i j terms []).
Proof.
  induction terms as [|term rest IH]; intros j Q; [discriminate Q|].
  cbn [quietFrom orb] in Q. cbn [soloVideos plainLoop].
  rewrite plainLoop_app, length_app, length_plainOnResponse.
  pose proof (solo_le_plain i rest (S j)) as M.
  destruct (yields (respond i j)) eqn:Y.
  - rewrite (yields_plainYields _ Y) in *. cbn [negb andb] in Q.
    destruct (breaks (respond i j)) eqn:B;
      [rewrite (breaks_not_yields _ B) in Y; discriminate Y|].
    specialize (IH (S j) Q).
    rewrite soloVideos_app, length_app, length_plainOnResponse, (yields_plainYields _ Y).
    lia.
  - destruct (plainYields (respond i j)); cbn [negb andb] in Q.
    + destruct (breaks (respond i j)); [cbn [List.length]; lia|]. lia.
    + destruct (breaks (respond i j)).
      * pose proof (stopped_loud i rest (S j) Q). cbn [List.length]. lia.
      * specialize (IH (S j) Q). lia.
Qed.

Lemma plain_quiet_inv (skills : list Skill.t) :
  forall i,
    mapFrom (fun i skill =>
               {| EnrichedSkill.skill := skill;
                  EnrichedSkill.videos :=
                    plainLoop respond i 0 (Skill.searchTerms skill) [] |})
            i skills
    = mapFrom (soloSkill respond) i skills ->
    forallb (fun b => b)
            (mapFrom (fun i skill => quietFrom respond i 0 (Skill.searchTerms skill) false)
                     i skills) = true.
Proof.
  induction skills as [|skill rest IH]; intros i E; [reflexivity|].
  cbn [mapFrom forallb] in *. injection E as E1 E2.
  rewrite (IH (S i) E2), andb_true_r.
  destruct (quietFrom respond i 0 (Skill.searchTerms skill) false) eqn:Q; [reflexivity|].
  pose proof (loud i (Skill.searchTerms skill) 0 Q) as L.
  rewrite E1 in L. lia.
Qed.

(** The plain variant agrees with the loops of the other one exactly on
    quiet answers. *)
Lemma plain_quiet_iff (skills : list Skill.t) :
  plainSkillsWithVideos respond skills = mapFrom (soloSkill respond) 0 skills
  <-> quiet respond skills = true.
Proof. split; [apply plain_quiet_inv|apply plain_quiet]. Qed.

(** Both variants resolve to the skills they were given, in order. *)
Lemma skills_of_solo (skills : list Skill.t) :
  forall i, map EnrichedSkill.skill (mapFrom (soloSkill respond) i skills) = skills.
Proof.
  induction skills as [|skill rest IH]; intros i; [reflexivity|].
  cbn [mapFrom map soloSkill EnrichedSkill.skill]. f_equal. apply IH.
Qed.

Lemma skills_of_plain (skills : list Skill.t) :
  map EnrichedSkill.skill (plainSkillsWithVideos respond skills) = skills.
Proof.
  unfold plainSkillsWithVideos.
  assert (G : forall i,
             map EnrichedSkill.skill
                 (mapFrom (fun i skill =>
                             {| EnrichedSkill.skill := skill;
                                EnrichedSkill.videos :=
                                  plainLoop respond i 0 (Skill.searchTerms skill) [] |})
                          i skills) = skills).
  { induction skills as [|skill rest IH]; intros i; [reflexivity|].
    cbn [mapFrom map EnrichedSkill.skill]. f_equal. apply IH. }
  apply G.
Qed.

(** Answers that are not quiet leave some skill with fewer videos in the
    variant with diagnostics. *)
Lemma loud_skill (skills : list Skill.t) :
  forall i,
    forallb (fun b => b)
            (mapFrom (fun i skill => quietFrom respond i 0 (Skill.searchTerms skill) false)
                     i skills) = false ->
    exists k skill,
      nth_error skills k = Some skill
      /\ List.length (soloVideos respond (i + k) 0 (Skill.searchTerms skill) [])
         < List.length (plainLoop respond (i + k) 0 (Skill.searchTerms skill) []).
Proof.
  induction skills as [|skill rest IH]; intros i Q; [discriminate Q|].
  cbn [mapFrom forallb] in Q.
  destruct (quietFrom respond i 0 (Skill.searchTerms skill) false) eqn:E.
  - cbn [andb] in Q. destruct (IH (S i) Q) as (k & other & N & Lt).
    exists (S k), other. split; [exact N|].
    replace (i + S k) with (S i + k) by lia. exact Lt.
  - exists 0, skill. split; [reflexivity|]. rewrite Nat.add_0_r. apply loud. exact E.
Qed.

Lemma total_le_plain (skills : list Skill.t) :
  forall i,
    Diagnostics.videosOf (mapFrom (soloSkill respond) i skills)
    <= Diagnostics.videosOf
         (mapFrom (fun i skill =>
                     {| EnrichedSkill.skill := skill;
                        EnrichedSkill.videos :=
                          plainLoop respond i 0 (Skill.searchTerms skill) [] |})
                  i skills).
Proof.
  induction skills as [|skill rest IH]; intros i; [apply Nat.le_refl|].
  cbn [mapFrom Diagnostics.videosOf fold_right soloSkill EnrichedSkill.videos].
  specialize (IH (S i)). unfold Diagnostics.videosOf in IH.
  pose proof (solo_le_plain i (Skill.searchTerms skill) 0). lia.
Qed.

(** And then with fewer videos in all. *)
Lemma loud_total (skills : list Skill.t) :
  forall i,
    forallb (fun b => b)
            (mapFrom (fun i skill => quietFrom respond i 0 (Skill.searchTerms skill) false)
                     i skills) = false ->
    Diagnostics.videosOf (mapFrom (soloSkill respond) i skills)
    < Diagnostics.videosOf
        (mapFrom (fun i skill =>
                    {| EnrichedSkill.skill := skill;
                       EnrichedSkill.videos :=
                         plainLoop respond i 0 (Skill.searchTerms skill) [] |})
                 i skills).
Proof.
  induction skills as [|skill rest IH]; intros i Q; [discriminate Q|].
  cbn [mapFrom forallb] in Q.
  cbn [mapFrom Diagnostics.videosOf fold_right soloSkill EnrichedSkill.videos].
  pose proof (total_le_plain rest (S i)) as Le. unfold Diagnostics.videosOf in Le.
  pose proof (solo_le_plain i (Skill.searchTerms skill) 0) as Le0.
  destruct (quietFrom respond i 0 (Skill.searchTerms skill) false) eqn:E.
  - cbn [andb] in Q. specialize (IH (S i) Q). unfold Diagnostics.videosOf in IH. lia.
  - pose proof (loud i (Skill.searchTerms skill) 0 E). lia.
Qed.

End EnrichmentFacts.

Section EnrichmentClaims.

Import Youtube Enrichment.

Variable topic : string.
Variable respond : nat -> nat -> FetchResult.

Lemma soloVideos_ext (respond' : nat -> nat -> FetchResult) (i : nat)
    (terms : list string) :
  (forall j, respond' i j = respond i j) ->
  forall j vs, soloVideos respond' i j terms vs = soloVideos respond i j terms vs.
Proof.
  intros E. induction terms as [|term rest IH]; intros j vs; [reflexivity|].
  cbn [soloVideos]. rewrite E, IH. reflexivity.
Qed.

(** C2. When the answer to term [k] of skill [i] is the quota error, no
    request for a later term of that skill is ever sent, in whatever order
    the answers arrive. When term [k] is the first to meet it, the requests
    counted for the skill are those for its first [k + 1] terms, and its
    videos are those the loop gives on its first [k] terms alone (at most
    [k], each carrying one of these terms). The other skills are not affected: they end with the
    videos their own answers give, whatever skill [i] is answered. *)
Theorem quota_stops_the_skill (schedule : list nat) (skills : list Skill.t)
    (i k : nat) (skill : Skill.t) (data : Data) (e : ApiError) :
  nth_error skills i = Some skill ->
  respond i k = Resolved data -> error data = Some e -> quotaExceeded e = true ->
  let m := run topic respond schedule (launch topic skills) in
  let terms := Skill.searchTerms skill in
  totalSearches (shared m) = List.length (fetched (shared m))
  /\ (forall r, In r (fetched (shared m)) -> ofSkill r = i -> ofTerm r <= k)
  /\ (allReturned m = true ->
      k < List.length terms ->
      (forall j, j < k -> breaks (respond i j) = false) ->
      ofSkillOnly i (fetched (shared m))
      = mapFrom (request topic i) 0 (firstn (S k) terms)
      /\ List.length (ofSkillOnly i (fetched (shared m))) = S k
      /\ exists enriched,
           nth_error (skillsWithVideos m) i = Some enriched
           /\ EnrichedSkill.videos enriched
              = fst (termLoop topic respond i 0 (firstn k terms) [] initial)
           /\ List.length (EnrichedSkill.videos enriched) <= k
           /\ forall v, In v (EnrichedSkill.videos enriched) ->
                        In (Video.searchTerm v) (firstn k terms))
  /\ (forall respond' schedule',
        (forall i' j, i' <> i -> respond' i' j = respond i' j) ->
        let m' := run topic respond' schedule' (launch topic skills) in
        allReturned m = true -> allReturned m' = true ->
        forall i', i' <> i ->
                   nth_error (skillsWithVideos m') i' = nth_error (skillsWithVideos m) i').
Proof.
  intros N R HE Q m terms. subst m terms.
  assert (B : breaks (respond i k) = true).
  { rewrite R. cbn [breaks]. rewrite HE. exact Q. }
  clear R HE Q.
  pose proof (Consistent_run topic respond skills schedule) as [L C].
  set (m := run topic respond schedule (launch topic skills)) in *.
  assert (T : exists t, nth_error (tasks m) i = Some t).
  { destruct (nth_error (tasks m) i) as [t|] eqn:E; [exists t; reflexivity|].
    apply nth_error_None in E. rewrite L in E. apply nth_error_None in E. congruence. }
  destruct T as [t Nt]. destruct (C i t Nt) as (T1 & T2 & T3 & T4).
  assert (S : skillOf t = skill) by congruence. rewrite S in T2, T3.
  split; [exact (proj1 (Counted_run topic respond skills schedule))|].
  split.
  { intros r I O. apply (soloRequests_stop topic respond i k (Skill.searchTerms skill) B 0);
      [lia|].
    rewrite <- T2. apply in_or_app. left. apply filter_In. split; [exact I|].
    apply Nat.eqb_eq. exact O. }
  split.
  { intros A Len F.
    pose proof (allReturned_nth m i t A Nt) as P.
    unfold futureRequests in T2. rewrite P, app_nil_r in T2.
    rewrite (soloRequests_first_quota topic respond i k _ B F 0) in T2 by lia.
    rewrite Nat.sub_0_r in T2. split; [exact T2|].
    split.
    { rewrite T2, length_mapFrom, length_firstn. lia. }
    exists (soloSkill respond i skill).
    split.
    { rewrite (completed_skills topic respond skills m (conj L C) A).
      rewrite nth_error_mapFrom, N. reflexivity. }
    cbn [soloSkill EnrichedSkill.videos].
    rewrite (soloVideos_cut respond i k _ B 0 []) by lia. rewrite Nat.sub_0_r.
    split; [symmetry; apply (termLoop_solo topic respond)|]. split.
    - pose proof (soloVideos_length respond i (firstn k (Skill.searchTerms skill)) 0 []) as H.
      rewrite length_firstn in H. cbn [List.length] in H. lia.
    - intros v I. destruct (soloVideos_terms respond i _ 0 [] v I) as [[]|H]. exact H. }
  intros respond' schedule' Ext m' A A' i' D. subst m'.
  rewrite (completed_skills topic respond skills m (conj L C) A).
  rewrite (completed_skills topic respond' skills _
             (Consistent_run topic respond' skills schedule') A').
  rewrite !nth_error_mapFrom. destruct (nth_error skills i') as [other|]; [|reflexivity].
  cbn [option_map Nat.add]. f_equal. unfold soloSkill. f_equal.
  apply soloVideos_ext. intros j. apply Ext. exact D.
Qed.


(** C10, amended. Once every closure has returned, the variant with
    diagnostics, whatever the order of the answers, resolves to the same
    skills with the same videos as the plain variant exactly when the
    answers are quiet: no answer carries a result together with an error,
    and no answer that follows a quota error within a skill carries a
    result. In every case the two resolve to the same skills in the same
    order, and no skill has more videos in the variant with diagnostics
    than in the plain one; when the answers are not quiet some skill has
    fewer, so the plain variant returns more videos. *)
Theorem variants_agree_on_quiet_answers (schedule : list nat) (skills : list Skill.t) :
  allReturned (run topic respond schedule (launch topic skills)) = true ->
  let withDiagnostics := skillsWithVideos (run topic respond schedule (launch topic skills)) in
  let plain := plainSkillsWithVideos respond skills in
  (withDiagnostics = plain <-> quiet respond skills = true)
  /\ map EnrichedSkill.skill withDiagnostics = skills
  /\ map EnrichedSkill.skill plain = skills
  /\ (forall i e p,
        nth_error withDiagnostics i = Some e -> nth_error plain i = Some p ->
        List.length (EnrichedSkill.videos e) <= List.length (EnrichedSkill.videos p))
  /\ (quiet respond skills = false ->
      (exists i e p,
         nth_error withDiagnostics i = Some e /\ nth_error plain i = Some p
         /\ List.length (EnrichedSkill.videos e) < List.length (EnrichedSkill.videos p))
      /\ Diagnostics.videosOf withDiagnostics < Diagnostics.videosOf plain).
Proof.
  intros A withDiagnostics plain. subst withDiagnostics plain.
  rewrite (completed_skills topic respond skills _
             (Consistent_run topic respond skills schedule) A).
  split; [rewrite <- plain_quiet_iff; split; intros H; symmetry; exact H|].
  split; [apply skills_of_solo|].
  split; [apply skills_of_plain|].
  split.
  { intros i e p E P. unfold plainSkillsWithVideos in P.
    rewrite nth_error_mapFrom in E, P.
    destruct (nth_error skills i) as [skill|]; [|discriminate E].
    cbn [option_map Nat.add] in E, P. injection E as <-. injection P as <-.
    cbn [soloSkill EnrichedSkill.videos]. apply solo_le_plain. }
  intros Q. split.
  - destruct (loud_skill respond skills 0 Q) as (k & skill & N & Lt).
    exists k, (soloSkill respond k skill),
      {| EnrichedSkill.skill := skill;
         EnrichedSkill.videos := plainLoop respond k 0 (Skill.searchTerms skill) [] |}.
    unfold plainSkillsWithVideos. rewrite !nth_error_mapFrom, N.
    repeat split. exact Lt.
  - apply (loud_total respond skills 0 Q).
Qed.

End EnrichmentClaims.

(** The claim C2 on two skills, the first with terms t1, t2, t3 and the
    quota error on t2: two requests for the first skill, none for t3, at
    most one video, which carries t1. *)
Lemma quota_stops_the_skill_witness :
  let m := Enrichment.run "T" Samples.quotaOnSecond Samples.interleaved
             (Enrichment.launch "T" [Samples.skillA; Samples.skillB]) in
  (forall r, In r (Enrichment.fetched (Enrichment.shared m)) ->
             Enrichment.ofSkill r = 0 -> Enrichment.ofTerm r <= 1)
  /\ List.length (Enrichment.ofSkillOnly 0 (Enrichment.fetched (Enrichment.shared m))) = 2
  /\ exists enriched,
       nth_error (Enrichment.skillsWithVideos m) 0 = Some enriched
       /\ List.length (EnrichedSkill.videos enriched) <= 1
       /\ forall v, In v (EnrichedSkill.videos enriched) -> In (Video.searchTerm v) ["t1"].
Proof.
  intros m.
  destruct (quota_stops_the_skill "T" Samples.quotaOnSecond Samples.interleaved
              [Samples.skillA; Samples.skillB] 0 1 Samples.skillA _ _
              eq_refl eq_refl eq_refl eq_refl)
    as (_ & Stop & Exact & _).
  split; [exact Stop|].
  assert (First : forall j, j < 1 -> Enrichment.breaks (Samples.quotaOnSecond 0 j) = false).
  { intros [|j] H; [reflexivity|lia]. }
  destruct (Exact eq_refl ltac:(cbn; lia) First) as (_ & Len & enriched & E1 & _ & E3 & E4).
  split; [exact Len|]. exists enriched. split; [exact E1|]. split; [exact E3|exact E4].
Defined.


(** C10, refuted as stated: with a video for t1, the quota error for t2 and
    a video for t3 the variant with diagnostics ends the first skill with
    one video and the plain variant with two. *)
Lemma variants_differ_after_quota_error :
  Enrichment.allReturned
    (Enrichment.run "T" Samples.quotaOnSecond Samples.interleaved
       (Enrichment.launch "T" [Samples.skillA; Samples.skillB])) = true
  /\ map (fun e => List.length (EnrichedSkill.videos e))
         (Enrichment.skillsWithVideos
            (Enrichment.run "T" Samples.quotaOnSecond Samples.interleaved
               (Enrichment.launch "T" [Samples.skillA; Samples.skillB])))
     = [1; 2]
  /\ map (fun e => List.length (EnrichedSkill.videos e))
         (Enrichment.plainSkillsWithVideos Samples.quotaOnSecond
            [Samples.skillA; Samples.skillB])
     = [2; 2].
Proof. repeat split; reflexivity. Qed.

(** The amended claim C10 on answers that are quiet: the first skill meets
    the quota error from its second term on, the second skill finds a video,
    then nothing, then the network fails. *)
Lemma variants_agree_on_quiet_answers_witness :
  Enrichment.skillsWithVideos
    (Enrichment.run "T" Samples.quotaFromSecond Samples.interleaved
       (Enrichment.launch "T" [Samples.skillA; Samples.skillB]))
  = Enrichment.plainSkillsWithVideos Samples.quotaFromSecond
      [Samples.skillA; Samples.skillB].
Proof.
  exact (proj2 (proj1 (variants_agree_on_quiet_answers "T" Samples.quotaFromSecond
                         Samples.interleaved [Samples.skillA; Samples.skillB] eq_refl))
               eq_refl).
Defined.

(** ** The courses table over a session *)

Section TableFacts.

Import Store Courses.

Variable pg : Postgres.

Lemma distinct_keys_filter {Row Key : Type} (key : Row -> Key) (keep : Row -> bool)
    (table : list Row) :
  NoDup (map key table) -> NoDup (map key (filter keep table)).
Proof.
  induction table as [|x rest IH]; cbn [map filter]; intros ND; [exact ND|].
  inversion ND as [|? ? N ND']; subst.
  destruct (keep x); [|exact (IH ND')].
  cbn [map]. constructor; [|exact (IH ND')].
  intros H. apply N. apply in_map_iff in H. destruct H as (y & <- & H).
  apply in_map. apply filter_In in H. exact (proj1 H).
Qed.

Lemma In_deleteWhereId (n : Z) (l : list Row) (row : Row) :
  In row (deleteWhereId n l) <-> In row l /\ id row <> n.
Proof.
  unfold deleteWhereId. rewrite filter_In.
  destruct (Z.eqb_spec (id row) n) as [E|E]; cbn [negb]; split.
  - intros [_ H]. discriminate.
  - intros [_ H]. contradiction.
  - intros [H _]. split; assumption.
  - intros [H _]. split; [exact H|reflexivity].
Qed.

Lemma deleteWhereId_absent (n : Z) (l : list Row) :
  ~ In n (map id l) -> deleteWhereId n l = l.
Proof.
  unfold deleteWhereId. induction l as [|row l IH]; intros N; [reflexivity|].
  cbn [filter]. destruct (Z.eqb_spec (id row) n) as [E|E]; cbn [negb].
  - exfalso. apply N. left. exact E.
  - f_equal. apply IH. intros H. apply N. right. exact H.
Qed.

(** The handler leaves the table alone or deletes by one id. *)
Lemma deleteCourses_table (up : bool) (idParam : string) (db : Db) :
  snd (deleteCourses pg up idParam db) = db
  \/ exists n, snd (deleteCourses pg up idParam db)
               = {| rows := deleteWhereId n (rows db); nextId := nextId db |}.
Proof.
  unfold deleteCourses. destruct (negb up); [left; reflexivity|].
  destruct (pgInt pg idParam) as [n|]; [right; exists n|left]; reflexivity.
Qed.

(** *** What the requests keep *)



Lemma Numbered_delete (n : Z) (db : Db) :
  Numbered db ->
  Numbered {| rows := deleteWhereId n (rows db); nextId := nextId db |}.
Proof.
  intros (I & B). unfold Numbered. cbn [rows nextId].
  split; [apply distinct_keys_filter; exact I|].
  intros row H. apply In_deleteWhereId in H. apply B. exact (proj1 H).
Qed.


(** The second statement of a save, whatever its [SELECT] had returned,
    gives a new row an id of its own. *)
Lemma Numbered_write (t : Z) (course : JValue) (key : string) (existing : list Z)
    (db : Db) :
  Numbered db -> Numbered (snd (write pg t course key existing db)).
Proof.
  intros [I B]. unfold write. destruct existing as [|e es].
  - destruct (if pgRefuses pg key course then None else columnText key) as [text|].
    + cbn [snd]. split; cbn [rows nextId].
      * rewrite map_app. cbn [map id].
        eapply Permutation_NoDup; [apply Permutation_cons_append|].
        constructor; [|exact I].
        intros H. apply in_map_iff in H. destruct H as (row & E & H).
        specialize (B row H). lia.
      * intros row H. apply in_app_or in H. destruct H as [H|[<-|[]]];
          [specialize (B row H); lia|cbn [id]; lia].
    + cbn [snd]. unfold refusedInsert. split; cbn [rows nextId]; [exact I|].
      intros row H. specialize (B row H). destruct (pgSkips pg key course); lia.
  - destruct (pgRefuses pg key course); [split; assumption|].
    destruct (selectIdWhereTopic key (rows db)); [split; assumption|].
    cbn [snd]. split; cbn [rows nextId].
    + rewrite updateWhereTopic_ids. exact I.
    + intros row H. unfold updateWhereTopic in H. apply in_map_iff in H.
      destruct H as (old & <- & H). specialize (B old H).
      destruct (String.eqb (topic old) key); cbn [id]; lia.
Qed.

Lemma Numbered_upsert (t : Z) (course topicValue : JValue) (db : Db) :
  Numbered db -> Numbered (snd (upsert pg t course topicValue db)).
Proof. apply Numbered_write. Qed.


Lemma Numbered_handle (db : Db) (request : Request) :
  Numbered db -> Numbered (handle pg db request).
Proof.
  intros W. destruct request as [up t request|up idParam]; cbn [handle].
  - destruct (postCourses_table pg up t request db)
      as [[-> _]|(course & topicValue & _ & _ & ->)]; [exact W|].
    apply Numbered_upsert. exact W.
  - destruct (deleteCourses_table up idParam db) as [->|(n & ->)]; [exact W|].
    apply Numbered_delete. exact W.
Qed.


Lemma Numbered_session (requests : list Request) :
  forall db, Numbered db -> Numbered (session pg db requests).
Proof.
  induction requests as [|r requests IH]; intros db W; [exact W|].
  cbn [session fold_left]. apply IH. apply Numbered_handle. exact W.
Qed.


(** *** Requests that overlap *)










(** *** The row of a save *)




Lemma insertDesc_sorted (x : Row) (l : list Row) :
  StronglySorted newerRowFirst l -> StronglySorted newerRowFirst (insertDesc x l).
Proof.
  induction l as [|y l IH]; intros S.
  - cbn [insertDesc]. constructor; [constructor|constructor].
  - cbn [insertDesc]. inversion S as [|? ? S' F]; subst.
    destruct (Z.leb_spec (updated_at y) (updated_at x)) as [L|L].
    + constructor; [exact S|]. constructor; [exact L|].
      rewrite Forall_forall in F |- *. intros z H. specialize (F z H).
      unfold newerRowFirst in *. lia.
    + constructor; [exact (IH S')|].
      rewrite Forall_forall in F |- *. intros z H.
      apply (Permutation_in _ (Permutation_sym (insertDesc_perm x l))) in H.
      destruct H as [<-|H]; [unfold newerRowFirst; lia|exact (F z H)].
Qed.

Lemma orderByUpdatedDesc_sorted (l : list Row) :
  StronglySorted newerRowFirst (orderByUpdatedDesc l).
Proof.
  induction l as [|x l IH]; [constructor|].
  cbn [orderByUpdatedDesc fold_right]. apply insertDesc_sorted. exact IH.
Qed.

Lemma listed_sorted (l : list Row) :
  StronglySorted newerRowFirst l ->
  StronglySorted newerFirst
    (map (fun row => {| listedId := id row; listedData := data row;
                        savedAt := updated_at row |}) l).
Proof.
  induction 1 as [|x l S IH F]; cbn [map]; constructor; [exact IH|].
  rewrite Forall_forall in F |- *. intros z H. apply in_map_iff in H.
  destruct H as (row & <- & H). exact (F row H).
Qed.

(** X2. [DELETE /api/courses/:id] with the database available and an id
    that the database reads as [n]: the reply is a success whether or not a
    row had that id; the rows left are the rows whose id is not [n], so the
    listing no longer shows that id; when no row had the id the table is as
    it was; the sequence behind the ids is not moved back, so that, in a
    table whose rows are properly keyed, no later save is given the id of
    the deleted row. *)
Theorem delete_removes_by_id (idParam : string) (n : Z) (db : Db) :
  pgInt pg idParam = Some n ->
  let db' := snd (deleteCourses pg true idParam db) in
  fst (deleteCourses pg true idParam db) = Deleted
  /\ (forall row, In row (rows db') <-> In row (rows db) /\ id row <> n)
  /\ (forall l, In l (listed (getCourses true db')) -> listedId l <> n)
  /\ (~ In n (map id (rows db)) -> db' = db)
  /\ (forall t course topicValue,
        WellKeyed db -> In n (map id (rows db)) ->
        fst (upsert pg t course topicValue db') <> Saved n).
Proof.
  intros P db'. subst db'. unfold deleteCourses. cbn [negb]. rewrite P.
  cbn [fst snd rows].
  split; [reflexivity|]. split; [apply In_deleteWhereId|].
  split; [|split].
  - intros l H. cbn [getCourses negb listed rows] in H. apply in_map_iff in H.
    destruct H as (row & <- & H). cbn [listedId].
    apply (Permutation_in _ (Permutation_sym (orderByUpdatedDesc_perm _))) in H.
    apply In_deleteWhereId in H. exact (proj2 H).
  - intros N. rewrite (deleteWhereId_absent n (rows db) N). destruct db; reflexivity.
  - intros t course topicValue W I E.
    destruct (upsert_cases pg t course topicValue
                {| rows := deleteWhereId n (rows db); nextId := nextId db |})
      as [(F & _)|[(m & _ & Sel & U & _)|(text & _ & _ & U & _)]].
    + rewrite F in E. discriminate.
    + rewrite U in E. cbn [fst] in E. injection E as ->.
      cbn [rows] in Sel. unfold selectIdWhereTopic in Sel. apply in_map_iff in Sel.
      destruct Sel as (old & X & O). apply filter_In in O.
      destruct O as [O _]. apply In_deleteWhereId in O. exact (proj2 O X).
    + rewrite U in E. cbn [fst nextId] in E. injection E as E.
      apply in_map_iff in I. destruct I as (old & I & O).
      destruct W as (_ & B & _). specialize (B old O). lia.
Qed.



(** X5. [GET /api/courses] lists the courses most recently updated
    first: every course comes before all courses updated earlier or at the
    same time. *)
Theorem listing_newest_first (db : Db) :
  StronglySorted newerFirst (listed (getCourses true db)).
Proof.
  cbn [getCourses negb listed]. apply listed_sorted. apply orderByUpdatedDesc_sorted.
Qed.


End TableFacts.

(** ** Saved courses in the browser *)

Section ClientFacts.

Import Store Courses Client.

Variable pg : Postgres.

Lemma lookup_setMember_other (key k : string) (v : JValue)
    (properties : list (string * JValue)) :
  k <> key -> lookup k (setMember key v properties) = lookup k properties.
Proof.
  intros N. induction properties as [|[k' x] rest IH]; cbn [setMember lookup].
  - apply String.eqb_neq in N. rewrite String.eqb_sym, N. reflexivity.
  - destruct (String.eqb k' key) eqn:E; cbn [lookup].
    + apply String.eqb_eq in E. subst k'.
      apply String.eqb_neq in N. rewrite String.eqb_sym, N. reflexivity.
    + rewrite IH. reflexivity.
Qed.

Lemma lookup_setMember_same (key : string) (v : JValue)
    (properties : list (string * JValue)) :
  lookup key (setMember key v properties) = Some v.
Proof.
  induction properties as [|[k' x] rest IH]; cbn [setMember lookup].
  - rewrite String.eqb_refl. reflexivity.
  - destruct (String.eqb k' key) eqn:E; cbn [lookup]; rewrite E; [reflexivity|exact IH].
Qed.

(** Stamping a course leaves its other members as they are. *)
Lemma prop_withSavedAt (now : string) (course : JValue) (k : string) :
  k <> "savedAt" -> prop (withSavedAt now course) k = prop course k.
Proof.
  intros N. destruct course as [|b|n|s|elements|properties]; try reflexivity.
  cbn [withSavedAt prop]. rewrite (lookup_setMember_other _ _ _ _ N). reflexivity.
Qed.

Lemma truthy_withSavedAt (now : string) (course : JValue) :
  truthy (withSavedAt now course) = truthy course.
Proof.
  destruct course; reflexivity.
Qed.

(** *** Values that have gone through JSON *)



Lemma truthy_throughJSON_object (properties : list (string * JValue)) :
  truthy (throughJSON (JObject properties)) = true.
Proof. reflexivity. Qed.

(** Writing a value as JSON and reading it back a second time changes
    nothing more. *)
Lemma throughJSON_idempotent : forall v, throughJSON (throughJSON v) = throughJSON v.
Proof.
  fix IH 1. intros [|b|n|s|elements|properties]; try reflexivity.
  - cbn [throughJSON]. destruct (PrimFloat.is_finite n) eqn:F; [|reflexivity].
    destruct (PrimFloat.is_zero n) eqn:Z; cbn [throughJSON].
    + reflexivity.
    + rewrite F, Z. reflexivity.
  - cbn [throughJSON]. f_equal. rewrite map_map.
    induction elements as [|x rest IHl]; [reflexivity|].
    cbn [map]. rewrite (IH x), IHl. reflexivity.
  - cbn [throughJSON]. f_equal. rewrite map_map.
    induction properties as [|[k x] rest IHl]; [reflexivity|].
    cbn [map]. rewrite (IH x), IHl. reflexivity.
Qed.

Lemma map_throughJSON_idempotent (l : list JValue) :
  map throughJSON (map throughJSON l) = map throughJSON l.
Proof.
  rewrite map_map. apply map_ext. intros v. apply throughJSON_idempotent.
Qed.

(** What [setLocalCourses] has written is read back as it is. *)
Lemma Written_setLocalCourses (courses : list JValue) (w : World) :
  Written (setLocalCourses courses w).
Proof. unfold Written. cbn [setLocalCourses savedCourses]. apply map_throughJSON_idempotent. Qed.



(** *** The requests of the browser *)




Lemma handleImport_accepted (JSON_parse : string -> option JValue) (text : string)
    (course : JValue) :
  JSON_parse text = Some course -> Importer.accepts course = true ->
  Importer.handleImport JSON_parse text = Importer.Imported course.
Proof.
  intros P A. unfold Importer.handleImport. rewrite P.
  unfold Importer.accepts in A.
  destruct (prop course "topic"); [| |discriminate]; rewrite A; reflexivity.
Qed.

Lemma setTable_same (w : World) : setTable (table w) w = w.
Proof. destruct w; reflexivity. Qed.







Lemma nth_error_splice1_before (courses : list JValue) :
  forall index i, i < index ->
    nth_error (splice1 index courses) i = nth_error courses i.
Proof.
  induction courses as [|c rest IH]; intros index i L; [destruct index; reflexivity|].
  destruct index as [|index]; [lia|]. cbn [splice1].
  destruct i as [|i]; [reflexivity|]. cbn [nth_error]. apply IH. lia.
Qed.

Lemma nth_error_splice1_after (courses : list JValue) :
  forall index i, index <= i ->
    nth_error (splice1 index courses) i = nth_error courses (S i).
Proof.
  induction courses as [|c rest IH]; intros index i L.
  - destruct index, i; reflexivity.
  - destruct index as [|index]; [reflexivity|]. cbn [splice1].
    destruct i as [|i]; [lia|]. cbn [nth_error]. apply IH. lia.
Qed.

Lemma splice1_beyond (courses : list JValue) :
  forall index, List.length courses <= index -> splice1 index courses = courses.
Proof.
  induction courses as [|c rest IH]; intros index L; [destruct index; reflexivity|].
  cbn [List.length] in L. destruct index as [|index]; [lia|].
  cbn [splice1]. f_equal. apply IH. lia.
Qed.

Lemma splice1_last (courses : list JValue) (x : JValue) :
  splice1 (List.length courses) (courses ++ [x]) = courses.
Proof.
  induction courses as [|c rest IH]; [reflexivity|].
  cbn [List.length app splice1]. f_equal. exact IH.
Qed.



(** X8. When the list was loaded from the database and the database has
    gone away since, an accepted import stores nothing, neither in the table
    nor in local storage, and still announces the course as imported;
    [saveCourse] in the same situation turns to local storage and does there
    what it does in local mode. *)
Theorem import_is_dropped_when_the_database_is_away
    (JSON_parse : string -> option JValue) (text now : string) (serverNow : Z)
    (course : JValue) (w : World) :
  JSON_parse text = Some course ->
  Importer.accepts course = true ->
  useLocalStorage w = false ->
  handleImport pg JSON_parse text now false serverNow w = (w, CourseImported)
  /\ forall confirm current,
       saveCourse pg confirm now false serverNow (Some current) w
       = saveLocally confirm now current (setUseLocalStorage true w).
Proof.
  intros P A L. split.
  - unfold handleImport. rewrite (handleImport_accepted JSON_parse text course P A), L.
    unfold postCourses. cbn [negb snd]. rewrite setTable_same. reflexivity.
  - intros confirm current. unfold saveCourse. rewrite L. reflexivity.
Qed.







(** X12. Deleting in local mode removes the course at the position of the
    card and nothing else: local storage then holds the other courses, in
    their order, as JSON gives them back, and the table is not touched. So
    when local storage holds what [setLocalCourses] wrote, the courses
    before the position keep their positions, the courses after it move up
    by one, and a position beyond the list removes nothing. Deleting the
    last position after an import undoes the import. *)
Theorem local_delete_by_position (id : string) (index : nat) (up : bool) (w : World) :
  useLocalStorage w = true ->
  let w' := deleteCourse pg true id index up w in
  table w' = table w
  /\ savedCourses w' = map throughJSON (splice1 index (savedCourses w))
  /\ (forall i, i < index ->
        nth_error (savedCourses w') i
        = option_map throughJSON (nth_error (savedCourses w) i))
  /\ (forall i, index <= i ->
        nth_error (savedCourses w') i
        = option_map throughJSON (nth_error (savedCourses w) (S i)))
  /\ (List.length (savedCourses w) <= index ->
      savedCourses w' = map throughJSON (savedCourses w))
  /\ (Written w ->
      (forall i, i < index ->
         nth_error (savedCourses w') i = nth_error (savedCourses w) i)
      /\ (forall i, index <= i ->
            nth_error (savedCourses w') i = nth_error (savedCourses w) (S i))
      /\ (List.length (savedCourses w) <= index -> savedCourses w' = savedCourses w))
  /\ (forall JSON_parse text now serverNow course,
        JSON_parse text = Some course -> Importer.accepts course = true ->
        index = List.length (savedCourses w) ->
        savedCourses
          (deleteCourse pg true id index up
             (fst (handleImport pg JSON_parse text now up serverNow w)))
        = map throughJSON (savedCourses w)
        /\ (Written w ->
            savedCourses
              (deleteCourse pg true id index up
                 (fst (handleImport pg JSON_parse text now up serverNow w)))
            = savedCourses w)).
Proof.
  intros L w'. subst w'. unfold deleteCourse. cbn [negb]. rewrite L.
  cbn [table savedCourses setLocalCourses].
  assert (Before : forall i, i < index ->
            nth_error (map throughJSON (splice1 index (savedCourses w))) i
            = option_map throughJSON (nth_error (savedCourses w) i)).
  { intros i Lt. rewrite nth_error_map, nth_error_splice1_before by exact Lt.
    reflexivity. }
  assert (After : forall i, index <= i ->
            nth_error (map throughJSON (splice1 index (savedCourses w))) i
            = option_map throughJSON (nth_error (savedCourses w) (S i))).
  { intros i Le. rewrite nth_error_map, nth_error_splice1_after by exact Le.
    reflexivity. }
  split; [reflexivity|]. split; [reflexivity|]. split; [exact Before|].
  split; [exact After|].
  split; [intros Le; rewrite splice1_beyond by exact Le; reflexivity|].
  split.
  { intros Wr. unfold Written in Wr. split; [|split].
    - intros i Lt. rewrite (Before i Lt), <- nth_error_map, Wr. reflexivity.
    - intros i Le. rewrite (After i Le), <- nth_error_map, Wr. reflexivity.
    - intros Le. rewrite splice1_beyond by exact Le. exact Wr. }
  intros JSON_parse text now serverNow course P A ->.
  unfold handleImport. rewrite (handleImport_accepted JSON_parse text course P A), L.
  cbn [fst useLocalStorage savedCourses setLocalCourses]. rewrite L.
  cbn [savedCourses setLocalCourses].
  assert (E : map throughJSON
                (splice1 (List.length (savedCourses w))
                   (map throughJSON (savedCourses w ++ [withSavedAt now course])))
              = map throughJSON (savedCourses w)).
  { rewrite map_app. cbn [map].
    rewrite <- (length_map throughJSON (savedCourses w)) at 1.
    rewrite splice1_last. apply map_throughJSON_idempotent. }
  split; [exact E|]. intros Wr. rewrite E. exact Wr.
Qed.

Section WithText.

Variable idText : JValue -> string.

(** X13. In database mode the delete button of a card sends the [id] member
    of the listed course, and a member [id] of the stored payload takes the
    place of the row's id there. So a course whose payload carries a truthy
    [id] that the database does not read as the id of its row is still in
    the table after its own delete button was used; a course whose payload
    has no [id] member is deleted, provided the database reads the text of
    the row's id as that id. *)
Theorem delete_button_follows_the_payload (row : Row) (index : nat) (up : bool)
    (w : World) :
  In row (rows (table w)) ->
  useLocalStorage w = false ->
  let card := {| listedId := id row; listedData := data row;
                 savedAt := updated_at row |} in
  let w' := deleteCourse pg true (cardId idText card index) index up w in
  (forall v, prop (data row) "id" = Value v -> truthy v = true ->
             pgInt pg (idText v) <> Some (id row) ->
             In row (rows (table w')))
  /\ (prop (data row) "id" = Undefined ->
      truthy (JNumber (idNumber (id row))) = true ->
      pgInt pg (idText (JNumber (idNumber (id row)))) = Some (id row) ->
      up = true ->
      forall other, In other (rows (table w')) -> id other <> id row).
Proof.
  intros H L card w'. subst card w'. unfold deleteCourse. cbn [negb]. rewrite L.
  cbn [table setTable]. unfold cardId, idMember. cbn [listedData listedId].
  split.
  - intros v P T N. rewrite P, T. unfold deleteCourses.
    destruct (negb up); [exact H|].
    destruct (pgInt pg (idText v)) as [n|]; [|exact H].
    cbn [snd rows]. apply In_deleteWhereId. split; [exact H|].
    intros E. apply N. rewrite E. reflexivity.
  - intros P T R -> other. rewrite P, T. unfold deleteCourses. cbn [negb].
    rewrite R. cbn [snd rows]. intros O. apply In_deleteWhereId in O. exact (proj2 O).
Qed.

End WithText.

End ClientFacts.

(** ** Diagnostics of the enrichment *)

Section DiagnosticsFacts.

Import Youtube Enrichment Diagnostics.

Variable topic : string.
Variable respond : nat -> nat -> FetchResult.

Lemma onResponse_errors (term : string) (r : FetchResult) (vs : list Video.t)
    (sh : Shared) :
  youtubeErrors (snd (onResponse term r vs sh)) = youtubeErrors sh ++ errorOf term r.
Proof.
  destruct r as [msg|[[e|] its]]; cbn [onResponse errorOf error items].
  - reflexivity.
  - destruct (quotaExceeded e); reflexivity.
  - destruct its as [[|[item|what|item what] its]|]; cbn; rewrite ?app_nil_r;
      reflexivity.
Qed.

Lemma resume_errors (i : nat) (t : Task) (sh : Shared) (j : nat) (term : string)
    (rest : list string) :
  phase t = Awaiting j term rest ->
  youtubeErrors (snd (resume topic respond i t sh))
  = youtubeErrors sh ++ errorOf term (respond i j).
Proof.
  intros P. unfold resume. rewrite P.
  pose proof (onResponse_errors term (respond i j) (videos t)
                (receive (request topic i j term) sh)) as E.
  destruct (onResponse term (respond i j) (videos t)
              (receive (request topic i j term) sh)) as [[flow vs] sh1].
  cbn [snd receive youtubeErrors] in E.
  destruct flow; [|exact E].
  rewrite loopHead_eq. cbn [snd youtubeErrors]. exact E.
Qed.

Lemma yields_pushes (term : string) (r : FetchResult) (vs : list Video.t) :
  yields r = true -> List.length (plainOnResponse term r vs) = S (List.length vs).
Proof.
  destruct r as [msg|[[e|] its]]; cbn [yields plainOnResponse error items];
    try discriminate.
  destruct its as [[|[item|what|item what] its]|]; cbn [builds items]; try discriminate;
    intros _; rewrite length_app; cbn [List.length]; lia.
Qed.

Lemma yields_counts (r : FetchResult) : yields r = true -> counts r = true.
Proof.
  destruct r as [msg|[[e|] [[|[item|what|item what] its]|]]]; cbn; congruence.
Qed.

Lemma lostAt_request (i j : nat) (term : string) :
  lostAt respond (request topic i j term)
  = counts (respond i j) && negb (yields (respond i j)).
Proof. reflexivity. Qed.




Lemma skipn_next {A : Type} (l : list A) :
  forall j x rest, skipn j l = x :: rest -> skipn (S j) l = rest.
Proof.
  induction l as [|y l IH]; intros [|j] x rest H; cbn [skipn] in *; try discriminate.
  - injection H as _ <-. reflexivity.
  - exact (IH _ _ _ H).
Qed.

Lemma skipn_nth {A : Type} (l : list A) (d : A) :
  forall j x rest, skipn j l = x :: rest -> nth j l d = x.
Proof.
  induction l as [|y l IH]; intros [|j] x rest H; cbn [skipn nth] in *;
    try discriminate.
  - injection H as -> _. reflexivity.
  - exact (IH _ _ _ H).
Qed.


Lemma collected_started (skills : list Skill.t) : collected (map started skills) = 0.
Proof.
  induction skills as [|skill skills IH]; [reflexivity|].
  unfold collected in *. cbn [map fold_right started videos List.length Nat.add].
  exact IH.
Qed.

Lemma first_requests_bounds (skills : list Skill.t) :
  forall i0 r,
    In r (List.concat (mapFrom (fun i skill =>
            firstRequest topic i 0 (Skill.searchTerms skill)) i0 skills)) ->
    i0 <= ofSkill r < i0 + List.length skills.
Proof.
  induction skills as [|skill skills IH]; intros i0 r H; [destruct H|].
  cbn [mapFrom List.concat List.length] in H |- *. apply in_app_or in H.
  destruct H as [H|H].
  - destruct (Skill.searchTerms skill) as [|term rest]; [destruct H|].
    destruct H as [<-|[]]. cbn [firstRequest request ofSkill]. lia.
  - specialize (IH _ _ H). lia.
Qed.

(** The closures and the logs fit the skills: each closure belongs to the
    skill of its position and waits where it says, the errors recorded are
    those of the answers received, in their order, every success has pushed
    one video, and the logs name closures that exist. *)
Lemma Tracked_launch (skills : list Skill.t) :
  Tracked respond skills (launch topic skills).
Proof.
  rewrite launch_eq. unfold Tracked. cbn [tasks shared youtubeErrors answered
    successfulSearches flat_map].
  split; [|split; [reflexivity|split;
    [cbn [filter List.length]; rewrite collected_started; reflexivity|]]].
  - intros i t N. rewrite nth_error_map in N.
    destruct (nth_error skills i) as [skill|] eqn:S; [|discriminate].
    injection N as <-. split; [|reflexivity].
    unfold Positioned, started. cbn [phase skillOf].
    destruct (Skill.searchTerms skill); cbn [phaseAt]; [exact I|reflexivity].
  - unfold Bounded. cbn [tasks shared fetched answered]. rewrite length_map.
    split; [|intros r []].
    intros r H. apply first_requests_bounds in H. lia.
Qed.

Lemma Tracked_step (skills : list Skill.t) (i : nat) (m : Machine) :
  Tracked respond skills m -> Tracked respond skills (step topic respond i m).
Proof.
  intros T. destruct (step_cases topic respond i m)
    as [->|(t & j & term & rest & N & P & ->)]; [exact T|].
  destruct T as (T1 & T2 & T3 & T4 & T5).
  destruct (resume_awaiting topic respond i t (shared m) j term rest P)
    as (R1 & R2 & R3 & R4 & R5 & R6 & R7 & R8 & _).
  pose proof (resume_errors i t (shared m) j term rest P) as R9.
  destruct (T1 i t N) as [Pos Sk]. unfold Positioned in Pos. rewrite P in Pos.
  assert (i < List.length (tasks m)) as Li
    by (apply nth_error_Some; rewrite N; discriminate).
  unfold Tracked. cbn [tasks shared].
  split; [|split; [|split; [|split]]].
  - intros k t' N'. rewrite nth_error_update in N'.
    destruct (Nat.eqb_spec k i) as [->|D]; [|exact (T1 k t' N')].
    rewrite N in N'. cbn [option_map] in N'. injection N' as <-.
    rewrite R1. split; [|exact Sk].
    unfold Positioned. rewrite R3, R1.
    destruct (breaks (respond i j)); [exact I|].
    pose proof (skipn_next _ _ _ _ Pos) as Q.
    destruct rest as [|term' rest']; cbn [phaseAt]; [exact I|exact Q].
  - rewrite R9, R5, T2, flat_map_app. cbn [flat_map]. rewrite app_nil_r.
    f_equal. unfold errorAt, termAt. cbn [request ofSkill ofTerm]. rewrite Sk.
    rewrite (skipn_nth _ "" _ _ _ Pos). reflexivity.
  - rewrite R7, T3, R5, filter_app, length_app. cbn [filter].
    rewrite lostAt_request.
    pose proof (sum_update (fun t => List.length (videos t)) (tasks m) i t
                  (fst (resume topic respond i t (shared m))) N) as U.
    cbv beta in U. unfold collected. rewrite R2 in U.
    destruct (yields (respond i j)) eqn:Y.
    + rewrite (yields_pushes term _ (videos t) Y) in U.
      rewrite (yields_counts _ Y). cbn [andb negb List.length]. lia.
    + destruct (counts (respond i j)); cbn [andb negb List.length]; lia.
  - intros r H. cbn [tasks shared] in *. rewrite length_update. rewrite R4 in H.
    apply in_app_or in H. destruct H as [H|H]; [exact (T4 r H)|].
    destruct (breaks (respond i j)); [destruct H|].
    destruct rest as [|term' rest']; [destruct H|].
    destruct H as [<-|[]]. exact Li.
  - intros r H. cbn [tasks shared] in *. rewrite length_update. rewrite R5 in H.
    apply in_app_or in H. destruct H as [H|[<-|[]]]; [exact (T5 r H)|exact Li].
Qed.

Lemma Tracked_run (skills : list Skill.t) (schedule : list nat) :
  Tracked respond skills (run topic respond schedule (launch topic skills)).
Proof.
  induction schedule as [|i schedule IH] using rev_ind.
  - apply Tracked_launch.
  - rewrite run_snoc. apply Tracked_step. exact IH.
Qed.

Lemma Subsequence_nil_l {A : Type} (l : list A) : Subsequence [] l.
Proof.
  induction l as [|x l IH]; [constructor|]. apply Subsequence_skip. exact IH.
Qed.

Lemma plainOnResponse_one (term : string) (r : FetchResult) :
  plainOnResponse term r [] = []
  \/ exists v, plainOnResponse term r [] = [v] /\ Video.searchTerm v = term.
Proof.
  destruct r as [msg|[e its]]; cbn [plainOnResponse items]; [left; reflexivity|].
  destruct its as [[|[item|what|item what] its]|]; try (left; reflexivity);
    right; exists (toVideo item term); split; reflexivity.
Qed.

Lemma soloVideos_subsequence (i : nat) (terms : list string) :
  forall j, Subsequence (map Video.searchTerm (soloVideos respond i j terms [])) terms.
Proof.
  induction terms as [|term rest IH]; intros j; [constructor|].
  cbn [soloVideos].
  destruct (breaks (respond i j)) eqn:B.
  - rewrite (breaks_not_yields _ B). apply Subsequence_nil_l.
  - rewrite soloVideos_app.
    destruct (yields (respond i j)).
    + destruct (plainOnResponse_one term (respond i j)) as [->|(v & -> & <-)].
      * apply Subsequence_skip. apply IH.
      * cbn [app map]. apply Subsequence_keep. apply IH.
    + apply Subsequence_skip. apply IH.
Qed.

Lemma plainLoop_subsequence (i : nat) (terms : list string) :
  forall j, Subsequence (map Video.searchTerm (plainLoop respond i j terms [])) terms.
Proof.
  induction terms as [|term rest IH]; intros j; [constructor|].
  cbn [plainLoop]. rewrite plainLoop_app.
  destruct (plainOnResponse_one term (respond i j)) as [->|(v & -> & <-)].
  - apply Subsequence_skip. apply IH.
  - cbn [app map]. apply Subsequence_keep. apply IH.
Qed.

Lemma In_mapFrom {A B : Type} (f : nat -> A -> B) (l : list A) :
  forall i y, In y (mapFrom f i l) -> exists k x, In x l /\ y = f k x.
Proof.
  induction l as [|x l IH]; intros i y H; [destruct H|].
  cbn [mapFrom] in H. destruct H as [<-|H].
  - exists i, x. split; [left|]; reflexivity.
  - destruct (IH _ _ H) as (k & x' & I & ->). exists k, x'.
    split; [right; exact I|reflexivity].
Qed.

(** The requests of a log, skill by skill. *)
Lemma split_by_skill (l : list Request) :
  forall n,
    Permutation (filter (fun r => (ofSkill r <? n)%nat) l)
                (flat_map (fun i => ofSkillOnly i l) (seq 0 n)).
Proof.
  induction n as [|n IH].
  - cbn [seq flat_map]. induction l as [|r l IHl]; [constructor|exact IHl].
  - rewrite seq_S, flat_map_app. cbn [flat_map Nat.add]. rewrite app_nil_r.
    eapply perm_trans; [|apply Permutation_app_tail; exact IH].
    clear IH. unfold ofSkillOnly. induction l as [|r l IHl]; [constructor|].
    cbn [filter].
    destruct (Nat.ltb_spec (ofSkill r) (S n)) as [L|L];
      destruct (Nat.ltb_spec (ofSkill r) n) as [L'|L'];
      destruct (Nat.eqb_spec (ofSkill r) n) as [E|E]; try lia.
    + cbn [app]. apply perm_skip. exact IHl.
    + eapply perm_trans; [apply perm_skip; exact IHl|].
      apply Permutation_middle.
    + exact IHl.
Qed.

Lemma filter_all {A : Type} (p : A -> bool) (l : list A) :
  (forall x, In x l -> p x = true) -> filter p l = l.
Proof.
  induction l as [|x l IH]; intros H; [reflexivity|].
  cbn [filter]. rewrite (H x (or_introl eq_refl)). f_equal.
  apply IH. intros y I. apply H. right. exact I.
Qed.

Lemma logs_by_skill (l : list Request) (n : nat) :
  (forall r, In r l -> ofSkill r < n) ->
  Permutation l (flat_map (fun i => ofSkillOnly i l) (seq 0 n)).
Proof.
  intros B. rewrite <- (filter_all (fun r => (ofSkill r <? n)%nat) l) at 1.
  - apply split_by_skill.
  - intros r H. apply Nat.ltb_lt. exact (B r H).
Qed.

Lemma flat_map_ext_seq {B : Type} (f g : nat -> list B) (n : nat) :
  (forall i, i < n -> f i = g i) -> flat_map f (seq 0 n) = flat_map g (seq 0 n).
Proof.
  intros H. rewrite !flat_map_concat_map. f_equal. apply map_ext_in.
  intros i I. apply in_seq in I. apply H. lia.
Qed.

(** When every closure has returned, the logs hold, skill by skill, the
    requests of the skill's own loop. *)
Lemma completed_logs (skills : list Skill.t) (m : Machine) :
  Consistent topic respond skills m -> Bounded m -> allReturned m = true ->
  Permutation (fetched (shared m))
    (flat_map (fun i => match nth_error skills i with
                        | Some skill =>
                            soloRequests topic respond i 0 (Skill.searchTerms skill)
                        | None => []
                        end) (seq 0 (List.length skills)))
  /\ Permutation (answered (shared m)) (fetched (shared m)).
Proof.
  intros (L & C) (B1 & B2) R.
  assert (forall i, i < List.length skills ->
            ofSkillOnly i (fetched (shared m))
            = match nth_error skills i with
              | Some skill => soloRequests topic respond i 0 (Skill.searchTerms skill)
              | None => []
              end
            /\ ofSkillOnly i (answered (shared m)) = ofSkillOnly i (fetched (shared m)))
    as Q.
  { intros i Li. rewrite <- L in Li.
    destruct (nth_error (tasks m) i) as [t|] eqn:N;
      [|apply nth_error_None in N; lia].
    destruct (C i t N) as (S & F & _ & A).
    pose proof (allReturned_nth m i t R N) as P.
    unfold futureRequests in F. unfold pending in A. rewrite P in F, A.
    rewrite app_nil_r in F, A. rewrite S. split; assumption. }
  split.
  - eapply perm_trans; [apply (logs_by_skill _ (List.length skills))|].
    + intros r H. rewrite <- L. exact (B1 r H).
    + rewrite (flat_map_ext_seq _ _ _ (fun i Li => proj1 (Q i Li))).
      apply Permutation_refl.
  - eapply perm_trans; [apply (logs_by_skill _ (List.length skills))|].
    + intros r H. rewrite <- L. exact (B2 r H).
    + rewrite (flat_map_ext_seq _ _ _ (fun i Li => proj2 (Q i Li))).
      apply Permutation_sym. apply logs_by_skill.
      intros r H. rewrite <- L. exact (B1 r H).
Qed.

Lemma Permutation_filter {A : Type} (p : A -> bool) (l l' : list A) :
  Permutation l l' -> Permutation (filter p l) (filter p l').
Proof.
  induction 1 as [|x l l' _ IH|x y l|l l' l'' _ IH1 _ IH2]; cbn [filter].
  - constructor.
  - destruct (p x); [apply perm_skip|]; exact IH.
  - destruct (p x), (p y); try apply Permutation_refl. apply perm_swap.
  - exact (perm_trans IH1 IH2).
Qed.


Lemma Permutation_flat_map_same {A B : Type} (f : A -> list B) (l l' : list A) :
  Permutation l l' -> Permutation (flat_map f l) (flat_map f l').
Proof.
  induction 1 as [|x l l' _ IH|x y l|l l' l'' _ IH1 _ IH2]; cbn [flat_map].
  - constructor.
  - apply Permutation_app_head. exact IH.
  - rewrite !app_assoc. apply Permutation_app_tail. apply Permutation_app_comm.
  - exact (perm_trans IH1 IH2).
Qed.

Lemma length_filter_split {A : Type} (p : A -> bool) (l : list A) :
  List.length (filter p l) + List.length (filter (fun x => negb (p x)) l)
  = List.length l.
Proof.
  induction l as [|x l IH]; [reflexivity|].
  cbn [filter]. destruct (p x); cbn [negb List.length]; lia.
Qed.


(** X14. The videos of a skill come in the order of its search terms: the
    terms the videos were found with are the skill's terms with some left
    out, in the reply of the variant with diagnostics whatever the order of
    arrival of the answers, and in the reply of the plain variant. So a skill
    never has more videos than terms, and the position of a video in its
    list, from which the difficulty is taken, follows the position of its
    term. *)
Theorem videos_keep_the_order_of_the_terms (schedule : list nat)
    (skills : list Skill.t) :
  allReturned (run topic respond schedule (launch topic skills)) = true ->
  (forall enriched,
     In enriched (skillsWithVideos (run topic respond schedule (launch topic skills))) ->
     Subsequence (map Video.searchTerm (EnrichedSkill.videos enriched))
                 (Skill.searchTerms (EnrichedSkill.skill enriched)))
  /\ (forall enriched,
        In enriched (plainSkillsWithVideos respond skills) ->
        Subsequence (map Video.searchTerm (EnrichedSkill.videos enriched))
                    (Skill.searchTerms (EnrichedSkill.skill enriched))).
Proof.
  intros R. split; intros enriched H.
  - rewrite (completed_skills topic respond skills _
               (Consistent_run topic respond skills schedule) R) in H.
    apply In_mapFrom in H. destruct H as (k & skill & _ & ->).
    cbn [soloSkill EnrichedSkill.videos EnrichedSkill.skill].
    apply soloVideos_subsequence.
  - unfold plainSkillsWithVideos in H.
    apply In_mapFrom in H. destruct H as (k & skill & _ & ->).
    cbn [EnrichedSkill.videos EnrichedSkill.skill]. apply plainLoop_subsequence.
Qed.



(** X17. What of the diagnostics depends on the order in which the answers
    arrive: two generations for the same skills and the same answers, each
    run until every closure has returned, end with the same three counters
    and the same videos, and with the same errors recorded up to their
    order. The reply carries an [errors] member in both or in neither, of
    the same length, and with the same entries up to their order when at
    most five errors were recorded. With more than five the entries of the
    reply depend on the order of arrival: of six failed searches the reply
    names those for a, b, c, d, e when the answers arrive in the order of
    the skills, and those for f, e, d, c, b when they arrive in the reverse
    order. *)
Theorem diagnostics_up_to_arrival_order (schedule schedule' : list nat)
    (skills : list Skill.t) :
  let m := run topic respond schedule (launch topic skills) in
  let m' := run topic respond schedule' (launch topic skills) in
  allReturned m = true -> allReturned m' = true ->
  totalSearches (shared m) = totalSearches (shared m')
  /\ successfulSearches (shared m) = successfulSearches (shared m')
  /\ failedSearches (shared m) = failedSearches (shared m')
  /\ skillsWithVideos m = skillsWithVideos m'
  /\ Permutation (youtubeErrors (shared m)) (youtubeErrors (shared m'))
  /\ (debugErrors (debugOf (shared m)) = None
      <-> debugErrors (debugOf (shared m')) = None)
  /\ (forall errors errors',
        debugErrors (debugOf (shared m)) = Some errors ->
        debugErrors (debugOf (shared m')) = Some errors' ->
        List.length errors = List.length errors'
        /\ (List.length (youtubeErrors (shared m)) <= 5 -> Permutation errors errors'))
  /\ option_map (map Enrichment.term)
       (debugErrors (debugOf (shared (run "T" Scenarios.allUnreachable Scenarios.inOrder
                                        (launch "T" Scenarios.sixSkills)))))
     = Some ["a"; "b"; "c"; "d"; "e"]
  /\ option_map (map Enrichment.term)
       (debugErrors (debugOf (shared (run "T" Scenarios.allUnreachable Scenarios.inReverse
                                        (launch "T" Scenarios.sixSkills)))))
     = Some ["f"; "e"; "d"; "c"; "b"].
Proof.
  intros m m' R R'.
  destruct (Tracked_run skills schedule) as (_ & E & _ & B). fold m in E, B.
  destruct (Tracked_run skills schedule') as (_ & E' & _ & B'). fold m' in E', B'.
  destruct (completed_logs skills m (Consistent_run topic respond skills schedule) B R)
    as [F A].
  destruct (completed_logs skills m' (Consistent_run topic respond skills schedule') B' R')
    as [F' A'].
  assert (Permutation (fetched (shared m)) (fetched (shared m'))) as PF
    by (eapply perm_trans; [exact F|apply Permutation_sym; exact F']).
  assert (Permutation (answered (shared m)) (answered (shared m'))) as PA.
  { eapply perm_trans; [exact A|]. eapply perm_trans; [exact PF|].
    apply Permutation_sym. exact A'. }
  destruct (Counted_run topic respond skills schedule) as (C1 & C2 & C3 & _).
  destruct (Counted_run topic respond skills schedule') as (C1' & C2' & C3' & _).
  fold m in C1, C2, C3. fold m' in C1', C2', C3'.
  assert (Permutation (youtubeErrors (shared m)) (youtubeErrors (shared m'))) as PE
    by (rewrite E, E'; apply Permutation_flat_map_same; exact PA).
  split; [rewrite C1, C1'; apply Permutation_length; exact PF|].
  split; [rewrite C2, C2'; apply Permutation_length, Permutation_filter; exact PA|].
  split; [rewrite C3, C3'; apply Permutation_length, Permutation_filter; exact PA|].
  split.
  { rewrite (completed_skills topic respond skills m
               (Consistent_run topic respond skills schedule) R).
    rewrite (completed_skills topic respond skills m'
               (Consistent_run topic respond skills schedule') R').
    reflexivity. }
  split; [exact PE|].
  pose proof (Permutation_length PE) as Len.
  unfold debugOf. cbn [debugErrors].
  split; [|split; [|split; reflexivity]].
  - destruct (youtubeErrors (shared m)) as [|x xs], (youtubeErrors (shared m')) as [|y ys];
      cbn [List.length] in Len; try discriminate Len; split; intros H;
      try reflexivity; discriminate H.
  - intros errors errors' H H'.
    assert (errors = firstn 5 (youtubeErrors (shared m))) as ->
      by (destruct (youtubeErrors (shared m)); [discriminate H|injection H as <-; reflexivity]).
    assert (errors' = firstn 5 (youtubeErrors (shared m'))) as ->
      by (destruct (youtubeErrors (shared m')); [discriminate H'|injection H' as <-; reflexivity]).
    split; [rewrite !length_firstn, Len; reflexivity|].
    intros Five. rewrite !firstn_all2 by lia. exact PE.
Qed.

Import Warning.


End DiagnosticsFacts.

(** ** More on the exported graph *)

Section GraphFacts.

Import Trainstation Graph.

Variable random : nat -> N.

Lemma variant_digit (n : N) :
  In (toString16 (N.lor (N.land n 3) 8))
     ["8"%char; "9"%char; "a"%char; "b"%char].
Proof.
  change 3%N with (N.ones 2). rewrite N.land_ones.
  assert (n mod 2 ^ 2 < 4)%N as L by (apply N.mod_lt; discriminate).
  destruct (n mod 2 ^ 2)%N as [|[[p|p|]|[p|p|]|]]; try lia; cbn; tauto.
Qed.

Lemma exportVideos_content (topic : string) (skill : Course.skill) (total : nat)
    (videos : list Video.t) :
  forall videoIndex k,
    match exportVideos random topic skill total videoIndex videos k with
    | (videoEntities, _, _) =>
        map shown videoEntities = map (expected topic skill) videos
        /\ filter isVideo videoEntities = videoEntities
    end.
Proof.
  induction videos as [|video rest IH]; intros videoIndex k; cbn [exportVideos].
  - split; reflexivity.
  - rewrite generateUUID_eq.
    specialize (IH (S videoIndex) (31 + k)).
    destruct (exportVideos random topic skill total (S videoIndex) rest (31 + k))
      as [[videoEntities videoIds] k2].
    destruct IH as [I1 I2]. cbn [map filter isVideo type String.eqb Ascii.eqb Bool.eqb].
    split; [|f_equal; exact I2].
    f_equal. exact I1.
Qed.

Lemma exportSkill_content (topic : string) (skill : Course.skill) (k : nat) :
  match exportSkill random topic skill k with
  | (pushed, _, _) =>
      map shown (filter isVideo pushed) = map (expected topic skill) (videosOf skill)
  end.
Proof.
  unfold exportSkill, videosOf. rewrite generateUUID_eq.
  destruct (Course.videos skill) as [[|video rest]|]; try reflexivity.
  pose proof (exportVideos_content topic skill (List.length (video :: rest))
                (video :: rest) 0 (31 + k)) as S.
  destruct (exportVideos random topic skill (List.length (video :: rest)) 0
              (video :: rest) (31 + k)) as [[videoEntities videoIds] k2].
  destruct S as [S1 S2]. rewrite filter_app, S2. cbn [filter isVideo type].
  cbn. rewrite app_nil_r. exact S1.
Qed.

Lemma exportSkills_content (topic : string) (skills : list Course.skill) :
  forall k,
    match exportSkills random topic skills k with
    | (es, _, _) => map shown (filter isVideo es) = expectedOfSkills topic skills
    end.
Proof.
  induction skills as [|skill rest IH]; intros k; cbn [exportSkills]; [reflexivity|].
  pose proof (exportSkill_content topic skill k) as S.
  destruct (exportSkill random topic skill k) as [[pushed sectionId] k1].
  specialize (IH k1).
  destruct (exportSkills random topic rest k1) as [[es sectionIds] k2].
  rewrite filter_app, map_app, S, IH. reflexivity.
Qed.

Lemma children_of_videos (es : list Entity) :
  Forall isVideoEntity es -> flat_map children es = [].
Proof.
  induction 1 as [|e es [_ C] _ IH]; [reflexivity|].
  cbn [flat_map]. rewrite C, IH. reflexivity.
Qed.

(** The children named by the entities of the skills, with the sections
    themselves, are the entities of the skills. *)
Lemma exportSkills_children (topic : string) (skills : list Course.skill) :
  forall k,
    match exportSkills random topic skills k with
    | (es, sectionIds, _) =>
        Permutation (flat_map children es ++ sectionIds) (map id es)
    end.
Proof.
  induction skills as [|skill rest IH]; intros k; cbn [exportSkills]; [constructor|].
  pose proof (exportSkill_spec random topic skill k) as S.
  destruct (exportSkill random topic skill k) as [[pushed sectionId] k1].
  destruct S as (_ & _ & ves & sec & -> & V & _ & Sid & _ & Sch & _).
  specialize (IH k1).
  destruct (exportSkills random topic rest k1) as [[es sectionIds] k2].
  rewrite !flat_map_app, !map_app, (children_of_videos ves V).
  cbn [flat_map app map]. rewrite app_nil_r, Sch, Sid, <- !app_assoc.
  apply Permutation_app_head. cbn [app].
  eapply perm_trans; [apply Permutation_sym, Permutation_middle|].
  apply perm_skip. exact IH.
Qed.

Lemma fold_left_sum {A : Type} (f : A -> nat) (l : list A) :
  forall n, fold_left (fun sum x => sum + f x) l n
            = n + fold_right (fun x m => f x + m) 0 l.
Proof.
  induction l as [|x l IH]; intros n; cbn [fold_left fold_right]; [lia|].
  rewrite IH. lia.
Qed.

Lemma length_filter_isVideo (es : list Entity) :
  List.length (filter isVideo es) = List.length (map shown (filter isVideo es)).
Proof. symmetry. apply length_map. Qed.

Lemma length_expectedOfSkills (topic : string) (skills : list Course.skill) :
  List.length (expectedOfSkills topic skills) = totalVideos skills.
Proof.
  induction skills as [|skill rest IH]; [reflexivity|].
  unfold expectedOfSkills in *. cbn [flat_map totalVideos fold_right].
  rewrite length_app, length_map, IH. unfold videosOf, videoCount.
  destruct (Course.videos skill); reflexivity.
Qed.

(** X19. Every identifier has the digit 4 in the place of the version
    and one of 8, 9, a, b in the place of the variant, whatever the random
    source returns. *)
Theorem uuid_version_and_variant (k : nat) :
  String.get 14 (uuid random k) = Some "4"%char
  /\ exists c, String.get 19 (uuid random k) = Some c
               /\ In c ["8"%char; "9"%char; "a"%char; "b"%char].
Proof.
  unfold uuid, generateUUID, template.
  cbn [list_ascii_of_string replaceXY Ascii.eqb Bool.eqb orb fst snd].
  cbn [string_of_list_ascii String.get fst]. split; [reflexivity|].
  eexists. split; [reflexivity|]. unfold v. cbn [Ascii.eqb Bool.eqb andb].
  apply variant_digit.
Qed.

Lemma export_video_entities (course : Course.t) (now : string) :
  exists export,
    exportToTrainstation random (Some course) now = Some export
    /\ map shown (filter isVideo (entities export))
       = expectedOfSkills (Course.topic course) (Course.skills course).
Proof.
  cbn [exportToTrainstation]. rewrite generateUUID_eq.
  pose proof (exportSkills_content (Course.topic course) (Course.skills course)
                (31 + 0)) as S.
  destruct (exportSkills random (Course.topic course) (Course.skills course) (31 + 0))
    as [[es sectionIds] k2].
  eexists. split; [reflexivity|]. cbn [entities].
  rewrite filter_app. cbn [filter isVideo type]. cbn. rewrite app_nil_r. exact S.
Qed.

(** X20. The export loses no video and invents none: the video entities,
    in their order, are the videos of the course skill by skill, each under
    its own title, thumbnail and watch address, described by its search term
    (or by the description of its skill when it has none), and labelled with
    the topic and the name of its skill. *)
Theorem export_carries_the_videos (course : Course.t) (now : string) :
  exists export,
    exportToTrainstation random (Some course) now = Some export
    /\ map shown (filter isVideo (entities export))
       = expectedOfSkills (Course.topic course) (Course.skills course).
Proof.
  exact (export_video_entities course now).
Qed.

(** X21. The exported graph has the shape of a tree: the children lists of
    all entities together name the entities other than the root, each as
    often as it occurs. So, when the identifiers are pairwise different,
    every entity but the root is the child of exactly one entity, and the
    root is the child of none. *)
Theorem export_is_a_tree (course : Course.t) (now : string) :
  exists export rootEntity es,
    exportToTrainstation random (Some course) now = Some export
    /\ entities export = es ++ [rootEntity]
    /\ id rootEntity = root export
    /\ Permutation (flat_map children (entities export)) (map id es)
    /\ (NoDup (map id (entities export)) ->
        (forall e, In e es ->
           count_occ string_dec (flat_map children (entities export)) (id e) = 1)
        /\ count_occ string_dec (flat_map children (entities export)) (root export)
           = 0).
Proof.
  cbn [exportToTrainstation]. rewrite generateUUID_eq.
  pose proof (exportSkills_children (Course.topic course) (Course.skills course)
                (31 + 0)) as S.
  destruct (exportSkills random (Course.topic course) (Course.skills course) (31 + 0))
    as [[es sectionIds] k2].
  eexists _, _, es. split; [reflexivity|]. cbn [entities root id].
  split; [reflexivity|]. split; [reflexivity|].
  assert (Permutation
            (flat_map children
               (es ++ [{| id := uuid random 0; type := "root"; status := "public";
                          labels := []; children := sectionIds;
                          attributes :=
                            [("title", Course.topic course);
                             ("description",
                               ("AI-genererad kurs om " ++ Course.topic course)%string)] |}]))
            (map id es)) as P.
  { rewrite flat_map_app. cbn [flat_map children]. rewrite app_nil_r. exact S. }
  split; [exact P|].
  intros ND. rewrite map_app in ND. cbn [map id] in ND.
  apply NoDup_remove in ND. rewrite app_nil_r in ND. destruct ND as [ND N].
  split.
  - intros e H. rewrite (proj1 (Permutation_count_occ string_dec _ _) P (id e)).
    apply NoDup_count_occ'; [exact ND|]. apply in_map. exact H.
  - rewrite (proj1 (Permutation_count_occ string_dec _ _) P (uuid random 0)).
    apply count_occ_not_In. exact N.
Qed.

(** X22. The numbers on the card of a saved course are the numbers of the
    export: the card counts as many skills as the export has sections and as
    many videos as the export has video entities, and the export has one
    entity more than the two together. *)
Theorem card_counts_match_the_export (course : Course.t) (now : string) :
  exists export,
    exportToTrainstation random (Some course) now = Some export
    /\ List.length (sections (entities export)) = Client.skillCount course
    /\ List.length (filter isVideo (entities export)) = Client.videoCount course
    /\ List.length (entities export)
       = 1 + Client.skillCount course + Client.videoCount course.
Proof.
  destruct (export_structure random course now)
    as (export & rootEntity & es & E & _ & _ & _ & _ & _ & L & T & _).
  destruct (export_video_entities course now) as (export' & E' & C).
  rewrite E in E'. injection E' as <-.
  exists export. split; [exact E|].
  assert (Client.videoCount course = totalVideos (Course.skills course)) as V.
  { unfold Client.videoCount, totalVideos, videoCount.
    rewrite fold_left_sum. reflexivity. }
  unfold Client.skillCount. rewrite V.
  split; [rewrite <- (length_map (attribute "title")), T; apply length_map|].
  split; [|exact L].
  rewrite length_filter_isVideo, C. apply length_expectedOfSkills.
Qed.

End GraphFacts.

(** ** Names of the downloaded files *)

Section FileNameFacts.

Import FileName.

Lemma lowLine_no_space : isWhiteSpace lowLine = false.
Proof. reflexivity. Qed.

Lemma replaceFrom_no_space (s : text) :
  forall inRun, Forall (fun c => isWhiteSpace c = false) (replaceFrom inRun s).
Proof.
  induction s as [|c rest IH]; intros inRun; cbn [replaceFrom]; [constructor|].
  destruct (isWhiteSpace c) eqn:W.
  - destruct inRun; [apply IH|]. constructor; [exact lowLine_no_space|apply IH].
  - constructor; [exact W|apply IH].
Qed.

Lemma replaceFrom_clean (s : text) :
  Forall (fun c => isWhiteSpace c = false) s ->
  forall inRun, replaceFrom inRun s = s.
Proof.
  induction 1 as [|c rest W _ IH]; intros inRun; cbn [replaceFrom]; [reflexivity|].
  rewrite W, IH. reflexivity.
Qed.

Lemma length_replaceFrom (s : text) :
  forall inRun, List.length (replaceFrom inRun s) <= List.length s.
Proof.
  induction s as [|c rest IH]; intros inRun; cbn [replaceFrom List.length]; [lia|].
  destruct (isWhiteSpace c); [destruct inRun|]; cbn [List.length].
  - specialize (IH true). lia.
  - specialize (IH true). lia.
  - specialize (IH false). lia.
Qed.

Lemma replaceFrom_run (a b : text) (c d : N) :
  isWhiteSpace c = true -> isWhiteSpace d = true ->
  forall inRun,
    replaceFrom inRun (a ++ c :: d :: b) = replaceFrom inRun (a ++ c :: b).
Proof.
  intros C D. induction a as [|x a IH]; intros inRun; cbn [app replaceFrom].
  - rewrite C, D. destruct inRun; reflexivity.
  - destruct (isWhiteSpace x); [destruct inRun|]; rewrite IH; reflexivity.
Qed.

Lemma codeUnits_no_space (s : string) :
  forallb (fun c => negb (isWhiteSpace c)) (codeUnits s) = true ->
  Forall (fun c => isWhiteSpace c = false) (codeUnits s).
Proof.
  intros H. rewrite forallb_forall in H. apply Forall_forall.
  intros c I. apply negb_true_iff. exact (H c I).
Qed.

Lemma replaceFrom_after_run (ws rest : text) :
  Forall (fun c => isWhiteSpace c = true) ws ->
  (forall c more, rest = c :: more -> isWhiteSpace c = false) ->
  replaceFrom true (ws ++ rest) = replaceFrom false rest.
Proof.
  intros W H. induction W as [|c ws C _ IH]; cbn [app replaceFrom].
  - destruct rest as [|c more]; [reflexivity|].
    cbn [replaceFrom]. rewrite (H c more eq_refl). reflexivity.
  - rewrite C. exact IH.
Qed.

(** A run of white space becomes one low line. *)
Lemma replaceFrom_whole_run (ws rest : text) :
  ws <> [] ->
  Forall (fun c => isWhiteSpace c = true) ws ->
  (forall c more, rest = c :: more -> isWhiteSpace c = false) ->
  replaceFrom false (ws ++ rest) = lowLine :: replaceFrom false rest.
Proof.
  intros N W H. destruct W as [|c ws C W]; [contradiction|].
  cbn [app replaceFrom]. rewrite C. f_equal. exact (replaceFrom_after_run ws rest W H).
Qed.

(** X23. The names of the downloaded files are the topic with every run of
    white space, line ends and the spaces beyond ASCII included, replaced
    by one low line, followed by the suffix: the empty text is kept, a code
    unit that is no white space is kept where it is, and a run of white
    space that ends the text or is followed by a code unit that is no white
    space becomes exactly one low line ("a  b" followed by a tab and "c"
    becomes "a_b_c"). So the names hold no white space, whatever the topic.
    A topic without white space is kept as it is, so replacing twice is
    replacing once, and the name is never longer than the topic and the
    suffix. Topics that differ only in the length of a run of white space
    get the same name. *)
Theorem file_names_have_no_white_space (topic : text) :
  courseFileName topic = replaceWhiteSpace topic ++ codeUnits "_course.json"
  /\ trainstationFileName topic
     = replaceWhiteSpace topic ++ codeUnits "_trainstation.json"
  /\ replaceWhiteSpace [] = []
  /\ (forall c rest,
        isWhiteSpace c = false ->
        replaceWhiteSpace (c :: rest) = c :: replaceWhiteSpace rest)
  /\ (forall ws rest,
        ws <> [] ->
        Forall (fun c => isWhiteSpace c = true) ws ->
        (forall c more, rest = c :: more -> isWhiteSpace c = false) ->
        replaceWhiteSpace (ws ++ rest) = lowLine :: replaceWhiteSpace rest)
  /\ replaceWhiteSpace (codeUnits "a  b" ++ 9%N :: codeUnits "c") = codeUnits "a_b_c"
  /\ Forall (fun c => isWhiteSpace c = false) (courseFileName topic)
  /\ Forall (fun c => isWhiteSpace c = false) (trainstationFileName topic)
  /\ (Forall (fun c => isWhiteSpace c = false) topic -> replaceWhiteSpace topic = topic)
  /\ replaceWhiteSpace (replaceWhiteSpace topic) = replaceWhiteSpace topic
  /\ List.length (replaceWhiteSpace topic) <= List.length topic
  /\ (forall a b c d,
        isWhiteSpace c = true -> isWhiteSpace d = true ->
        courseFileName (a ++ c :: d :: b) = courseFileName (a ++ c :: b)).
Proof.
  unfold courseFileName, trainstationFileName, replaceWhiteSpace.
  split; [reflexivity|]. split; [reflexivity|]. split; [reflexivity|].
  split; [intros c rest C; cbn [replaceFrom]; rewrite C; reflexivity|].
  split; [apply replaceFrom_whole_run|].
  split; [reflexivity|].
  split; [apply Forall_app; split;
            [apply replaceFrom_no_space|apply codeUnits_no_space; reflexivity]|].
  split; [apply Forall_app; split;
            [apply replaceFrom_no_space|apply codeUnits_no_space; reflexivity]|].
  split; [intros H; apply replaceFrom_clean; exact H|].
  split; [apply replaceFrom_clean; apply replaceFrom_no_space|].
  split; [apply length_replaceFrom|].
  intros a b c d C D. rewrite (replaceFrom_run a b c d C D). reflexivity.
Qed.

End FileNameFacts.

(** ** The progression of the difficulty labels *)

Section BandFacts.

Import Levels Bands.

Lemma band_is_exact (index total : nat) :
  total <= 120 -> index < total ->
  getDifficultyLevel (num index) (num total) = exactBand index total.
Proof.
  intros T I. pose proof bands_exact_up_to_120 as H.
  rewrite forallb_forall in H. specialize (H total).
  rewrite forallb_forall in H. apply String.eqb_eq. apply H.
  - apply in_seq. lia.
  - apply in_seq. lia.
Qed.

Lemma rank_exactBand (index total : nat) :
  rank (exactBand index total)
  = if (total =? 0)%nat then 2
    else if (100 * index <? 33 * total)%nat then 0
    else if (100 * index <? 66 * total)%nat then 1
    else 2.
Proof.
  unfold exactBand. destruct (total =? 0)%nat; [reflexivity|].
  destruct (100 * index <? 33 * total)%nat; [reflexivity|].
  destruct (100 * index <? 66 * total)%nat; reflexivity.
Qed.

Lemma exactBand_advanced (index total : nat) :
  0 < total ->
  (exactBand index total = "advanced" <-> 66 * total <= 100 * index).
Proof.
  intros P. unfold exactBand.
  destruct (Nat.eqb_spec total 0) as [Z|Z]; [lia|].
  destruct (Nat.ltb_spec (100 * index) (33 * total)) as [A|A];
    [split; [discriminate|lia]|].
  destruct (Nat.ltb_spec (100 * index) (66 * total)) as [B|B];
    [split; [discriminate|lia]|].
  split; [lia|reflexivity].
Qed.

Lemma exactBand_intermediate (index total : nat) :
  0 < total ->
  (exactBand index total = "intermediate"
   <-> 33 * total <= 100 * index /\ 100 * index < 66 * total).
Proof.
  intros P. unfold exactBand.
  destruct (Nat.eqb_spec total 0) as [Z|Z]; [lia|].
  destruct (Nat.ltb_spec (100 * index) (33 * total)) as [A|A];
    [split; [discriminate|lia]|].
  destruct (Nat.ltb_spec (100 * index) (66 * total)) as [B|B];
    [split; [lia|reflexivity]|].
  split; [discriminate|lia].
Qed.

(** X24. Along a list of up to 120 videos the labels never step back: a
    video is never given an easier label than a video before it. The first
    video is a beginner's; a list has an advanced video exactly when it has
    at least three videos, and an intermediate one exactly when it has at
    least two. *)
Theorem labels_follow_the_position (total : nat) :
  total <= 120 ->
  (forall i j, i <= j -> j < total ->
     rank (getDifficultyLevel (num i) (num total))
     <= rank (getDifficultyLevel (num j) (num total)))
  /\ (0 < total -> getDifficultyLevel (num 0) (num total) = "beginner")
  /\ ((exists i, i < total /\ getDifficultyLevel (num i) (num total) = "advanced")
      <-> 3 <= total)
  /\ ((exists i, i < total /\ getDifficultyLevel (num i) (num total) = "intermediate")
      <-> 2 <= total).
Proof.
  intros T. split; [|split; [|split]].
  - intros i j L J. rewrite !band_is_exact by lia. rewrite !rank_exactBand.
    destruct (Nat.eqb_spec total 0); [lia|].
    destruct (Nat.ltb_spec (100 * i) (33 * total));
      destruct (Nat.ltb_spec (100 * j) (33 * total));
      destruct (Nat.ltb_spec (100 * i) (66 * total));
      destruct (Nat.ltb_spec (100 * j) (66 * total)); lia.
  - intros P. rewrite band_is_exact by lia. unfold exactBand.
    destruct (Nat.eqb_spec total 0); [lia|].
    destruct (Nat.ltb_spec (100 * 0) (33 * total)); [reflexivity|lia].
  - split.
    + intros (i & I & H). rewrite band_is_exact in H by lia.
      apply exactBand_advanced in H; lia.
    + intros P. exists (total - 1). split; [lia|].
      rewrite band_is_exact by lia. apply exactBand_advanced; lia.
  - split.
    + intros (i & I & H). rewrite band_is_exact in H by lia.
      apply exactBand_intermediate in H; lia.
    + intros P. exists ((33 * total + 99) / 100).
      pose proof (Nat.div_mod_eq (33 * total + 99) 100) as D.
      pose proof (Nat.mod_upper_bound (33 * total + 99) 100 ltac:(lia)) as U.
      assert (total = 2 \/ total = 3 \/ 4 <= total) as [->|[->|Q]] by lia.
      * split; [cbn; lia|reflexivity].
      * split; [cbn; lia|reflexivity].
      * split; [lia|]. rewrite band_is_exact by lia.
        apply exactBand_intermediate; lia.
Qed.

End BandFacts.

(** ** More on the extraction of the JSON object *)

Section ExtractionFacts.

Import Regex StructureParser.

(** X25. What the extraction returns is a part of the completion, at
    least two characters long, and extracting from it again returns it
    unchanged: a completion that is nothing but an object, from its opening
    brace to its closing brace, reaches [JSON.parse] as it is. *)
Theorem extraction_is_idempotent (responseText span : string) :
  jsonMatch responseText = Some span ->
  jsonMatch span = Some span
  /\ (exists pre post,
        list_ascii_of_string responseText = pre ++ list_ascii_of_string span ++ post)
  /\ 2 <= String.length span <= String.length responseText.
Proof.
  intros H. apply jsonMatch_outermost in H.
  destruct H as (pre & mid & post & T & _ & _ & S).
  split; [|split].
  - apply jsonMatch_outermost. exists [], mid, []. rewrite S.
    split; [reflexivity|]. split; [intros []|]. split; [intros []|reflexivity].
  - exists pre, post. rewrite T, S. cbn [app]. rewrite <- app_assoc. reflexivity.
  - rewrite <- (string_of_list_ascii_of_string span),
            <- (string_of_list_ascii_of_string responseText).
    rewrite !string_length_of_list, T, S. cbn [List.length].
    rewrite !length_app. cbn [List.length]. rewrite length_app. cbn [List.length]. lia.
Qed.

End ExtractionFacts.

(** ** The two modes of the browser *)

Section ModeFacts.

Import Store Courses Client.

Variable pg : Postgres.


End ModeFacts.

(** ** The properties at work *)

(** Deleting id 1 from the table of two rows is answered with a success. *)
Lemma delete_removes_by_id_witness :
  fst (Courses.deleteCourses Scenarios.plain true "1" Scenarios.twoRows)
  = Courses.Deleted.
Proof.
  exact (proj1 (delete_removes_by_id Scenarios.plain "1" 1 Scenarios.twoRows eq_refl)).
Defined.




(** The same import with the database away changes nothing. *)
Lemma import_is_dropped_when_the_database_is_away_witness :
  Client.handleImport Scenarios.plain Scenarios.parseFileX Scenarios.fileX
    "now" false 3 Scenarios.databaseWorld
  = (Scenarios.databaseWorld, Client.CourseImported).
Proof.
  exact (proj1 (import_is_dropped_when_the_database_is_away Scenarios.plain
                  Scenarios.parseFileX Scenarios.fileX "now" 3 Samples.courseX
                  Scenarios.databaseWorld eq_refl eq_refl eq_refl)).
Defined.




(** Deleting in local mode leaves the table alone. *)
Lemma local_delete_by_position_witness :
  Client.table (Client.deleteCourse Scenarios.plain true "0" 0 true Scenarios.localWorld)
  = Client.table Scenarios.localWorld.
Proof.
  exact (proj1 (local_delete_by_position Scenarios.plain "0" 0 true
                  Scenarios.localWorld eq_refl)).
Defined.

(** The course that carries the id "7" sits in row 3, and is still there
    after its delete button was used. *)
Lemma delete_button_follows_the_payload_witness :
  In Scenarios.rowWithId
     (Store.rows
        (Client.table
           (Client.deleteCourse Scenarios.plain true
              (Client.cardId Scenarios.stringId
                 {| Store.listedId := 3; Store.listedData := Scenarios.courseWithId;
                    Store.savedAt := 3 |} 0)
              0 true
              {| Client.useLocalStorage := false; Client.savedCourses := [];
                 Client.table := Scenarios.threeRows |}))).
Proof.
  apply (proj1 (delete_button_follows_the_payload Scenarios.plain Scenarios.stringId
                  Scenarios.rowWithId 0 true
                  {| Client.useLocalStorage := false; Client.savedCourses := [];
                     Client.table := Scenarios.threeRows |}
                  ltac:(right; right; left; reflexivity) eq_refl)
         (JString "7")).
  - reflexivity.
  - reflexivity.
  - discriminate.
Defined.

(** With answers that stop the first skill at its second term, the videos
    of the first skill follow its terms. *)
Lemma videos_keep_the_order_of_the_terms_witness :
  Subsequence
    (map Video.searchTerm
       (Enrichment.soloVideos Samples.quotaFromSecond 0 0
          (Skill.searchTerms Samples.skillA) []))
    (Skill.searchTerms Samples.skillA).
Proof.
  exact (proj1 (videos_keep_the_order_of_the_terms "topic" Samples.quotaFromSecond
                  Scenarios.firstSkillFirst [Samples.skillA; Samples.skillB] eq_refl)
               (Enrichment.soloSkill Samples.quotaFromSecond 0 Samples.skillA)
               (or_introl eq_refl)).
Defined.

(** The two orders of arrival end with the same counters, the same videos
    and the same errors up to their order. *)
Lemma diagnostics_up_to_arrival_order_witness :
  let m := Enrichment.run "topic" Samples.quotaFromSecond Scenarios.firstSkillFirst
             (Enrichment.launch "topic" [Samples.skillA; Samples.skillB]) in
  let m' := Enrichment.run "topic" Samples.quotaFromSecond Scenarios.secondSkillFirst
              (Enrichment.launch "topic" [Samples.skillA; Samples.skillB]) in
  Enrichment.totalSearches (Enrichment.shared m)
  = Enrichment.totalSearches (Enrichment.shared m')
  /\ Enrichment.successfulSearches (Enrichment.shared m)
     = Enrichment.successfulSearches (Enrichment.shared m')
  /\ Enrichment.failedSearches (Enrichment.shared m)
     = Enrichment.failedSearches (Enrichment.shared m')
  /\ Enrichment.skillsWithVideos m = Enrichment.skillsWithVideos m'
  /\ Permutation (Enrichment.youtubeErrors (Enrichment.shared m))
                 (Enrichment.youtubeErrors (Enrichment.shared m')).
Proof.
  destruct (diagnostics_up_to_arrival_order "topic" Samples.quotaFromSecond
              Scenarios.firstSkillFirst Scenarios.secondSkillFirst
              [Samples.skillA; Samples.skillB] eq_refl eq_refl)
    as (T & S & F & V & E & _).
  repeat split; assumption.
Defined.


(** The first of ten videos is a beginner's. *)
Lemma labels_follow_the_position_witness :
  Levels.getDifficultyLevel (num 0) (num 10) = "beginner".
Proof.
  apply (proj1 (proj2 (labels_follow_the_position 10 ltac:(lia)))). lia.
Defined.

(** The object taken from a completion with prose around it is returned
    unchanged when the extraction is applied to it. *)
Lemma extraction_is_idempotent_witness :
  StructureParser.jsonMatch Samples.sureThanksObject = Some Samples.sureThanksObject.
Proof.
  exact (proj1 (extraction_is_idempotent Samples.sureThanks Samples.sureThanksObject
                  eq_refl)).
Defined.


(** ** From the reply of a generation to the table *)

Section ReplyFacts.

Import Store Client FullCourse.

Variable pg : Postgres.



End ReplyFacts.

